(** * VaultCollapse: the level-collapse and dynamic-gravity engine

    A shallow embedding of the game logic of [main.js] (the linear level,
    rooms collapse behind the player) and of the older variant of the same
    file (the 3x4 grid level, a random room collapses on a countdown),
    followed by the properties of the engine.

    Numbers.  JavaScript numbers are modelled by the real numbers [R];
    integer quantities that the code only ever produces as integers
    (millisecond timestamps of [Date.now], array indices, [Math.floor]
    results) are [Z] or [nat].  [Infinity] and [undefined] are modelled by
    [None] where the code starts from them.

    Objects.  Rooms and corridors live in the arrays [rooms] and
    [corridors]; every other reference to one of them ([collapsedRooms],
    [collapsedCorridors], [player.currentSurface]) is an index into these
    arrays, so that a mutation through one reference is seen through all.

    Environment.  [Date.now()] and [Math.random()] are oracles: the k-th
    call of a session returns [Date_now k], resp. [Math_random k]; the
    state counts the calls made so far.  Rendering, the DOM and the HUD
    are left out except for the game-over panel written by [endGame]. *)

From Stdlib Require Import Reals Lra ZArith Lia String.
From stdpp Require Import base option list.

Open Scope R_scope.

(** ** The part of three.js the game uses *)

Module THREE.

Record Vector3 := mkVector3 { x : R; y : R; z : R }.

Definition setX (v : Vector3) (a : R) : Vector3 := mkVector3 a (y v) (z v).
Definition setY (v : Vector3) (a : R) : Vector3 := mkVector3 (x v) a (z v).
Definition setZ (v : Vector3) (a : R) : Vector3 := mkVector3 (x v) (y v) a.

Definition add (a b : Vector3) : Vector3 :=
  mkVector3 (x a + x b) (y a + y b) (z a + z b).

Definition multiplyScalar (a : Vector3) (s : R) : Vector3 :=
  mkVector3 (x a * s) (y a * s) (z a * s).

Definition length (a : Vector3) : R :=
  sqrt (x a * x a + y a * y a + z a * z a).

(** [normalize] divides by [length() || 1]. *)
Definition normalize (a : Vector3) : Vector3 :=
  let l := length a in
  multiplyScalar a (1 / (if Req_dec_T l 0 then 1 else l)).

Definition distanceTo (a b : Vector3) : R :=
  let dx := x a - x b in
  let dy := y a - y b in
  let dz := z a - z b in
  sqrt (dx * dx + dy * dy + dz * dz).

End THREE.

Import THREE.

Definition zero3 : Vector3 := mkVector3 0 0 0.

(** JavaScript truthiness of a nullable reference. *)
Definition truthy {A : Type} (o : option A) : bool :=
  match o with Some _ => true | None => false end.

(** [a < b] on numbers, as a boolean. *)
Definition ltb (a b : R) : bool := if Rlt_dec a b then true else false.

(** ** Data model *)

(** A child mesh of a room or corridor group: its position is local to the
    group. *)
Record Mesh := mkMesh {
  mesh_position : Vector3;
  mesh_isSurface : bool;
  mesh_normal : Vector3
}.

Inductive Owner := InRoom (i : nat) | InCorridor (i : nat).

(** The identity of a child mesh: the group that owns it and its place in
    [children]. *)
Record SurfaceRef := mkRef { ref_owner : Owner; ref_child : nat }.

(** A child mesh as the scan holds it: the mesh, its identity, and the
    position of its parent group ([getWorldPosition] adds the two; the
    groups that are scanned are neither rotated nor scaled). *)
Record Child := mkChild {
  child_ref : SurfaceRef;
  child_parentPosition : Vector3;
  child_mesh : Mesh
}.

Definition getWorldPosition (c : Child) : Vector3 :=
  add (child_parentPosition c) (mesh_position (child_mesh c)).

Inductive Phase := shake | fall.

Record Room := mkRoom {
  room_position : Vector3;
  room_rotation : Vector3;
  room_children : list Mesh;
  room_index : nat;
  room_isCollapsed : bool;
  room_collapseStartTime : Z;
  room_collapsePhase : option Phase;
  room_rotationVelocity : Vector3;
  room_fallStartY : R;
  room_basePosition : option Vector3
}.

Record Player := mkPlayer {
  player_position : Vector3;      (* player.mesh.position *)
  velocity : Vector3;
  speed : R;
  jumpStrength : R;
  isJumping : bool;
  coresCollected : nat;
  currentSurface : option SurfaceRef;
  gravity : Vector3
}.

Record DataCore := mkCore {
  core_position : Vector3;
  core_rotation_y : R;
  core_collected : bool;
  core_visible : bool;
  core_light_intensity : R;
  core_light_position : Vector3;
  core_basePosition : option Vector3
}.

Record Portal := mkPortal {
  portal_position : Vector3;
  portal_rotation_x : R;
  portal_rotation_y : R;
  portal_light_position : Vector3;
  portal_basePosition : option Vector3
}.

(** The game-over panel of the page, as [endGame] writes it. *)
Record Panel := mkPanel {
  panel_title : string;
  panel_win : bool;          (* class 'win' *)
  panel_message : string;
  panel_hidden : bool        (* class 'hidden' *)
}.

Definition Keys := string -> bool.

(** The clock and the random source of a session. *)
Record Env := mkEnv {
  Date_now : nat -> Z;
  Math_random : nat -> R
}.

(** What a frame receives from outside: the frame time, the keys held, and
    the camera's look axes, i.e. (0,0,-1) and (1,0,0) turned by the camera
    quaternion. *)
Record Frame := mkFrame {
  deltaTime : R;
  keys : Keys;
  lookForward : Vector3;
  lookRight : Vector3
}.

(** ** Code shared by both variants *)

Definition FORWARD_SPEED_MODIFIER : R := 0.5.
Definition STRAFE_SPEED_MODIFIER : R := 0.7.

Definition set_position (p : Player) (v : Vector3) : Player :=
  mkPlayer v (velocity p) (speed p) (jumpStrength p) (isJumping p)
    (coresCollected p) (currentSurface p) (gravity p).
Definition set_velocity (p : Player) (v : Vector3) : Player :=
  mkPlayer (player_position p) v (speed p) (jumpStrength p) (isJumping p)
    (coresCollected p) (currentSurface p) (gravity p).
Definition set_isJumping (p : Player) (b : bool) : Player :=
  mkPlayer (player_position p) (velocity p) (speed p) (jumpStrength p) b
    (coresCollected p) (currentSurface p) (gravity p).
Definition set_currentSurface (p : Player) (s : option SurfaceRef) : Player :=
  mkPlayer (player_position p) (velocity p) (speed p) (jumpStrength p)
    (isJumping p) (coresCollected p) s (gravity p).
Definition set_gravity (p : Player) (v : Vector3) : Player :=
  mkPlayer (player_position p) (velocity p) (speed p) (jumpStrength p)
    (isJumping p) (coresCollected p) (currentSurface p) v.

(** [forward.y = 0; forward.normalize()] *)
Definition flatten (v : Vector3) : Vector3 := normalize (setY v 0).

(** [player.velocity.x += d.x * player.speed * m], and the same for z. *)
Definition pushXZ (d : Vector3) (m : R) (p : Player) : Player :=
  let v := velocity p in
  set_velocity p
    (mkVector3 (x v + x d * speed p * m) (y v) (z v + z d * speed p * m)).

(** [player.velocity.x -= d.x * player.speed * m], and the same for z. *)
Definition pullXZ (d : Vector3) (m : R) (p : Player) : Player :=
  let v := velocity p in
  set_velocity p
    (mkVector3 (x v - x d * speed p * m) (y v) (z v - z d * speed p * m)).

(** "Constant forward movement" *)
Definition constantForward (forward : Vector3) (p : Player) : Player :=
  set_velocity p
    (mkVector3 (x forward * speed p) (y (velocity p)) (z forward * speed p)).

(** "Apply gravity" *)
Definition applyGravity (dt : R) (p : Player) : Player :=
  if negb (truthy (currentSurface p)) || isJumping p
  then set_velocity p (add (velocity p) (multiplyScalar (gravity p) dt))
  else set_velocity p (setY (velocity p) 0).

(** "Move player" *)
Definition movePlayer (dt : R) (p : Player) : Player :=
  set_position p (add (player_position p) (multiplyScalar (velocity p) dt)).

(** The running minimum of the surface scan. *)
Record Nearest := mkNearest {
  nearestSurface : option Child;
  nearestDistance : option R       (* None is Infinity *)
}.

Definition noNearest : Nearest := mkNearest None None.

Definition belowNearest (d : R) (n : Nearest) : bool :=
  match nearestDistance n with
  | None => true
  | Some nd => ltb d nd
  end.

(** The body of the inner loops of [findNearestSurface]. *)
Definition considerChild (pos : Vector3) (child : Child) (n : Nearest) : Nearest :=
  if negb (mesh_isSurface (child_mesh child)) then n else
  let surfaceWorldPos := getWorldPosition child in
  let distance := distanceTo pos surfaceWorldPos in
  if belowNearest distance n && ltb distance 10
  then mkNearest (Some child) (Some distance)
  else n.

(** [for (const child of group.children)], [j] counting the children. *)
Fixpoint scanChildren (pos parent : Vector3) (o : Owner) (j : nat)
    (children : list Mesh) (n : Nearest) : Nearest :=
  match children with
  | [] => n
  | m :: rest =>
      scanChildren pos parent o (S j) rest
        (considerChild pos (mkChild (mkRef o j) parent m) n)
  end.

(** [for (const room of rooms)], [i] counting the rooms. *)
Fixpoint scanRooms (pos : Vector3) (i : nat) (rooms : list Room)
    (n : Nearest) : Nearest :=
  match rooms with
  | [] => n
  | room :: rest =>
      scanRooms pos (S i) rest
        (if room_isCollapsed room then n
         else scanChildren pos (room_position room) (InRoom i) 0
                (room_children room) n)
  end.

(** The tail of [findNearestSurface], from [if (nearestSurface)] on. *)
Definition snapTo (n : Nearest) (p : Player) : Player :=
  match nearestSurface n with
  | Some surface =>
      let p := set_currentSurface p (Some (child_ref surface)) in
      if match nearestDistance n with Some d => ltb d 3 | None => false end
      then
        let surfaceWorldPos := getWorldPosition surface in
        let normal := mesh_normal (child_mesh surface) in
        let snapDistance := 1 in
        let p := set_position p
                   (add surfaceWorldPos (multiplyScalar normal snapDistance)) in
        let p := set_gravity p (multiplyScalar normal (-20)) in
        if isJumping p && ltb (y (velocity p)) 0
        then set_isJumping p false
        else p
      else p
  | None => set_currentSurface p None
  end.

Definition endGamePanel (won : bool) (message : string) : Panel :=
  mkPanel (if won then "YOU ESCAPED!" else "GAME OVER")%string won message false.

(** Field updates of a room. *)
Definition room_set_position (r : Room) (v : Vector3) : Room :=
  mkRoom v (room_rotation r) (room_children r) (room_index r)
    (room_isCollapsed r) (room_collapseStartTime r) (room_collapsePhase r)
    (room_rotationVelocity r) (room_fallStartY r) (room_basePosition r).
Definition room_set_rotation (r : Room) (v : Vector3) : Room :=
  mkRoom (room_position r) v (room_children r) (room_index r)
    (room_isCollapsed r) (room_collapseStartTime r) (room_collapsePhase r)
    (room_rotationVelocity r) (room_fallStartY r) (room_basePosition r).
Definition room_set_index (r : Room) (i : nat) : Room :=
  mkRoom (room_position r) (room_rotation r) (room_children r) i
    (room_isCollapsed r) (room_collapseStartTime r) (room_collapsePhase r)
    (room_rotationVelocity r) (room_fallStartY r) (room_basePosition r).
Definition room_set_isCollapsed (r : Room) (b : bool) : Room :=
  mkRoom (room_position r) (room_rotation r) (room_children r) (room_index r)
    b (room_collapseStartTime r) (room_collapsePhase r)
    (room_rotationVelocity r) (room_fallStartY r) (room_basePosition r).
Definition room_set_collapseStartTime (r : Room) (t : Z) : Room :=
  mkRoom (room_position r) (room_rotation r) (room_children r) (room_index r)
    (room_isCollapsed r) t (room_collapsePhase r)
    (room_rotationVelocity r) (room_fallStartY r) (room_basePosition r).
Definition room_set_collapsePhase (r : Room) (ph : option Phase) : Room :=
  mkRoom (room_position r) (room_rotation r) (room_children r) (room_index r)
    (room_isCollapsed r) (room_collapseStartTime r) ph
    (room_rotationVelocity r) (room_fallStartY r) (room_basePosition r).
Definition room_set_rotationVelocity (r : Room) (v : Vector3) : Room :=
  mkRoom (room_position r) (room_rotation r) (room_children r) (room_index r)
    (room_isCollapsed r) (room_collapseStartTime r) (room_collapsePhase r)
    v (room_fallStartY r) (room_basePosition r).
Definition room_set_fallStartY (r : Room) (a : R) : Room :=
  mkRoom (room_position r) (room_rotation r) (room_children r) (room_index r)
    (room_isCollapsed r) (room_collapseStartTime r) (room_collapsePhase r)
    (room_rotationVelocity r) a (room_basePosition r).
Definition room_set_basePosition (r : Room) (b : option Vector3) : Room :=
  mkRoom (room_position r) (room_rotation r) (room_children r) (room_index r)
    (room_isCollapsed r) (room_collapseStartTime r) (room_collapsePhase r)
    (room_rotationVelocity r) (room_fallStartY r) b.

(** [createRoom(x, y, z, size)]: floor, ceiling and four walls. *)
Definition createRoom (px py pz size : R) : Room :=
  let wallHeight := 8 in
  let floor := mkMesh (mkVector3 0 0 0) true (mkVector3 0 1 0) in
  let ceiling := mkMesh (mkVector3 0 wallHeight 0) true (mkVector3 0 (-1) 0) in
  let northWall :=
    mkMesh (mkVector3 0 (wallHeight / 2) (- size / 2)) true (mkVector3 0 0 1) in
  let southWall :=
    mkMesh (mkVector3 0 (wallHeight / 2) (size / 2)) true (mkVector3 0 0 (-1)) in
  let eastWall :=
    mkMesh (mkVector3 (size / 2) (wallHeight / 2) 0) true (mkVector3 (-1) 0 0) in
  let westWall :=
    mkMesh (mkVector3 (- size / 2) (wallHeight / 2) 0) true (mkVector3 1 0 0) in
  mkRoom (mkVector3 px py pz) zero3
    [floor; ceiling; northWall; southWall; eastWall; westWall]
    0 false 0 None zero3 0 None.

(** The floor mesh of [createCorridor(from, to, width)]: it sits at the
    midpoint, at height 0, inside a group at the origin. *)
Definition corridorFloor (from to : Vector3) : Mesh :=
  let midpoint := multiplyScalar (add from to) 0.5 in
  mkMesh (setY midpoint 0) true (mkVector3 0 1 0).

Definition createDataCore (px py pz : R) : DataCore :=
  mkCore (mkVector3 px py pz) 0 false true 1 (mkVector3 px py pz) None.

Definition createExitPortal (px py pz : R) : Portal :=
  mkPortal (mkVector3 px py pz) 0 0 (mkVector3 px py pz) None.

(** The player object of the file, placed at the camera by [init]. *)
Definition initialPlayer : Player :=
  mkPlayer (mkVector3 0 2 0) zero3 3 8 false 0 None (mkVector3 0 (-20) 0).

(** The panel before any game has ended. *)
Definition initialPanel : Panel := mkPanel "" false "" true.

(** Position updates of cores and of the portal. *)
Definition core_set_pose (c : DataCore) (pos : Vector3) (ry : R)
    (base : option Vector3) : DataCore :=
  mkCore pos ry (core_collected c) (core_visible c) (core_light_intensity c)
    pos base.

(** The object changes of [collectCore]. *)
Definition collected (c : DataCore) : DataCore :=
  mkCore (core_position c) (core_rotation_y c) true false 0
    (core_light_position c) (core_basePosition c).

(** The player changes of [collectCore]. *)
Definition rewardPlayer (p : Player) : Player :=
  mkPlayer (player_position p) (velocity p) (speed p + 1.5) (jumpStrength p)
    (isJumping p) (S (coresCollected p)) (currentSurface p) (gravity p).

(** [basePosition || position.clone()] *)
Definition baseOr (base : option Vector3) (pos : Vector3) : Vector3 :=
  match base with Some b => b | None => pos end.

(** The shake/fall animation of one collapsed room, [elapsed] milliseconds
    after its collapse started; [spin] is what the fall adds to the
    rotation (the two variants differ there). *)
Definition collapseStepRoom (spin : Room -> R -> Vector3) (elapsed : Z)
    (room : Room) : Room :=
  match room_collapsePhase room with
  | Some shake =>
      if (elapsed <? 1000)%Z then
        let shakeY := sin (IZR elapsed * 0.05) * 0.3 in
        room_set_position room (setY (room_position room) shakeY)
      else
        room_set_fallStartY (room_set_collapsePhase room (Some fall))
          (y (room_position room))
  | Some fall =>
      let fallTime := IZR (elapsed - 1000) / 1000 in
      let room :=
        room_set_position room
          (setY (room_position room)
             (room_fallStartY room - fallTime * fallTime * 10)) in
      room_set_rotation room (add (room_rotation room) (spin room fallTime))
  | None => room
  end.

(** ** main.js: the linear level, rooms collapse behind the player *)

Module MainJs.

Record Corridor := mkCorridor {
  corridor_position : Vector3;
  corridor_rotation : Vector3;
  corridor_children : list Mesh;
  corridor_connectedRooms : nat * nat;
  corridor_isCollapsed : bool;
  corridor_collapseStartTime : Z;
  corridor_collapsePhase : option Phase;
  corridor_rotationVelocity : Vector3;
  corridor_fallStartY : R;
  corridor_basePosition : option Vector3
}.

Record Particle := mkParticle {
  particle_position : Vector3;
  particle_rotation : Vector3;
  particle_size : R;
  particle_velocity : Vector3;
  particle_rotationSpeed : Vector3;
  particle_lifetime : Z;
  particle_spawnTime : Z;
  particle_opacity : R;
  particle_transparent : bool
}.

Record MapDrift := mkMapDrift {
  offset : Vector3;
  drift_velocity : Vector3;
  swayTime : R
}.

Record Game := mkGame {
  player : Player;
  rooms : list Room;
  corridors : list Corridor;
  dataCores : list DataCore;
  exitPortal : option Portal;
  gameActive : bool;
  gameStartTime : Z;
  lastCollapseTime : Z;
  collapsedRooms : list nat;
  collapsedCorridors : list nat;
  debrisParticles : list Particle;
  mapDrift : MapDrift;
  panel : Panel;
  clockReads : nat;
  randomDraws : nat
}.

Definition set_player (g : Game) (a : Player) : Game :=
  mkGame a (rooms g) (corridors g) (dataCores g) (exitPortal g) (gameActive g)
    (gameStartTime g) (lastCollapseTime g) (collapsedRooms g)
    (collapsedCorridors g) (debrisParticles g) (mapDrift g) (panel g)
    (clockReads g) (randomDraws g).
Definition set_rooms (g : Game) (a : list Room) : Game :=
  mkGame (player g) a (corridors g) (dataCores g) (exitPortal g) (gameActive g)
    (gameStartTime g) (lastCollapseTime g) (collapsedRooms g)
    (collapsedCorridors g) (debrisParticles g) (mapDrift g) (panel g)
    (clockReads g) (randomDraws g).
Definition set_corridors (g : Game) (a : list Corridor) : Game :=
  mkGame (player g) (rooms g) a (dataCores g) (exitPortal g) (gameActive g)
    (gameStartTime g) (lastCollapseTime g) (collapsedRooms g)
    (collapsedCorridors g) (debrisParticles g) (mapDrift g) (panel g)
    (clockReads g) (randomDraws g).
Definition set_dataCores (g : Game) (a : list DataCore) : Game :=
  mkGame (player g) (rooms g) (corridors g) a (exitPortal g) (gameActive g)
    (gameStartTime g) (lastCollapseTime g) (collapsedRooms g)
    (collapsedCorridors g) (debrisParticles g) (mapDrift g) (panel g)
    (clockReads g) (randomDraws g).
Definition set_exitPortal (g : Game) (a : option Portal) : Game :=
  mkGame (player g) (rooms g) (corridors g) (dataCores g) a (gameActive g)
    (gameStartTime g) (lastCollapseTime g) (collapsedRooms g)
    (collapsedCorridors g) (debrisParticles g) (mapDrift g) (panel g)
    (clockReads g) (randomDraws g).
Definition set_gameActive (g : Game) (a : bool) : Game :=
  mkGame (player g) (rooms g) (corridors g) (dataCores g) (exitPortal g) a
    (gameStartTime g) (lastCollapseTime g) (collapsedRooms g)
    (collapsedCorridors g) (debrisParticles g) (mapDrift g) (panel g)
    (clockReads g) (randomDraws g).
Definition set_gameStartTime (g : Game) (a : Z) : Game :=
  mkGame (player g) (rooms g) (corridors g) (dataCores g) (exitPortal g)
    (gameActive g) a (lastCollapseTime g) (collapsedRooms g)
    (collapsedCorridors g) (debrisParticles g) (mapDrift g) (panel g)
    (clockReads g) (randomDraws g).
Definition set_lastCollapseTime (g : Game) (a : Z) : Game :=
  mkGame (player g) (rooms g) (corridors g) (dataCores g) (exitPortal g)
    (gameActive g) (gameStartTime g) a (collapsedRooms g)
    (collapsedCorridors g) (debrisParticles g) (mapDrift g) (panel g)
    (clockReads g) (randomDraws g).
Definition set_collapsedRooms (g : Game) (a : list nat) : Game :=
  mkGame (player g) (rooms g) (corridors g) (dataCores g) (exitPortal g)
    (gameActive g) (gameStartTime g) (lastCollapseTime g) a
    (collapsedCorridors g) (debrisParticles g) (mapDrift g) (panel g)
    (clockReads g) (randomDraws g).
Definition set_collapsedCorridors (g : Game) (a : list nat) : Game :=
  mkGame (player g) (rooms g) (corridors g) (dataCores g) (exitPortal g)
    (gameActive g) (gameStartTime g) (lastCollapseTime g) (collapsedRooms g)
    a (debrisParticles g) (mapDrift g) (panel g)
    (clockReads g) (randomDraws g).
Definition set_debrisParticles (g : Game) (a : list Particle) : Game :=
  mkGame (player g) (rooms g) (corridors g) (dataCores g) (exitPortal g)
    (gameActive g) (gameStartTime g) (lastCollapseTime g) (collapsedRooms g)
    (collapsedCorridors g) a (mapDrift g) (panel g)
    (clockReads g) (randomDraws g).
Definition set_mapDrift (g : Game) (a : MapDrift) : Game :=
  mkGame (player g) (rooms g) (corridors g) (dataCores g) (exitPortal g)
    (gameActive g) (gameStartTime g) (lastCollapseTime g) (collapsedRooms g)
    (collapsedCorridors g) (debrisParticles g) a (panel g)
    (clockReads g) (randomDraws g).
Definition set_panel (g : Game) (a : Panel) : Game :=
  mkGame (player g) (rooms g) (corridors g) (dataCores g) (exitPortal g)
    (gameActive g) (gameStartTime g) (lastCollapseTime g) (collapsedRooms g)
    (collapsedCorridors g) (debrisParticles g) (mapDrift g) a
    (clockReads g) (randomDraws g).
Definition set_clockReads (g : Game) (a : nat) : Game :=
  mkGame (player g) (rooms g) (corridors g) (dataCores g) (exitPortal g)
    (gameActive g) (gameStartTime g) (lastCollapseTime g) (collapsedRooms g)
    (collapsedCorridors g) (debrisParticles g) (mapDrift g) (panel g)
    a (randomDraws g).
Definition set_randomDraws (g : Game) (a : nat) : Game :=
  mkGame (player g) (rooms g) (corridors g) (dataCores g) (exitPortal g)
    (gameActive g) (gameStartTime g) (lastCollapseTime g) (collapsedRooms g)
    (collapsedCorridors g) (debrisParticles g) (mapDrift g) (panel g)
    (clockReads g) a.

(** [Date.now()] *)
Definition now (env : Env) (g : Game) : Z * Game :=
  (Date_now env (clockReads g), set_clockReads g (S (clockReads g))).

(** [Math.random()] *)
Definition random (env : Env) (g : Game) : R * Game :=
  (Math_random env (randomDraws g), set_randomDraws g (S (randomDraws g))).

(** [for (const i of idxs) f(i)] on the game state. *)
Fixpoint forEach (f : nat -> Game -> Game) (idxs : list nat) (g : Game) : Game :=
  match idxs with
  | [] => g
  | i :: rest => forEach f rest (f i g)
  end.

(** The same for a body that can throw. *)
Fixpoint forEachM (f : nat -> Game -> option Game) (idxs : list nat)
    (g : Game) : option Game :=
  match idxs with
  | [] => Some g
  | i :: rest => g' ← f i g; forEachM f rest g'
  end.

(** *** generateLevel, init, startGame *)

Definition roomSize : R := 15.
Definition spacing : R := 25.
Definition numRooms : nat := 25.

(** [roomPositions[i]]: a winding path along z. *)
Definition roomPositionX (i : nat) : R :=
  IZR (Zfloor (sin (INR i * 0.5) * 1.5)).
Definition roomPositionZ (i : nat) : R := INR i.

Definition roomWorld (i : nat) : Vector3 :=
  mkVector3 (roomPositionX i * spacing) 0 (roomPositionZ i * spacing).

Definition levelRoom (i : nat) : Room :=
  room_set_index
    (createRoom (roomPositionX i * spacing) 0 (roomPositionZ i * spacing) roomSize)
    i.

Definition levelCorridor (from : nat) : Corridor :=
  let to := S from in
  mkCorridor zero3 zero3 [corridorFloor (roomWorld from) (roomWorld to)]
    (from, to) false 0 None zero3 0 None.

Definition levelCore (i : nat) : DataCore :=
  createDataCore (roomPositionX i * spacing) 3 (roomPositionZ i * spacing).

Definition init : Game :=
  mkGame initialPlayer
    (map levelRoom (seq 0 numRooms))
    (map levelCorridor (seq 0 (numRooms - 1)))
    (map levelCore [5; 11; 17]%nat)
    (Some (createExitPortal (roomPositionX (numRooms - 1) * spacing) 3
             (roomPositionZ (numRooms - 1) * spacing)))
    false 0 0 [] [] [] (mkMapDrift zero3 zero3 0) initialPanel 0 0.

Definition startGame (env : Env) (g : Game) : Game :=
  let g := set_gameActive g true in
  let '(t, g) := now env g in
  let g := set_gameStartTime g t in
  set_lastCollapseTime g (gameStartTime g).

(** The click listener installed by [init]. *)
Definition onClick (env : Env) (g : Game) : Game :=
  if negb (gameActive g) then startGame env g else g.

(** *** endGame, updateHUD *)

Definition endGame (won : bool) (message : string) (g : Game) : Game :=
  set_panel (set_gameActive g false) (endGamePanel won message).

(** Of [updateHUD] only the clock read is kept. *)
Definition updateHUD (env : Env) (g : Game) : Game :=
  if gameActive g then snd (now env g) else g.

(** *** findNearestSurface *)

Fixpoint scanCorridors (pos : Vector3) (i : nat) (cs : list Corridor)
    (n : Nearest) : Nearest :=
  match cs with
  | [] => n
  | corridor :: rest =>
      scanCorridors pos (S i) rest
        (if corridor_isCollapsed corridor then n
         else scanChildren pos (corridor_position corridor) (InCorridor i) 0
                (corridor_children corridor) n)
  end.

(** The two scans of [findNearestSurface]. *)
Definition searchNearest (rs : list Room) (cs : list Corridor)
    (pos : Vector3) : Nearest :=
  scanCorridors pos 0 cs (scanRooms pos 0 rs noNearest).

Definition findNearestSurface (rs : list Room) (cs : list Corridor)
    (p : Player) : Player :=
  snapTo (searchNearest rs cs (player_position p)) p.

(** *** checkCollisions, collectCore *)

Definition collectCore (env : Env) (i : nat) (g : Game) : Game :=
  let g := set_dataCores g (alter collected i (dataCores g)) in
  let g := set_player g (rewardPlayer (player g)) in
  updateHUD env g.

Definition checkCore (env : Env) (i : nat) (g : Game) : Game :=
  match dataCores g !! i with
  | None => g
  | Some core =>
      if core_collected core then g else
      let distance := distanceTo (player_position (player g)) (core_position core) in
      if ltb distance 2 then collectCore env i g else g
  end.

Definition checkCollisions (env : Env) (g : Game) : Game :=
  let g := forEach (checkCore env) (seq 0 (List.length (dataCores g))) g in
  match exitPortal g with
  | Some portal =>
      let distance :=
        distanceTo (player_position (player g)) (portal_position portal) in
      if ltb distance 3
      then endGame true "You escaped! The vault collapsed behind you!" g
      else g
  | None => g
  end.

(** *** updatePlayer *)

(** "Forward/Backward movement (W/S)" and "Strafe". *)
Definition steer (k : Keys) (forward right : Vector3) (p : Player) : Player :=
  let p :=
    if k "KeyW"%string || k "ArrowUp"%string
    then pushXZ forward FORWARD_SPEED_MODIFIER p else p in
  let p :=
    if k "KeyS"%string || k "ArrowDown"%string
    then pullXZ forward FORWARD_SPEED_MODIFIER p else p in
  let p :=
    if k "KeyA"%string || k "ArrowLeft"%string
    then pullXZ right STRAFE_SPEED_MODIFIER p else p in
  if k "KeyD"%string || k "ArrowRight"%string
  then pushXZ right STRAFE_SPEED_MODIFIER p else p.

(** "Jump" *)
Definition jump (k : Keys) (p : Player) : Player :=
  if k "Space"%string && negb (isJumping p) && truthy (currentSurface p)
  then set_isJumping (set_velocity p (setY (velocity p) (jumpStrength p))) true
  else p.

(** [updatePlayer] from "Get forward and right vectors" to "Strafe". *)
Definition locomotion (f : Frame) (p : Player) : Player :=
  let forward := flatten (lookForward f) in
  let right := flatten (lookRight f) in
  let p := constantForward forward p in
  steer (keys f) forward right p.

(** [updatePlayer] up to and including "Move player". *)
Definition advancePlayer (f : Frame) (p : Player) : Player :=
  let p := locomotion f p in
  let p := jump (keys f) p in
  let p := applyGravity (deltaTime f) p in
  movePlayer (deltaTime f) p.

(** [updatePlayer] from "Apply mouse look" to [checkCollisions()]. *)
Definition moveAndCollide (env : Env) (f : Frame) (g : Game) : Game :=
  let p := advancePlayer f (player g) in
  let g := set_player g (findNearestSurface (rooms g) (corridors g) p) in
  checkCollisions env g.

(** "Check if player fell into void" *)
Definition voidCheck (g : Game) : Game :=
  if ltb (y (player_position (player g))) (-50)
  then endGame false "You fell into the void!" g
  else g.

Definition updatePlayer (env : Env) (f : Frame) (g : Game) : Game :=
  if negb (gameActive g) then g else
  voidCheck (moveAndCollide env f g).

(** *** updateMapMovement *)

(** [Math.min(gameTime / 30, 1.0)] with
    [gameTime = (Date.now() - gameStartTime) / 1000]. *)
Definition driftIntensity (start t : Z) : R :=
  let gameTime := IZR (t - start) / 1000 in
  Rmin (gameTime / 30) 1.

Definition driftOffset (sway intensity : R) : Vector3 :=
  let swayX := sin (sway * 0.3) * 0.5 * intensity in
  let swayY := sin (sway * 0.2) * 0.3 * intensity in
  let swayZ := cos (sway * 0.25) * 0.5 * intensity in
  mkVector3 swayX swayY swayZ.

Definition corridor_set_drift (c : Corridor) (pos base : Vector3) : Corridor :=
  mkCorridor pos (corridor_rotation c) (corridor_children c)
    (corridor_connectedRooms c) (corridor_isCollapsed c)
    (corridor_collapseStartTime c) (corridor_collapsePhase c)
    (corridor_rotationVelocity c) (corridor_fallStartY c) (Some base).

Definition driftRoom (off : Vector3) (room : Room) : Room :=
  if negb (room_isCollapsed room) then
    let basePos := baseOr (room_basePosition room) (room_position room) in
    room_set_position (room_set_basePosition room (Some basePos)) (add basePos off)
  else room.

Definition driftCorridor (off : Vector3) (corridor : Corridor) : Corridor :=
  if negb (corridor_isCollapsed corridor) then
    let basePos :=
      baseOr (corridor_basePosition corridor) (corridor_position corridor) in
    corridor_set_drift corridor (add basePos off) basePos
  else corridor.

Definition driftCore (off : Vector3) (core : DataCore) : DataCore :=
  if negb (core_collected core) then
    let basePos := baseOr (core_basePosition core) (core_position core) in
    core_set_pose core (add basePos off) (core_rotation_y core) (Some basePos)
  else core.

Definition driftPortal (off : Vector3) (portal : Portal) : Portal :=
  let basePos := baseOr (portal_basePosition portal) (portal_position portal) in
  mkPortal (add basePos off) (portal_rotation_x portal)
    (portal_rotation_y portal) (add basePos off) (Some basePos).

Definition updateMapMovement (env : Env) (dt : R) (g : Game) : Game :=
  if negb (gameActive g) then g else
  let '(t, g) := now env g in
  let intensity := driftIntensity (gameStartTime g) t in
  let sway := swayTime (mapDrift g) + dt in
  let off := driftOffset sway intensity in
  let g := set_mapDrift g (mkMapDrift off (drift_velocity (mapDrift g)) sway) in
  let g := set_rooms g (map (driftRoom off) (rooms g)) in
  let g := set_corridors g (map (driftCorridor off) (corridors g)) in
  let g := set_dataCores g (map (driftCore off) (dataCores g)) in
  set_exitPortal g (option_map (driftPortal off) (exitPortal g)).

(** *** createDebrisEffect, updateDebrisParticles *)

(** One turn of the loop of [createDebrisEffect]. *)
Definition spawnParticle (env : Env) (position : Vector3) (g : Game) : Game :=
  let '(r, g) := random env g in
  let size := 0.2 + r * 0.5 in
  let '(rx, g) := random env g in
  let '(ry, g) := random env g in
  let '(rz, g) := random env g in
  let pos :=
    mkVector3 (x position + (rx - 0.5) * 10) (y position + ry * 5)
      (z position + (rz - 0.5) * 10) in
  let '(vx, g) := random env g in
  let '(vy, g) := random env g in
  let '(vz, g) := random env g in
  let vel := mkVector3 ((vx - 0.5) * 5) (vy * 3 - 1) ((vz - 0.5) * 5) in
  let '(sx, g) := random env g in
  let '(sy, g) := random env g in
  let '(sz, g) := random env g in
  let rotSpeed :=
    mkVector3 ((sx - 0.5) * 0.1) ((sy - 0.5) * 0.1) ((sz - 0.5) * 0.1) in
  let '(t, g) := now env g in
  let particle := mkParticle pos zero3 size vel rotSpeed 3000 t 1 false in
  set_debrisParticles g (debrisParticles g ++ [particle]).

Definition createDebrisEffect (env : Env) (position : Vector3) (g : Game) : Game :=
  let '(r, g) := random env g in
  let numParticles := (10 + Zfloor (r * 6))%Z in
  Nat.iter (Z.to_nat numParticles) (spawnParticle env position) g.

(** "Update physics", "Rotation" and "Fade out" for one live particle of
    the given age. *)
Definition stepParticle (dt : R) (age : Z) (particle : Particle) : Particle :=
  let gravity := -15 in
  let vel :=
    setY (particle_velocity particle)
      (y (particle_velocity particle) + gravity * dt) in
  let pos := add (particle_position particle) (multiplyScalar vel dt) in
  let rot := add (particle_rotation particle) (particle_rotationSpeed particle) in
  let fadeProgress := IZR age / IZR (particle_lifetime particle) in
  mkParticle pos rot (particle_size particle) vel
    (particle_rotationSpeed particle) (particle_lifetime particle)
    (particle_spawnTime particle) (1 - fadeProgress) true.

(** [for (let i = n - 1; i >= 0; i--)] over the array of particles. *)
Fixpoint debrisLoop (dt : R) (currentTime : Z) (n : nat)
    (ps : list Particle) : list Particle :=
  match n with
  | O => ps
  | S i =>
      match ps !! i with
      | None => debrisLoop dt currentTime i ps
      | Some particle =>
          let age := (currentTime - particle_spawnTime particle)%Z in
          if (age >? particle_lifetime particle)%Z
          then debrisLoop dt currentTime i (delete i ps)     (* splice(i, 1) *)
          else debrisLoop dt currentTime i
                 (<[i := stepParticle dt age particle]> ps)
      end
  end.

Definition updateDebrisParticles (env : Env) (dt : R) (g : Game) : Game :=
  let '(currentTime, g) := now env g in
  set_debrisParticles g
    (debrisLoop dt currentTime (List.length (debrisParticles g))
       (debrisParticles g)).

(** *** collapseConnectedCorridors, collapseRoomsBehindPlayer *)

Definition corridor_collapse (c : Corridor) (t : Z) (rv : Vector3) : Corridor :=
  mkCorridor (corridor_position c) (corridor_rotation c) (corridor_children c)
    (corridor_connectedRooms c) true t (Some shake) rv
    (corridor_fallStartY c) (corridor_basePosition c).

(** [connectedRooms.includes(roomIndex)] *)
Definition includes (cr : nat * nat) (roomIndex : nat) : bool :=
  (fst cr =? roomIndex)%nat || (snd cr =? roomIndex)%nat.

(** The loop body of [collapseConnectedCorridors]; [rooms[k]] of a room
    that does not exist throws. *)
Definition collapseCorridorIfConnected (env : Env) (roomIndex : nat) (j : nat)
    (g : Game) : option Game :=
  match corridors g !! j with
  | None => Some g
  | Some corridor =>
      if corridor_isCollapsed corridor then Some g else
      if includes (corridor_connectedRooms corridor) roomIndex then
        let '(room1, room2) := corridor_connectedRooms corridor in
        r1 ← rooms g !! room1;
        let room1Collapsed := room_isCollapsed r1 in
        r2 ← rooms g !! room2;
        let room2Collapsed := room_isCollapsed r2 in
        if room1Collapsed || room2Collapsed then
          let '(t, g) := now env g in
          let '(rx, g) := random env g in
          let '(ry, g) := random env g in
          let '(rz, g) := random env g in
          let rv :=
            mkVector3 ((rx - 0.5) * 0.06) ((ry - 0.5) * 0.03) ((rz - 0.5) * 0.06) in
          let g :=
            set_corridors g (<[j := corridor_collapse corridor t rv]> (corridors g)) in
          Some (set_collapsedCorridors g (collapsedCorridors g ++ [j]))
        else Some g
      else Some g
  end.

Definition collapseConnectedCorridors (env : Env) (roomIndex : nat)
    (g : Game) : option Game :=
  forEachM (collapseCorridorIfConnected env roomIndex)
    (seq 0 (List.length (corridors g))) g.

Definition room_collapse (r : Room) (t : Z) (rv : Vector3) : Room :=
  room_set_rotationVelocity
    (room_set_collapsePhase
       (room_set_collapseStartTime (room_set_isCollapsed r true) t)
       (Some shake))
    rv.

(** The loop body of [collapseRoomsBehindPlayer]. *)
Definition collapseRoomIfBehind (env : Env) (collapseThreshold : Z) (i : nat)
    (g : Game) : option Game :=
  match rooms g !! i with
  | None => Some g
  | Some room =>
      if room_isCollapsed room then Some g else
      let roomIndex := room_index room in
      if (Z.of_nat roomIndex <? collapseThreshold)%Z && (0 <? roomIndex)%nat then
        let '(t, g) := now env g in
        let '(rx, g) := random env g in
        let '(ry, g) := random env g in
        let '(rz, g) := random env g in
        let rv :=
          mkVector3 ((rx - 0.5) * 0.04) ((ry - 0.5) * 0.02) ((rz - 0.5) * 0.04) in
        let g := set_rooms g (<[i := room_collapse room t rv]> (rooms g)) in
        let g := set_collapsedRooms g (collapsedRooms g ++ [i]) in
        let g := createDebrisEffect env (room_position room) g in
        collapseConnectedCorridors env roomIndex g
      else Some g
  end.

Definition collapseRoomsBehindPlayer (env : Env) (g : Game) : option Game :=
  let playerZ := z (player_position (player g)) in
  let currentRoomIndex := Zfloor (playerZ / 25) in
  let collapseThreshold := (currentRoomIndex - 3)%Z in
  forEachM (collapseRoomIfBehind env collapseThreshold)
    (seq 0 (List.length (rooms g))) g.

(** *** updateCollapsingRooms, updateCollapsingCorridors *)

(** "Apply rotational velocity with acceleration" *)
Definition spinRoom (room : Room) (fallTime : R) : Vector3 :=
  multiplyScalar (room_rotationVelocity room) fallTime.

Definition updateCollapsingRoom (env : Env) (i : nat) (g : Game) : Game :=
  match rooms g !! i with
  | None => g
  | Some room =>
      let '(t, g) := now env g in
      let elapsed := (t - room_collapseStartTime room)%Z in
      set_rooms g (<[i := collapseStepRoom spinRoom elapsed room]> (rooms g))
  end.

Definition updateCollapsingRooms (env : Env) (g : Game) : Game :=
  forEach (updateCollapsingRoom env) (collapsedRooms g) g.

Definition corridor_set_y (c : Corridor) (a : R) : Corridor :=
  mkCorridor (setY (corridor_position c) a) (corridor_rotation c)
    (corridor_children c) (corridor_connectedRooms c) (corridor_isCollapsed c)
    (corridor_collapseStartTime c) (corridor_collapsePhase c)
    (corridor_rotationVelocity c) (corridor_fallStartY c)
    (corridor_basePosition c).

Definition corridor_start_fall (c : Corridor) : Corridor :=
  mkCorridor (corridor_position c) (corridor_rotation c)
    (corridor_children c) (corridor_connectedRooms c) (corridor_isCollapsed c)
    (corridor_collapseStartTime c) (Some fall)
    (corridor_rotationVelocity c) (y (corridor_position c))
    (corridor_basePosition c).

Definition corridor_set_rotation (c : Corridor) (v : Vector3) : Corridor :=
  mkCorridor (corridor_position c) v
    (corridor_children c) (corridor_connectedRooms c) (corridor_isCollapsed c)
    (corridor_collapseStartTime c) (corridor_collapsePhase c)
    (corridor_rotationVelocity c) (corridor_fallStartY c)
    (corridor_basePosition c).

(** The shake/fall animation of one collapsed corridor. *)
Definition collapseStepCorridor (elapsed : Z) (corridor : Corridor) : Corridor :=
  match corridor_collapsePhase corridor with
  | Some shake =>
      if (elapsed <? 500)%Z then
        let shakeY := sin (IZR elapsed * 0.08) * 0.2 in
        corridor_set_y corridor shakeY
      else corridor_start_fall corridor
  | Some fall =>
      let fallTime := IZR (elapsed - 500) / 1000 in
      let corridor :=
        corridor_set_y corridor
          (corridor_fallStartY corridor - fallTime * fallTime * 15) in
      corridor_set_rotation corridor
        (add (corridor_rotation corridor)
           (multiplyScalar (corridor_rotationVelocity corridor) fallTime))
  | None => corridor
  end.

Definition updateCollapsingCorridor (env : Env) (j : nat) (g : Game) : Game :=
  match corridors g !! j with
  | None => g
  | Some corridor =>
      let '(t, g) := now env g in
      let elapsed := (t - corridor_collapseStartTime corridor)%Z in
      set_corridors g (<[j := collapseStepCorridor elapsed corridor]> (corridors g))
  end.

Definition updateCollapsingCorridors (env : Env) (g : Game) : Game :=
  forEach (updateCollapsingCorridor env) (collapsedCorridors g) g.

(** *** animate *)

(** "Animate data cores", for the core at place [i]. *)
Definition animateCore (env : Env) (dt : R) (i : nat) (g : Game) : Game :=
  match dataCores g !! i with
  | None => g
  | Some core =>
      if negb (core_collected core) then
        let ry := core_rotation_y core + dt * 2 in
        let baseY :=
          match core_basePosition core with
          | Some b => y b
          | None => y (core_position core)
          end in
        let '(t, g) := now env g in
        let py := baseY + y (offset (mapDrift g)) + sin (IZR t * 0.003) * 0.1 in
        set_dataCores g
          (<[i := core_set_pose core (setY (core_position core) py) ry
                    (core_basePosition core)]> (dataCores g))
      else g
  end.

(** "Animate exit portal" *)
Definition animatePortal (env : Env) (dt : R) (g : Game) : Game :=
  match exitPortal g with
  | Some portal =>
      let ry := portal_rotation_y portal + dt in
      let '(t, g) := now env g in
      let rx := sin (IZR t * 0.001) * 0.2 in
      set_exitPortal g
        (Some (mkPortal (portal_position portal) rx ry
                 (portal_light_position portal) (portal_basePosition portal)))
  | None => g
  end.

(** One frame.  [None]: the frame threw. *)
Definition animate (env : Env) (f : Frame) (g : Game) : option Game :=
  let deltaTime := deltaTime f in
  if gameActive g then
    let g := updateMapMovement env deltaTime g in
    let g := updatePlayer env f g in
    let g := updateHUD env g in
    let g := forEach (animateCore env deltaTime)
               (seq 0 (List.length (dataCores g))) g in
    let g := animatePortal env deltaTime g in
    g ← collapseRoomsBehindPlayer env g;
    let g := updateCollapsingRooms env g in
    let g := updateCollapsingCorridors env g in
    Some (updateDebrisParticles env deltaTime g)
  else Some g.

End MainJs.

(** ** The grid variant: a random room collapses on a countdown *)

Module Part000.

(** A corridor group of this variant carries no collapse data at all. *)
Record Corridor := mkCorridor {
  corridor_position : Vector3;
  corridor_children : list Mesh
}.

Record Game := mkGame {
  player : Player;
  rooms : list Room;
  corridors : list Corridor;
  dataCores : list DataCore;
  exitPortal : option Portal;
  gameActive : bool;
  gameStartTime : Z;
  collapseInterval : Z;
  lastCollapseTime : Z;
  collapsedRooms : list nat;
  panel : Panel;
  clockReads : nat;
  randomDraws : nat
}.

Definition set_player (g : Game) (a : Player) : Game :=
  mkGame a (rooms g) (corridors g) (dataCores g) (exitPortal g) (gameActive g)
    (gameStartTime g) (collapseInterval g) (lastCollapseTime g)
    (collapsedRooms g) (panel g) (clockReads g) (randomDraws g).
Definition set_rooms (g : Game) (a : list Room) : Game :=
  mkGame (player g) a (corridors g) (dataCores g) (exitPortal g) (gameActive g)
    (gameStartTime g) (collapseInterval g) (lastCollapseTime g)
    (collapsedRooms g) (panel g) (clockReads g) (randomDraws g).
Definition set_dataCores (g : Game) (a : list DataCore) : Game :=
  mkGame (player g) (rooms g) (corridors g) a (exitPortal g) (gameActive g)
    (gameStartTime g) (collapseInterval g) (lastCollapseTime g)
    (collapsedRooms g) (panel g) (clockReads g) (randomDraws g).
Definition set_exitPortal (g : Game) (a : option Portal) : Game :=
  mkGame (player g) (rooms g) (corridors g) (dataCores g) a (gameActive g)
    (gameStartTime g) (collapseInterval g) (lastCollapseTime g)
    (collapsedRooms g) (panel g) (clockReads g) (randomDraws g).
Definition set_gameActive (g : Game) (a : bool) : Game :=
  mkGame (player g) (rooms g) (corridors g) (dataCores g) (exitPortal g) a
    (gameStartTime g) (collapseInterval g) (lastCollapseTime g)
    (collapsedRooms g) (panel g) (clockReads g) (randomDraws g).
Definition set_gameStartTime (g : Game) (a : Z) : Game :=
  mkGame (player g) (rooms g) (corridors g) (dataCores g) (exitPortal g)
    (gameActive g) a (collapseInterval g) (lastCollapseTime g)
    (collapsedRooms g) (panel g) (clockReads g) (randomDraws g).
Definition set_collapseInterval (g : Game) (a : Z) : Game :=
  mkGame (player g) (rooms g) (corridors g) (dataCores g) (exitPortal g)
    (gameActive g) (gameStartTime g) a (lastCollapseTime g)
    (collapsedRooms g) (panel g) (clockReads g) (randomDraws g).
Definition set_lastCollapseTime (g : Game) (a : Z) : Game :=
  mkGame (player g) (rooms g) (corridors g) (dataCores g) (exitPortal g)
    (gameActive g) (gameStartTime g) (collapseInterval g) a
    (collapsedRooms g) (panel g) (clockReads g) (randomDraws g).
Definition set_collapsedRooms (g : Game) (a : list nat) : Game :=
  mkGame (player g) (rooms g) (corridors g) (dataCores g) (exitPortal g)
    (gameActive g) (gameStartTime g) (collapseInterval g) (lastCollapseTime g)
    a (panel g) (clockReads g) (randomDraws g).
Definition set_panel (g : Game) (a : Panel) : Game :=
  mkGame (player g) (rooms g) (corridors g) (dataCores g) (exitPortal g)
    (gameActive g) (gameStartTime g) (collapseInterval g) (lastCollapseTime g)
    (collapsedRooms g) a (clockReads g) (randomDraws g).
Definition set_clockReads (g : Game) (a : nat) : Game :=
  mkGame (player g) (rooms g) (corridors g) (dataCores g) (exitPortal g)
    (gameActive g) (gameStartTime g) (collapseInterval g) (lastCollapseTime g)
    (collapsedRooms g) (panel g) a (randomDraws g).
Definition set_randomDraws (g : Game) (a : nat) : Game :=
  mkGame (player g) (rooms g) (corridors g) (dataCores g) (exitPortal g)
    (gameActive g) (gameStartTime g) (collapseInterval g) (lastCollapseTime g)
    (collapsedRooms g) (panel g) (clockReads g) a.

(** [Date.now()] *)
Definition now (env : Env) (g : Game) : Z * Game :=
  (Date_now env (clockReads g), set_clockReads g (S (clockReads g))).

(** [Math.random()] *)
Definition random (env : Env) (g : Game) : R * Game :=
  (Math_random env (randomDraws g), set_randomDraws g (S (randomDraws g))).

Fixpoint forEach (f : nat -> Game -> Game) (idxs : list nat) (g : Game) : Game :=
  match idxs with
  | [] => g
  | i :: rest => forEach f rest (f i g)
  end.

(** *** generateLevel, init, startGame *)

Definition roomSize : R := 15.
Definition spacing : R := 25.

(** The 3x4 grid. *)
Definition roomPositions : list (R * R) :=
  [ (0, 0); (1, 0); (2, 0);
    (0, 1); (1, 1); (2, 1);
    (0, 2); (1, 2); (2, 2);
    (0, 3); (1, 3); (2, 3) ].

Definition connections : list (nat * nat) :=
  [ (0, 1); (1, 2); (0, 3); (1, 4); (2, 5);
    (3, 4); (4, 5); (3, 6); (4, 7); (5, 8);
    (6, 7); (7, 8); (6, 9); (7, 10); (8, 11);
    (9, 10); (10, 11) ]%nat.

Definition gridWorld (pos : R * R) : Vector3 :=
  mkVector3 (fst pos * spacing - spacing) 0 (snd pos * spacing - spacing).

Definition levelRoom (i : nat) (pos : R * R) : Room :=
  room_set_index
    (createRoom (fst pos * spacing - spacing) 0 (snd pos * spacing - spacing)
       roomSize)
    i.

Definition levelCorridor (c : nat * nat) : Corridor :=
  let fromPos := nth (fst c) roomPositions (0, 0) in
  let toPos := nth (snd c) roomPositions (0, 0) in
  mkCorridor zero3 [corridorFloor (gridWorld fromPos) (gridWorld toPos)].

Definition levelCore (roomIdx : nat) : DataCore :=
  let pos := nth roomIdx roomPositions (0, 0) in
  createDataCore (fst pos * spacing - spacing) 3 (snd pos * spacing - spacing).

Definition init : Game :=
  let exitPos := nth 11 roomPositions (0, 0) in
  mkGame initialPlayer
    (imap levelRoom roomPositions)
    (map levelCorridor connections)
    (map levelCore [2; 4; 6; 9]%nat)
    (Some (createExitPortal (fst exitPos * spacing - spacing) 3
             (snd exitPos * spacing - spacing)))
    false 0 5000 0 [] initialPanel 0 0.

Definition startGame (env : Env) (g : Game) : Game :=
  let g := set_gameActive g true in
  let '(t, g) := now env g in
  let g := set_gameStartTime g t in
  set_lastCollapseTime g (gameStartTime g).

Definition onClick (env : Env) (g : Game) : Game :=
  if negb (gameActive g) then startGame env g else g.

Definition endGame (won : bool) (message : string) (g : Game) : Game :=
  set_panel (set_gameActive g false) (endGamePanel won message).

Definition updateHUD (env : Env) (g : Game) : Game :=
  if gameActive g then snd (now env g) else g.

(** *** findNearestSurface *)

(** Corridors are scanned without any collapse check. *)
Fixpoint scanCorridors (pos : Vector3) (i : nat) (cs : list Corridor)
    (n : Nearest) : Nearest :=
  match cs with
  | [] => n
  | corridor :: rest =>
      scanCorridors pos (S i) rest
        (scanChildren pos (corridor_position corridor) (InCorridor i) 0
           (corridor_children corridor) n)
  end.

Definition searchNearest (rs : list Room) (cs : list Corridor)
    (pos : Vector3) : Nearest :=
  scanCorridors pos 0 cs (scanRooms pos 0 rs noNearest).

Definition findNearestSurface (rs : list Room) (cs : list Corridor)
    (p : Player) : Player :=
  snapTo (searchNearest rs cs (player_position p)) p.

(** *** checkCollisions, collectCore *)

Definition collectCore (env : Env) (i : nat) (g : Game) : Game :=
  let g := set_dataCores g (alter collected i (dataCores g)) in
  let g := set_player g (rewardPlayer (player g)) in
  let g := set_collapseInterval g (Z.max 2000 (collapseInterval g - 1000)) in
  updateHUD env g.

Definition checkCore (env : Env) (i : nat) (g : Game) : Game :=
  match dataCores g !! i with
  | None => g
  | Some core =>
      if core_collected core then g else
      let distance := distanceTo (player_position (player g)) (core_position core) in
      if ltb distance 2 then collectCore env i g else g
  end.

Definition checkCollisions (env : Env) (g : Game) : Game :=
  let g := forEach (checkCore env) (seq 0 (List.length (dataCores g))) g in
  match exitPortal g with
  | Some portal =>
      let distance :=
        distanceTo (player_position (player g)) (portal_position portal) in
      if ltb distance 3 then
        if (2 <=? coresCollected (player g))%nat
        then endGame true "You escaped the collapsing vault!" g
        else g
      else g
  | None => g
  end.

(** *** updatePlayer *)

(** "Strafe": the only keys that steer in this variant. *)
Definition steer (k : Keys) (right : Vector3) (p : Player) : Player :=
  let p :=
    if k "KeyA"%string || k "ArrowLeft"%string
    then pullXZ right 0.7 p else p in
  if k "KeyD"%string || k "ArrowRight"%string
  then pushXZ right 0.7 p else p.

(** "Jump": Space, W and ArrowUp all jump. *)
Definition jump (k : Keys) (p : Player) : Player :=
  if (k "Space"%string || k "KeyW"%string || k "ArrowUp"%string)
     && negb (isJumping p) && truthy (currentSurface p)
  then set_isJumping (set_velocity p (setY (velocity p) (jumpStrength p))) true
  else p.

Definition locomotion (f : Frame) (p : Player) : Player :=
  let forward := flatten (lookForward f) in
  let right := flatten (lookRight f) in
  let p := constantForward forward p in
  steer (keys f) right p.

Definition advancePlayer (f : Frame) (p : Player) : Player :=
  let p := locomotion f p in
  let p := jump (keys f) p in
  let p := applyGravity (deltaTime f) p in
  movePlayer (deltaTime f) p.

(** [updatePlayer] from "Apply mouse look" to [checkCollisions()]. *)
Definition moveAndCollide (env : Env) (f : Frame) (g : Game) : Game :=
  let p := advancePlayer f (player g) in
  let g := set_player g (findNearestSurface (rooms g) (corridors g) p) in
  checkCollisions env g.

(** "Check if player fell into void" *)
Definition voidCheck (g : Game) : Game :=
  if ltb (y (player_position (player g))) (-50)
  then endGame false "You fell into the void!" g
  else g.

Definition updatePlayer (env : Env) (f : Frame) (g : Game) : Game :=
  if negb (gameActive g) then g else
  voidCheck (moveAndCollide env f g).

(** *** collapseRandomRoom, updateCollapsingRooms *)

(** [rooms.filter(room => !room.userData.isCollapsed &&
    room.userData.index !== 0)], as places in [rooms]. *)
Definition isAvailable (room : Room) : bool :=
  negb (room_isCollapsed room) && negb (room_index room =? 0)%nat.

Fixpoint availableFrom (i : nat) (rs : list Room) : list nat :=
  match rs with
  | [] => []
  | room :: rest =>
      if isAvailable room then i :: availableFrom (S i) rest
      else availableFrom (S i) rest
  end.

Definition room_collapse (r : Room) (t : Z) : Room :=
  room_set_collapsePhase
    (room_set_collapseStartTime (room_set_isCollapsed r true) t)
    (Some shake).

(** [a[k]] for a number [k]. *)
Definition at_ {A : Type} (a : list A) (k : Z) : option A :=
  if (k <? 0)%Z then None else a !! Z.to_nat k.

(** [None]: the picked entry does not exist and [room.userData] throws. *)
Definition collapseRandomRoom (env : Env) (g : Game) : option Game :=
  let availableRooms := availableFrom 0 (rooms g) in
  if (List.length availableRooms =? 0)%nat then Some g else
  let '(r, g) := random env g in
  i ← at_ availableRooms (Zfloor (r * INR (List.length availableRooms)));
  room ← rooms g !! i;
  let '(t, g) := now env g in
  let g := set_rooms g (<[i := room_collapse room t]> (rooms g)) in
  Some (set_collapsedRooms g (collapsedRooms g ++ [i])).

(** "Fall and rotate" *)
Definition spinRoom (room : Room) (fallTime : R) : Vector3 :=
  mkVector3 0.02 0 0.015.

Definition updateCollapsingRoom (env : Env) (i : nat) (g : Game) : Game :=
  match rooms g !! i with
  | None => g
  | Some room =>
      let '(t, g) := now env g in
      let elapsed := (t - room_collapseStartTime room)%Z in
      set_rooms g (<[i := collapseStepRoom spinRoom elapsed room]> (rooms g))
  end.

Definition updateCollapsingRooms (env : Env) (g : Game) : Game :=
  forEach (updateCollapsingRoom env) (collapsedRooms g) g.

(** *** animate *)

Definition animateCore (env : Env) (dt : R) (i : nat) (g : Game) : Game :=
  match dataCores g !! i with
  | None => g
  | Some core =>
      if negb (core_collected core) then
        let ry := core_rotation_y core + dt * 2 in
        let '(t, g) := now env g in
        let py := y (core_position core) + sin (IZR t * 0.003) * 0.01 in
        set_dataCores g
          (<[i := mkCore (setY (core_position core) py) ry (core_collected core)
                    (core_visible core) (core_light_intensity core)
                    (core_light_position core) (core_basePosition core)]>
             (dataCores g))
      else g
  end.

Definition animatePortal (env : Env) (dt : R) (g : Game) : Game :=
  match exitPortal g with
  | Some portal =>
      let ry := portal_rotation_y portal + dt in
      let '(t, g) := now env g in
      let rx := sin (IZR t * 0.001) * 0.2 in
      set_exitPortal g
        (Some (mkPortal (portal_position portal) rx ry
                 (portal_light_position portal) (portal_basePosition portal)))
  | None => g
  end.

(** "Check if it's time to collapse a room" *)
Definition collapseOnCountdown (env : Env) (g : Game) : option Game :=
  let '(t, g) := now env g in
  if (t - lastCollapseTime g >? collapseInterval g)%Z then
    g ← collapseRandomRoom env g;
    let '(t', g) := now env g in
    Some (set_lastCollapseTime g t')
  else Some g.

Definition animate (env : Env) (f : Frame) (g : Game) : option Game :=
  let deltaTime := deltaTime f in
  if gameActive g then
    let g := updatePlayer env f g in
    let g := updateHUD env g in
    let g := forEach (animateCore env deltaTime)
               (seq 0 (List.length (dataCores g))) g in
    let g := animatePortal env deltaTime g in
    g ← collapseOnCountdown env g;
    Some (updateCollapsingRooms env g)
  else Some g.

End Part000.

(** ** Vocabulary of the specification *)

(** The locomotion rule in the words of the specification: the horizontal
    velocity is set to forward * speed; a forward key adds half of it, a
    backward key takes half of it away, strafing adds or takes away 0.7 of
    right * speed.  The result is the pair of the x and z components. *)
Definition horizontalSpec (fwd back left right_ : bool)
    (forward right : Vector3) (sp : R) : R * R :=
  let term (b : bool) (a : R) := if b then a else 0 in
  (x forward * sp
     + term fwd (x forward * sp * 0.5) - term back (x forward * sp * 0.5)
     - term left (x right * sp * 0.7) + term right_ (x right * sp * 0.7),
   z forward * sp
     + term fwd (z forward * sp * 0.5) - term back (z forward * sp * 0.5)
     - term left (z right * sp * 0.7) + term right_ (z right * sp * 0.7)).

Definition forwardHeld (k : Keys) : bool := k "KeyW"%string || k "ArrowUp"%string.
Definition backHeld (k : Keys) : bool := k "KeyS"%string || k "ArrowDown"%string.
Definition leftHeld (k : Keys) : bool := k "KeyA"%string || k "ArrowLeft"%string.
Definition rightHeld (k : Keys) : bool := k "KeyD"%string || k "ArrowRight"%string.

(** The gravity rule of one tick.  [p0] is the player when the tick
    starts, [q] the player when "Apply gravity" runs (steering and the jump
    of this tick are done), [pm] the player after "Move player", [p1] the
    player when [updatePlayer] returns. *)
Definition GravityRule (dt : R) (p0 q pm p1 : Player) : Prop :=
  velocity p1 = velocity pm /\
  (currentSurface p0 = None \/ isJumping q = true ->
     velocity pm = add (velocity q) (multiplyScalar (gravity p0) dt)) /\
  (currentSurface p0 = None \/ isJumping p0 = true ->
     y (velocity p1) = y (velocity p0) + y (gravity p0) * dt) /\
  (currentSurface p0 <> None /\ isJumping q = false ->
     y (velocity p1) = 0 /\
     player_position pm =
       add (player_position p0) (multiplyScalar (setY (velocity q) 0) dt)).

(** The message of the void check. *)
Definition voidMessage : string := "You fell into the void!".

(** *** Sample inputs *)

Definition env0 : Env := mkEnv (fun _ => 0%Z) (fun _ => 0).

Definition noKeys : Keys := fun _ => false.

Definition onlyKey (code : string) : Keys := fun c => String.eqb c code.

(** Looking straight ahead along -z. *)
Definition frame0 : Frame :=
  mkFrame 0.5 noKeys (mkVector3 0 0 (-1)) (mkVector3 1 0 0).

Definition frameW : Frame :=
  mkFrame 0.5 (onlyKey "KeyW") (mkVector3 0 0 (-1)) (mkVector3 1 0 0).

(** Both variants right after the first click. *)
Definition mainStarted : MainJs.Game := MainJs.onClick env0 MainJs.init.
Definition gridStarted : Part000.Game := Part000.onClick env0 Part000.init.

(** A started game of [main.js] with no level around the player, who is
    already far below the rooms. *)
Definition voidState : MainJs.Game :=
  MainJs.mkGame
    (mkPlayer (mkVector3 0 (-60) 0) zero3 3 8 false 0 None (mkVector3 0 (-20) 0))
    [] [] [] None true 0 0 [] [] [] (MainJs.mkMapDrift zero3 zero3 0)
    initialPanel 1 0.

(** [clamp(v, lo, hi)] *)
Definition clamp (v lo hi : R) : R := Rmax lo (Rmin v hi).

(** Seconds of session time at clock reading [t]. *)
Definition elapsedSessionSeconds (start t : Z) : R := IZR (t - start) / 1000.

(** A particle is expired at clock reading [t] when its age exceeds its
    lifetime. *)
Definition expired (t : Z) (p : MainJs.Particle) : bool :=
  (t - MainJs.particle_spawnTime p >? MainJs.particle_lifetime p)%Z.

(** What one tick at clock reading [t] makes of a live particle. *)
Definition agedParticle (dt : R) (t : Z) (p : MainJs.Particle) : MainJs.Particle :=
  MainJs.stepParticle dt (t - MainJs.particle_spawnTime p) p.



(** A particle spawned at time 0 at the origin, at rest. *)
Definition freshParticle : MainJs.Particle :=
  MainJs.mkParticle zero3 zero3 0.2 zero3 zero3 3000 0 1 false.

(** *** The nearest-surface search *)

(** What a surface reference points to in the level of [main.js]: whether
    the owning group is collapsed, and the child mesh with its parent's
    position. *)
Definition MainJs_resolve (rs : list Room) (cs : list MainJs.Corridor)
    (ref : SurfaceRef) : option (bool * Child) :=
  match ref_owner ref with
  | InRoom i =>
      room ← rs !! i;
      m ← room_children room !! ref_child ref;
      Some (room_isCollapsed room, mkChild ref (room_position room) m)
  | InCorridor i =>
      corridor ← cs !! i;
      m ← MainJs.corridor_children corridor !! ref_child ref;
      Some (MainJs.corridor_isCollapsed corridor,
            mkChild ref (MainJs.corridor_position corridor) m)
  end.

(** The same in the grid variant, whose corridors cannot be collapsed. *)
Definition Part000_resolve (rs : list Room) (cs : list Part000.Corridor)
    (ref : SurfaceRef) : option (bool * Child) :=
  match ref_owner ref with
  | InRoom i =>
      room ← rs !! i;
      m ← room_children room !! ref_child ref;
      Some (room_isCollapsed room, mkChild ref (room_position room) m)
  | InCorridor i =>
      corridor ← cs !! i;
      m ← Part000.corridor_children corridor !! ref_child ref;
      Some (false, mkChild ref (Part000.corridor_position corridor) m)
  end.

(** A child mesh qualifies for the search from [pos]: it is a child of a
    group of the level that is not collapsed, it is a surface, and it is
    less than 10 units away. *)
Definition Qualifies (resolve : SurfaceRef -> option (bool * Child))
    (pos : Vector3) (c : Child) : Prop :=
  resolve (child_ref c) = Some (false, c) /\
  mesh_isSurface (child_mesh c) = true /\
  distanceTo pos (getWorldPosition c) < 10.

(** The result [n] of a search is a nearest qualifying surface, with its
    distance, or nothing when no surface qualifies. *)
Definition NearestQualifying (resolve : SurfaceRef -> option (bool * Child))
    (pos : Vector3) (n : Nearest) : Prop :=
  match nearestSurface n with
  | Some c =>
      Qualifies resolve pos c /\
      nearestDistance n = Some (distanceTo pos (getWorldPosition c)) /\
      forall c', Qualifies resolve pos c' ->
        distanceTo pos (getWorldPosition c) <= distanceTo pos (getWorldPosition c')
  | None =>
      nearestDistance n = None /\ forall c', ~ Qualifies resolve pos c'
  end.

(** The children that the scans visit, in order. *)
Fixpoint childrenFrom (parent : Vector3) (o : Owner) (j : nat)
    (ms : list Mesh) : list Child :=
  match ms with
  | [] => []
  | m :: rest => mkChild (mkRef o j) parent m :: childrenFrom parent o (S j) rest
  end.

Fixpoint visitedRooms (i : nat) (rs : list Room) : list Child :=
  match rs with
  | [] => []
  | room :: rest =>
      (if room_isCollapsed room then []
       else childrenFrom (room_position room) (InRoom i) 0 (room_children room))
      ++ visitedRooms (S i) rest
  end.

Fixpoint MainJs_visitedCorridors (i : nat) (cs : list MainJs.Corridor) : list Child :=
  match cs with
  | [] => []
  | c :: rest =>
      (if MainJs.corridor_isCollapsed c then []
       else childrenFrom (MainJs.corridor_position c) (InCorridor i) 0
              (MainJs.corridor_children c))
      ++ MainJs_visitedCorridors (S i) rest
  end.

Fixpoint Part000_visitedCorridors (i : nat) (cs : list Part000.Corridor) : list Child :=
  match cs with
  | [] => []
  | c :: rest =>
      childrenFrom (Part000.corridor_position c) (InCorridor i) 0
        (Part000.corridor_children c)
      ++ Part000_visitedCorridors (S i) rest
  end.

(** The running minimum [n] is right for the children [seen] so far. *)
Definition MinOf (pos : Vector3) (seen : list Child) (n : Nearest) : Prop :=
  match nearestSurface n with
  | Some c =>
      In c seen /\ mesh_isSurface (child_mesh c) = true /\
      distanceTo pos (getWorldPosition c) < 10 /\
      nearestDistance n = Some (distanceTo pos (getWorldPosition c)) /\
      forall c', In c' seen -> mesh_isSurface (child_mesh c') = true ->
        distanceTo pos (getWorldPosition c') < 10 ->
        distanceTo pos (getWorldPosition c) <= distanceTo pos (getWorldPosition c')
  | None =>
      nearestDistance n = None /\
      forall c', In c' seen -> mesh_isSurface (child_mesh c') = true ->
        ~ distanceTo pos (getWorldPosition c') < 10
  end.

(** [-v] *)
Definition negate (v : Vector3) : Vector3 := mkVector3 (- x v) (- y v) (- z v).

(** The player is as it was, but for [currentSurface]. *)
Definition NotSnapped (p p' : Player) : Prop :=
  player_position p' = player_position p /\
  gravity p' = gravity p /\
  isJumping p' = isJumping p.

(** The snap rule: with the search result [n], the resolver takes the
    player [p] to [p'].  Below the 3-unit threshold the position and the
    gravity are rewritten from the surface, and a jump that is already
    going down (vertical velocity strictly negative) ends; otherwise
    nothing but [currentSurface] changes. *)
Definition SnapRule (n : Nearest) (p p' : Player) : Prop :=
  velocity p' = velocity p /\
  match nearestSurface n, nearestDistance n with
  | Some c, Some d =>
      (d < 3 ->
         player_position p' =
           add (getWorldPosition c) (multiplyScalar (mesh_normal (child_mesh c)) 1) /\
         gravity p' = multiplyScalar (negate (mesh_normal (child_mesh c))) 20 /\
         (isJumping p = true -> y (velocity p) < 0 -> isJumping p' = false) /\
         (isJumping p = true -> 0 <= y (velocity p) -> isJumping p' = true) /\
         (isJumping p = false -> isJumping p' = false)) /\
      (3 <= d -> NotSnapped p p')
  | _, _ => NotSnapped p p'
  end.

(** A level of one room at the origin, and players standing at the centre
    of its floor: one at rest, one at the top of a jump. *)
Definition oneRoom : list Room := [createRoom 0 0 0 15].

Definition floorChild : Child :=
  mkChild (mkRef (InRoom 0) 0) zero3 (mkMesh zero3 true (mkVector3 0 1 0)).

Definition standingPlayer : Player :=
  mkPlayer zero3 zero3 3 8 false 0 None (mkVector3 0 (-20) 0).

Definition apexPlayer : Player :=
  mkPlayer zero3 zero3 3 8 true 0 None (mkVector3 0 (-20) 0).

(** The player standing on that floor, and a slow frame (0.4 s) in which
    Space is held: the jump of this frame is at its top when the frame
    ends. *)
Definition groundedPlayer : Player :=
  mkPlayer zero3 zero3 3 8 false 0 (Some (mkRef (InRoom 0) 0))
    (mkVector3 0 (-20) 0).

Definition jumpFrame : Frame :=
  mkFrame 0.4 (onlyKey "Space") (mkVector3 0 0 (-1)) (mkVector3 1 0 0).

(** The same player coming down from a jump. *)
Definition fallingPlayer : Player :=
  mkPlayer zero3 (mkVector3 0 (-1) 0) 3 8 true 0 None (mkVector3 0 (-20) 0).

(** *** Collapse states and sessions *)

Inductive CollapseState := Intact | Shaking | Falling.

Definition stateOfPhase (ph : option Phase) : CollapseState :=
  match ph with
  | None => Intact
  | Some shake => Shaking
  | Some fall => Falling
  end.

Definition roomState (r : Room) : CollapseState :=
  stateOfPhase (room_collapsePhase r).


(** The states a session of [main.js] can be in: the page is loaded, the
    user clicks, frames are drawn. *)
Inductive MainJs_reachable (env : Env) : MainJs.Game -> Prop :=
  | MainJs_reach_init : MainJs_reachable env MainJs.init
  | MainJs_reach_click g :
      MainJs_reachable env g -> MainJs_reachable env (MainJs.onClick env g)
  | MainJs_reach_frame f g g' :
      MainJs_reachable env g -> MainJs.animate env f g = Some g' ->
      MainJs_reachable env g'.

(** The same for the grid variant. *)
Inductive Part000_reachable (env : Env) : Part000.Game -> Prop :=
  | Part000_reach_init : Part000_reachable env Part000.init
  | Part000_reach_click g :
      Part000_reachable env g -> Part000_reachable env (Part000.onClick env g)
  | Part000_reach_frame f g g' :
      Part000_reachable env g -> Part000.animate env f g = Some g' ->
      Part000_reachable env g'.

(** What the collapse logic reads of a room: index, collapsed flag, and
    whether a phase is set; and of a corridor: the connected rooms, the
    flag, and whether a phase is set. *)
Definition roomFlags (r : Room) : nat * bool * bool :=
  (room_index r, room_isCollapsed r, truthy (room_collapsePhase r)).

Definition corridorFlags (c : MainJs.Corridor) : nat * nat * bool * bool :=
  (MainJs.corridor_connectedRooms c, MainJs.corridor_isCollapsed c,
   truthy (MainJs.corridor_collapsePhase c)).

(** The invariant of the collapse logic, on the flags. *)
Record FlagsInv (rf : list (nat * bool * bool))
    (cf : list (nat * nat * bool * bool)) : Prop := mkFlagsInv {
  (* a phase is set exactly on the collapsed rooms and corridors *)
  inv_room_phase : forall k i b ph, rf !! k = Some (i, b, ph) -> ph = b;
  inv_corridor_phase : forall j cr b ph, cf !! j = Some (cr, b, ph) -> ph = b;
  (* corridors connect rooms that exist *)
  inv_connected : forall j cr b ph, cf !! j = Some (cr, b, ph) ->
    (fst cr < List.length rf)%nat /\ (snd cr < List.length rf)%nat;
  (* a collapsed corridor has a collapsed room at one end *)
  inv_corridor : forall j cr ph, cf !! j = Some (cr, true, ph) ->
    exists i1 ph1 i2 ph2 b1 b2,
      rf !! fst cr = Some (i1, b1, ph1) /\ rf !! snd cr = Some (i2, b2, ph2) /\
      (b1 = true \/ b2 = true);
  (* rooms with index 0 stand, and the first room is one of them *)
  inv_start : forall k b ph, rf !! k = Some (0%nat, b, ph) -> b = false;
  inv_first : rf !! 0%nat = Some (0%nat, false, false)
}.

Definition MainJs_Inv (g : MainJs.Game) : Prop :=
  FlagsInv (map roomFlags (MainJs.rooms g))
    (map corridorFlags (MainJs.corridors g)).

(** The invariant of the grid variant, on its rooms. *)
Record RoomsInv (rs : list Room) : Prop := mkRoomsInv {
  grid_room_phase : forall k r, rs !! k = Some r ->
    truthy (room_collapsePhase r) = room_isCollapsed r;
  grid_start : forall k r, rs !! k = Some r ->
    room_index r = 0%nat -> room_isCollapsed r = false;
  grid_first : exists r, rs !! 0%nat = Some r /\ room_index r = 0%nat
}.

Definition Part000_Inv (g : Part000.Game) : Prop := RoomsInv (Part000.rooms g).

(** The start room, the first of [rooms], has index 0, and every room
    with index 0 is intact. *)
Definition StartRoomIntact (rs : list Room) : Prop :=
  (exists r, rs !! 0%nat = Some r /\ room_index r = 0%nat) /\
  forall k r, rs !! k = Some r -> room_index r = 0%nat ->
    room_isCollapsed r = false /\ roomState r = Intact.

(** The clock never runs backwards. *)
Definition MonotonicClock (env : Env) : Prop :=
  forall a b, (a <= b)%nat -> (Date_now env a <= Date_now env b)%Z.

(** [g'] comes after [g] in the same session: the start time is the same,
    no clock reading was given back, and the session was not re-activated. *)
Definition MainJs_Later (g g' : MainJs.Game) : Prop :=
  MainJs.gameStartTime g' = MainJs.gameStartTime g /\
  (MainJs.clockReads g <= MainJs.clockReads g')%nat /\
  (MainJs.gameActive g' = true -> MainJs.gameActive g = true).

(** The start time of an active session is an earlier clock reading. *)
Definition MainJs_Started (env : Env) (g : MainJs.Game) : Prop :=
  MainJs.gameActive g = true ->
  exists k, (k < MainJs.clockReads g)%nat /\
            MainJs.gameStartTime g = Date_now env k.

(** The flags of a whole level. *)
Definition MainJs_flags (g : MainJs.Game)
    : list (nat * bool * bool) * list (nat * nat * bool * bool) :=
  (map roomFlags (MainJs.rooms g), map corridorFlags (MainJs.corridors g)).




(** [Math.random()] returns numbers in [0, 1). *)
Definition RandomInRange (env : Env) : Prop :=
  forall k, 0 <= Math_random env k < 1.

(** The part of the state the collapse invariant is about. *)
Definition MainJs_level (g : MainJs.Game) : list Room * list MainJs.Corridor :=
  (MainJs.rooms g, MainJs.corridors g).

(** ** Further vocabulary *)


(** A core is picked up from [pos]: it is not collected yet and less than
    2 units away. *)
Definition inReach (pos : Vector3) (c : DataCore) : bool :=
  negb (core_collected c) && ltb (distanceTo pos (core_position c)) 2.

Definition pickUp (pos : Vector3) (c : DataCore) : DataCore :=
  if inReach pos c then collected c else c.

(** The number of cores picked up from [pos]. *)
Definition picked (pos : Vector3) (cs : list DataCore) : nat :=
  List.length (List.filter (inReach pos) cs).

(** The number of collected cores. *)
Definition collectedCount (cs : list DataCore) : nat :=
  List.length (List.filter core_collected cs).

(** The state [g] with new cores, player and count of clock reads. *)
Definition MainJs_withCores (g : MainJs.Game) (cs : list DataCore)
    (p : Player) (k : nat) : MainJs.Game :=
  MainJs.set_clockReads (MainJs.set_player (MainJs.set_dataCores g cs) p) k.

Definition Part000_withCores (g : Part000.Game) (cs : list DataCore)
    (p : Player) (iv : Z) (k : nat) : Part000.Game :=
  Part000.set_clockReads
    (Part000.set_collapseInterval
       (Part000.set_player (Part000.set_dataCores g cs) p) iv) k.

(** [collapseInterval = Math.max(2000, collapseInterval - 1000)] *)
Definition fasterCollapse (iv : Z) : Z := Z.max 2000 (iv - 1000).

(** The panel of a won game of [main.js] and of the grid variant. *)
Definition MainJs_winPanel : Panel :=
  mkPanel "YOU ESCAPED!" true "You escaped! The vault collapsed behind you!" false.

Definition Part000_winPanel : Panel :=
  mkPanel "YOU ESCAPED!" true "You escaped the collapsing vault!" false.

(** A core one unit above a player at the camera height. *)
Definition nearCore : DataCore := createDataCore 0 3 0.
Definition cameraPos : Vector3 := mkVector3 0 2 0.

(** A started game of either variant in an empty level, the player at the
    portal with no core collected. *)
Definition MainJs_atPortal : MainJs.Game :=
  MainJs.mkGame (mkPlayer cameraPos zero3 3 8 false 0 None (mkVector3 0 (-20) 0))
    [] [] [] (Some (createExitPortal 0 2 0)) true 0 0 [] [] []
    (MainJs.mkMapDrift zero3 zero3 0) initialPanel 1 0.

Definition Part000_atPortal : Part000.Game :=
  Part000.mkGame (mkPlayer cameraPos zero3 3 8 false 0 None (mkVector3 0 (-20) 0))
    [] [] [] (Some (createExitPortal 0 2 0)) true 0 5000 0 [] initialPanel 1 0.

(** The level side of the state of [main.js]: rooms, corridors, the lists
    of collapsing ones, and the debris. *)
Definition MainJs_structures (g : MainJs.Game)
    : list Room * list MainJs.Corridor * list nat * list nat
      * list MainJs.Particle :=
  (MainJs.rooms g, MainJs.corridors g, MainJs.collapsedRooms g,
   MainJs.collapsedCorridors g, MainJs.debrisParticles g).

(** The player side: player, cores, portal, drift, and the session. *)
Definition MainJs_actors (g : MainJs.Game)
    : Player * list DataCore * option Portal * MainJs.MapDrift
      * (bool * Z * Z * Panel) :=
  (MainJs.player g, MainJs.dataCores g, MainJs.exitPortal g, MainJs.mapDrift g,
   (MainJs.gameActive g, MainJs.gameStartTime g, MainJs.lastCollapseTime g,
    MainJs.panel g)).

(** The same split for the grid variant. *)
Definition Part000_structures (g : Part000.Game)
    : list Room * list Part000.Corridor * list nat :=
  (Part000.rooms g, Part000.corridors g, Part000.collapsedRooms g).

Definition Part000_actors (g : Part000.Game)
    : Player * list DataCore * option Portal * Z * (bool * Z * Panel) :=
  (Part000.player g, Part000.dataCores g, Part000.exitPortal g,
   Part000.collapseInterval g,
   (Part000.gameActive g, Part000.gameStartTime g, Part000.panel g)).

(** The threshold of [collapseRoomsBehindPlayer] for the player of [g]. *)
Definition collapseThresholdOf (g : MainJs.Game) : Z :=
  (Zfloor (z (player_position (MainJs.player g)) / 25) - 3)%Z.

(** [roomIndex < collapseThreshold && roomIndex > 0] *)
Definition behind (threshold : Z) (r : Room) : bool :=
  (Z.of_nat (room_index r) <? threshold)%Z && (0 <? room_index r)%nat.

(** What [collapseRoomsBehindPlayer] makes of a room [r]: a standing room
    behind the threshold starts to shake where it is, any other room is
    left as it is. *)
Definition RoomStep (threshold : Z) (r r' : Room) : Prop :=
  room_index r' = room_index r /\
  room_position r' = room_position r /\
  room_isCollapsed r' = room_isCollapsed r || behind threshold r /\
  (room_isCollapsed r = true \/ behind threshold r = false -> r' = r) /\
  (room_isCollapsed r = false -> behind threshold r = true ->
     room_collapsePhase r' = Some shake).

(** The rooms [collapseRandomRoom] chooses from. *)
Definition availableRooms (g : Part000.Game) : list nat :=
  Part000.availableFrom 0 (Part000.rooms g).



(** A particle as [createDebrisEffect] throws it out around [position]:
    a cube of edge 0.2 to 0.7, up to 5 units to each side and up to 5 units
    above, thrown sideways at up to 2.5 and vertically between -1 and 2,
    opaque, with 3000 ms to live. *)
Definition DebrisAround (position : Vector3) (p : MainJs.Particle) : Prop :=
  0.2 <= MainJs.particle_size p < 0.7 /\
  (x position - 5 <= x (MainJs.particle_position p) < x position + 5 /\
   y position <= y (MainJs.particle_position p) < y position + 5 /\
   z position - 5 <= z (MainJs.particle_position p) < z position + 5) /\
  (-2.5 <= x (MainJs.particle_velocity p) < 2.5 /\
   -1 <= y (MainJs.particle_velocity p) < 2 /\
   -2.5 <= z (MainJs.particle_velocity p) < 2.5) /\
  MainJs.particle_rotation p = zero3 /\
  MainJs.particle_lifetime p = 3000%Z /\
  MainJs.particle_opacity p = 1.

(** What the game keeps of a player across frames besides the motion. *)
Definition playerStats (p : Player) : nat * R * R :=
  (coresCollected p, speed p, jumpStrength p).

(** What a pick-up changes of a core. *)
Definition coreFlags (c : DataCore) : bool * bool * R :=
  (core_collected c, core_visible c, core_light_intensity c).

(** A core is shown and lit exactly while it is not collected. *)
Definition CoreCoherent (c : DataCore) : Prop :=
  core_visible c = negb (core_collected c) /\
  core_light_intensity c = if core_collected c then 0 else 1.

(** The bookkeeping of a level with [n] cores: the counter of the player
    is the number of collected cores, the speed is 3 plus 1.5 for each of
    them, and the jump strength is 8. *)
Definition StatsInv (n : nat) (p : Player) (cs : list DataCore) : Prop :=
  List.length cs = n /\
  coresCollected p = collectedCount cs /\
  speed p = 3 + 1.5 * INR (coresCollected p) /\
  jumpStrength p = 8 /\
  Forall CoreCoherent cs.

(** The collapse interval of the grid variant after [k] pick-ups. *)
Definition intervalAfter (k : nat) : Z :=
  Z.max 2000 (5000 - 1000 * Z.of_nat k).

(** The bookkeeping of [main.js], a level with three cores, and of the grid
    variant, a level with four cores and the collapse interval. *)
Definition MainJs_StatsInv (g : MainJs.Game) : Prop :=
  StatsInv 3 (MainJs.player g) (MainJs.dataCores g).

Definition Part000_StatsInv (g : Part000.Game) : Prop :=
  StatsInv 4 (Part000.player g) (Part000.dataCores g) /\
  Part000.collapseInterval g = intervalAfter (coresCollected (Part000.player g)).

(** What [collapseConnectedCorridors(roomIndex)] makes of a corridor [c],
    the rooms being [rs]: a collapsed corridor is left as it is, one that is
    not attached to the room stays standing, and one that is attached to it
    and has a collapsed room at either end collapses. *)
Definition CorridorStep (rs : list Room) (roomIndex : nat)
    (c c' : MainJs.Corridor) : Prop :=
  let cr := MainJs.corridor_connectedRooms c in
  MainJs.corridor_connectedRooms c' = cr /\
  (MainJs.corridor_isCollapsed c = true -> c' = c) /\
  (MainJs.corridor_isCollapsed c' = true ->
     MainJs.corridor_isCollapsed c = true \/ MainJs.includes cr roomIndex = true) /\
  (MainJs.includes cr roomIndex = false -> c' = c) /\
  (MainJs.includes cr roomIndex = true ->
     forall r1 r2, rs !! fst cr = Some r1 -> rs !! snd cr = Some r2 ->
       MainJs.corridor_isCollapsed c' =
         MainJs.corridor_isCollapsed c || room_isCollapsed r1 || room_isCollapsed r2).

(** The shape of the level of [main.js]: room [k] of the array has index
    [k], corridor [j] joins the rooms [j] and [j + 1], and it is collapsed
    exactly when one of these two rooms is. *)
Definition MainJs_Shape (g : MainJs.Game) : Prop :=
  (forall k r, MainJs.rooms g !! k = Some r -> room_index r = k) /\
  (forall j c, MainJs.corridors g !! j = Some c ->
     MainJs.corridor_connectedRooms c = (j, S j) /\
     exists r1 r2,
       MainJs.rooms g !! j = Some r1 /\ MainJs.rooms g !! S j = Some r2 /\
       MainJs.corridor_isCollapsed c = room_isCollapsed r1 || room_isCollapsed r2).

(** The collapsed rooms are the rooms 1, ..., m - 1 for some [m]. *)
Definition MainJs_CollapsedUpTo (m : nat) (g : MainJs.Game) : Prop :=
  forall k r, MainJs.rooms g !! k = Some r ->
    (room_isCollapsed r = true <-> (0 < k < m)%nat).

(** The queue [q] of collapsing entries of [l]: it holds the places of the
    collapsed entries, each of them once. *)
Definition QueueOf {A : Type} (isCollapsed : A -> bool) (l : list A)
    (q : list nat) : Prop :=
  NoDup q /\
  forall k, k ∈ q <-> exists a, l !! k = Some a /\ isCollapsed a = true.

Definition MainJs_queues (g : MainJs.Game) : list nat * list nat :=
  (MainJs.collapsedRooms g, MainJs.collapsedCorridors g).

Definition MainJs_Queued (g : MainJs.Game) : Prop :=
  QueueOf room_isCollapsed (MainJs.rooms g) (MainJs.collapsedRooms g) /\
  QueueOf MainJs.corridor_isCollapsed (MainJs.corridors g)
    (MainJs.collapsedCorridors g).

Definition Part000_Queued (g : Part000.Game) : Prop :=
  QueueOf room_isCollapsed (Part000.rooms g) (Part000.collapsedRooms g).





(** ** Mouse look (the same code in both variants) *)

(** [mouseMovement] *)
Record MouseMovement := mkMouse { mouse_x : R; mouse_y : R }.

(** What [onMouseMove] reads of its event. *)
Record MouseEvent := mkMouseEvent { movementX : R; movementY : R }.

(** [onMouseMove(event)], where [gameActive] is the flag when the event
    arrives. *)
Definition onMouseMove (gameActive : bool) (event : MouseEvent)
    (mouseMovement : MouseMovement) : MouseMovement :=
  if negb gameActive then mouseMovement else
  let mx := mouse_x mouseMovement + movementX event * 0.002 in
  let my := mouse_y mouseMovement + movementY event * 0.002 in
  (* "Clamp vertical rotation" *)
  mkMouse mx (Rmax (- PI / 2) (Rmin (PI / 2) my)).

(** A run of mouse events, each with the flag it arrives under. *)
Definition mouseEvents (es : list (bool * MouseEvent)) (m : MouseMovement)
    : MouseMovement :=
  fold_left (fun m e => onMouseMove (fst e) (snd e) m) es m.

(** The horizontal movement the active events of a run add up to. *)
Fixpoint movedX (es : list (bool * MouseEvent)) : R :=
  match es with
  | [] => 0
  | e :: rest => (if fst e then movementX (snd e) * 0.002 else 0) + movedX rest
  end.

(** [basePosition ? basePosition.y : position.y] *)
Definition baseY (c : DataCore) : R :=
  match core_basePosition c with
  | Some b => y b
  | None => y (core_position c)
  end.

(** What the loop "Animate data cores" of [main.js] makes of a core when
    the drift offset is [off], and what the loop of the grid variant makes
    of it. *)
Definition MainJs_Bobbed (dt : R) (off : Vector3) (c c' : DataCore) : Prop :=
  if core_collected c then c' = c else
  exists t : Z,
    c' = core_set_pose c
           (setY (core_position c)
              (baseY c + y off + sin (IZR t * 0.003) * 0.1))
           (core_rotation_y c + dt * 2) (core_basePosition c).

Definition Part000_Bobbed (dt : R) (c c' : DataCore) : Prop :=
  if core_collected c then c' = c else
  exists t : Z,
    c' = mkCore
           (setY (core_position c)
              (y (core_position c) + sin (IZR t * 0.003) * 0.01))
           (core_rotation_y c + dt * 2) (core_collected c) (core_visible c)
           (core_light_intensity c) (core_light_position c)
           (core_basePosition c).

(** What a frame of [main.js] makes of a core [c] that was not collected
    when the frame started, [off] being the drift offset of the frame:
    either it is picked up in this frame, or it floats within 0.1 above or
    below its base position moved by the offset, with its light on it. *)
Definition MainJs_CoreFrame (dt : R) (off : Vector3) (c c' : DataCore) : Prop :=
  let base := baseOr (core_basePosition c) (core_position c) in
  c' = collected (MainJs.driftCore off c) \/
  (core_collected c' = false /\
   x (core_position c') = x base + x off /\
   z (core_position c') = z base + z off /\
   Rabs (y (core_position c') - (y base + y off)) <= 0.1 /\
   core_basePosition c' = Some base /\
   core_light_position c' = core_position c' /\
   core_rotation_y c' = core_rotation_y c + dt * 2).

(** The same for the grid variant: a core that is not picked up moves up
    or down by at most 0.01 from where it was, and its light stays where it
    was. *)
Definition Part000_CoreFrame (dt : R) (c c' : DataCore) : Prop :=
  c' = collected c \/
  (core_collected c' = false /\
   x (core_position c') = x (core_position c) /\
   z (core_position c') = z (core_position c) /\
   Rabs (y (core_position c') - y (core_position c)) <= 0.01 /\
   core_light_position c' = core_light_position c /\
   core_rotation_y c' = core_rotation_y c + dt * 2).

(** [distance < 3] for the portal, if there is one. *)
Definition atPortal (pos : Vector3) (portal : option Portal) : bool :=
  match portal with
  | Some portal => ltb (distanceTo pos (portal_position portal)) 3
  | None => false
  end.

(** The panel of a game lost to the void. *)
Definition voidPanel : Panel := mkPanel "GAME OVER" false voidMessage false.

(** What decides how a session ends, and the result: the player, the place
    of the portal, the activity flag and the panel. *)
Definition MainJs_outcome (g : MainJs.Game)
    : Player * option Vector3 * bool * Panel :=
  (MainJs.player g, option_map portal_position (MainJs.exitPortal g),
   MainJs.gameActive g, MainJs.panel g).

Definition Part000_outcome (g : Part000.Game)
    : Player * option Vector3 * bool * Panel :=
  (Part000.player g, option_map portal_position (Part000.exitPortal g),
   Part000.gameActive g, Part000.panel g).

(** The activity flag and the panel after a frame that started active with
    the panel [panel0]: the void check comes last and overrides a win. *)
Definition frameResult (below won : bool) (winPanel panel0 : Panel)
    : bool * Panel :=
  if below then (false, voidPanel)
  else if won then (false, winPanel)
  else (true, panel0).



(** The normal of a mesh has length 1. *)
Definition UnitNormal (m : Mesh) : Prop :=
  let n := mesh_normal m in x n * x n + y n * y n + z n * z n = 1.

(** The child meshes of the rooms and of the corridors of a level. *)
Definition MainJs_meshes (g : MainJs.Game) : list (list Mesh) * list (list Mesh) :=
  (map room_children (MainJs.rooms g),
   map MainJs.corridor_children (MainJs.corridors g)).

Definition Part000_meshes (g : Part000.Game)
    : list (list Mesh) * list (list Mesh) :=
  (map room_children (Part000.rooms g),
   map Part000.corridor_children (Part000.corridors g)).

Definition UnitNormals (ms : list (list Mesh) * list (list Mesh)) : Prop :=
  Forall (Forall UnitNormal) (fst ms) /\ Forall (Forall UnitNormal) (snd ms).

(** * Properties *)

(** ** Helper lemmas *)

Lemma ltb_true a b : ltb a b = true <-> a < b.
Proof. unfold ltb. destruct (Rlt_dec a b); split; intros; try easy. Qed.

Lemma ltb_false a b : ltb a b = false <-> b <= a.
Proof.
  unfold ltb. destruct (Rlt_dec a b); split; intros; try easy; lra.
Qed.

Lemma sqrt_1_sq : sqrt (0 * 0 + 0 * 0 + -1 * -1) = 1.
Proof. replace (0 * 0 + 0 * 0 + -1 * -1) with 1 by lra. apply sqrt_1. Qed.

Lemma flatten_ahead : flatten (mkVector3 0 0 (-1)) = mkVector3 0 0 (-1).
Proof.
  unfold flatten, normalize, THREE.length, multiplyScalar, setY. simpl.
  rewrite sqrt_1_sq.
  destruct (Req_dec_T 1 0) as [E|_]; [lra|].
  f_equal; lra.
Qed.

Lemma flatten_right : flatten (mkVector3 1 0 0) = mkVector3 1 0 0.
Proof.
  unfold flatten, normalize, THREE.length, multiplyScalar, setY. simpl.
  replace (1 * 1 + 0 * 0 + 0 * 0) with 1 by lra. rewrite sqrt_1.
  destruct (Req_dec_T 1 0) as [E|_]; [lra|].
  f_equal; lra.
Qed.

Lemma MainJs_forEach_ind (P : MainJs.Game -> Prop) f l g :
  (forall i g, P g -> P (f i g)) -> P g -> P (MainJs.forEach f l g).
Proof.
  intros Hf. revert g. induction l as [|i l IH]; simpl; auto.
Qed.

Lemma Part000_forEach_ind (P : Part000.Game -> Prop) f l g :
  (forall i g, P g -> P (f i g)) -> P g -> P (Part000.forEach f l g).
Proof.
  intros Hf. revert g. induction l as [|i l IH]; simpl; auto.
Qed.

(** ** Locomotion *)

Lemma pushXZ_velocity d m p :
  velocity (pushXZ d m p) =
  mkVector3 (x (velocity p) + x d * speed p * m) (y (velocity p))
    (z (velocity p) + z d * speed p * m).
Proof. reflexivity. Qed.

Lemma pullXZ_velocity d m p :
  velocity (pullXZ d m p) =
  mkVector3 (x (velocity p) - x d * speed p * m) (y (velocity p))
    (z (velocity p) - z d * speed p * m).
Proof. reflexivity. Qed.

Lemma MainJs_locomotion_horizontal f p :
  let q := MainJs.locomotion f p in
  (x (velocity q), z (velocity q)) =
    horizontalSpec (forwardHeld (keys f)) (backHeld (keys f))
      (leftHeld (keys f)) (rightHeld (keys f))
      (flatten (lookForward f)) (flatten (lookRight f)) (speed p)
  /\ y (velocity q) = y (velocity p).
Proof.
  unfold MainJs.locomotion, MainJs.steer, horizontalSpec, forwardHeld,
    backHeld, leftHeld, rightHeld, FORWARD_SPEED_MODIFIER,
    STRAFE_SPEED_MODIFIER.
  destruct (keys f "KeyW"%string || keys f "ArrowUp"%string);
    destruct (keys f "KeyS"%string || keys f "ArrowDown"%string);
    destruct (keys f "KeyA"%string || keys f "ArrowLeft"%string);
    destruct (keys f "KeyD"%string || keys f "ArrowRight"%string);
    simpl; split; try reflexivity; f_equal; lra.
Qed.

Lemma Part000_locomotion_horizontal f p :
  let q := Part000.locomotion f p in
  (x (velocity q), z (velocity q)) =
    horizontalSpec false false (leftHeld (keys f)) (rightHeld (keys f))
      (flatten (lookForward f)) (flatten (lookRight f)) (speed p)
  /\ y (velocity q) = y (velocity p).
Proof.
  unfold Part000.locomotion, Part000.steer, horizontalSpec, leftHeld, rightHeld.
  destruct (keys f "KeyA"%string || keys f "ArrowLeft"%string);
    destruct (keys f "KeyD"%string || keys f "ArrowRight"%string);
    simpl; split; try reflexivity; f_equal; lra.
Qed.

(** C6, as amended.  In [main.js] the horizontal velocity after the
    locomotion step is the specification's formula: forward * speed,
    overwritten, plus or minus half of it for the forward and backward
    keys, plus or minus 0.7 of right * speed for the strafe keys.  In the
    grid variant the overwrite and the strafe terms are the same, but the
    forward and backward keys contribute nothing.  In both, the previous
    horizontal velocity does not enter the result and the vertical
    component is untouched. *)
Theorem C6_locomotion_horizontal :
  (forall f p,
     let q := MainJs.locomotion f p in
     (x (velocity q), z (velocity q)) =
       horizontalSpec (forwardHeld (keys f)) (backHeld (keys f))
         (leftHeld (keys f)) (rightHeld (keys f))
         (flatten (lookForward f)) (flatten (lookRight f)) (speed p)
     /\ y (velocity q) = y (velocity p))
  /\
  (forall f p,
     let q := Part000.locomotion f p in
     (x (velocity q), z (velocity q)) =
       horizontalSpec false false (leftHeld (keys f)) (rightHeld (keys f))
         (flatten (lookForward f)) (flatten (lookRight f)) (speed p)
     /\ y (velocity q) = y (velocity p)).
Proof.
  split.
  - exact MainJs_locomotion_horizontal.
  - exact Part000_locomotion_horizontal.
Qed.

(** C6 as stated fails in the grid variant: with W held and the camera
    looking along -z, the player of the initial state gets the horizontal
    velocity (0, -3), not the (0, -4.5) of the stated rule. *)
Lemma C6_grid_forward_key_adds_nothing :
  forwardHeld (keys frameW) = true /\
  (x (velocity (Part000.locomotion frameW initialPlayer)),
   z (velocity (Part000.locomotion frameW initialPlayer))) = (0, -3) /\
  horizontalSpec (forwardHeld (keys frameW)) (backHeld (keys frameW))
    (leftHeld (keys frameW)) (rightHeld (keys frameW))
    (flatten (lookForward frameW)) (flatten (lookRight frameW))
    (speed initialPlayer) = (0, -4.5) /\
  (x (velocity (Part000.locomotion frameW initialPlayer)),
   z (velocity (Part000.locomotion frameW initialPlayer))) <>
    horizontalSpec (forwardHeld (keys frameW)) (backHeld (keys frameW))
      (leftHeld (keys frameW)) (rightHeld (keys frameW))
      (flatten (lookForward frameW)) (flatten (lookRight frameW))
      (speed initialPlayer).
Proof.
  assert (Hq : let q := Part000.locomotion frameW initialPlayer in
               (x (velocity q), z (velocity q)) = (0, -3)).
  { unfold Part000.locomotion, frameW. cbn [lookForward lookRight keys].
    rewrite flatten_ahead, flatten_right.
    unfold Part000.steer, onlyKey. simpl. f_equal; lra. }
  assert (Hs : horizontalSpec true false false false
                 (flatten (lookForward frameW)) (flatten (lookRight frameW))
                 (speed initialPlayer) = (0, -4.5)).
  { unfold frameW. cbn [lookForward lookRight].
    rewrite flatten_ahead, flatten_right.
    unfold horizontalSpec. simpl. f_equal; lra. }
  assert (Hk : forwardHeld (keys frameW) = true /\
               backHeld (keys frameW) = false /\
               leftHeld (keys frameW) = false /\
               rightHeld (keys frameW) = false) by (repeat split; reflexivity).
  destruct Hk as (Kw & Ks & Ka & Kd).
  cbv zeta in *. rewrite Kw, Ks, Ka, Kd, Hs, Hq.
  repeat split; auto.
  intros E. injection E. lra.
Qed.

(** ** Gravity and the void check *)

Lemma snapTo_velocity n p : velocity (snapTo n p) = velocity p.
Proof.
  unfold snapTo. destruct (nearestSurface n); [|reflexivity].
  destruct (match nearestDistance n with Some d => ltb d 3 | None => false end);
    [|reflexivity].
  cbn [set_gravity set_position set_currentSurface isJumping velocity].
  destruct (isJumping p && ltb (y (velocity p)) 0); reflexivity.
Qed.

Lemma MainJs_checkCollisions_player env g :
  velocity (MainJs.player (MainJs.checkCollisions env g)) =
    velocity (MainJs.player g) /\
  player_position (MainJs.player (MainJs.checkCollisions env g)) =
    player_position (MainJs.player g).
Proof.
  unfold MainJs.checkCollisions.
  set (g1 := MainJs.forEach _ _ g).
  assert (H1 : velocity (MainJs.player g1) = velocity (MainJs.player g) /\
               player_position (MainJs.player g1) =
                 player_position (MainJs.player g)).
  { subst g1. apply MainJs_forEach_ind; [|auto].
    intros i g' IH. unfold MainJs.checkCore.
    destruct (MainJs.dataCores g' !! i) as [core|]; [|exact IH].
    destruct (core_collected core); [exact IH|].
    destruct (ltb _ 2); [|exact IH].
    unfold MainJs.collectCore, MainJs.updateHUD. simpl.
    destruct (MainJs.gameActive g'); exact IH. }
  destruct (MainJs.exitPortal g1); [|exact H1].
  destruct (ltb _ 3); exact H1.
Qed.

Lemma Part000_checkCollisions_player env g :
  velocity (Part000.player (Part000.checkCollisions env g)) =
    velocity (Part000.player g) /\
  player_position (Part000.player (Part000.checkCollisions env g)) =
    player_position (Part000.player g).
Proof.
  unfold Part000.checkCollisions.
  set (g1 := Part000.forEach _ _ g).
  assert (H1 : velocity (Part000.player g1) = velocity (Part000.player g) /\
               player_position (Part000.player g1) =
                 player_position (Part000.player g)).
  { subst g1. apply Part000_forEach_ind; [|auto].
    intros i g' IH. unfold Part000.checkCore.
    destruct (Part000.dataCores g' !! i) as [core|]; [|exact IH].
    destruct (core_collected core); [exact IH|].
    destruct (ltb _ 2); [|exact IH].
    unfold Part000.collectCore, Part000.updateHUD. simpl.
    destruct (Part000.gameActive g'); exact IH. }
  destruct (Part000.exitPortal g1); [|exact H1].
  destruct (ltb _ 3); [|exact H1].
  destruct (2 <=? _)%nat; exact H1.
Qed.

Lemma MainJs_voidCheck_player g :
  MainJs.player (MainJs.voidCheck g) = MainJs.player g.
Proof. unfold MainJs.voidCheck. destruct (ltb _ _); reflexivity. Qed.

Lemma Part000_voidCheck_player g :
  Part000.player (Part000.voidCheck g) = Part000.player g.
Proof. unfold Part000.voidCheck. destruct (ltb _ _); reflexivity. Qed.

Lemma MainJs_updatePlayer_velocity env f g :
  MainJs.gameActive g = true ->
  velocity (MainJs.player (MainJs.updatePlayer env f g)) =
  velocity (MainJs.advancePlayer f (MainJs.player g)).
Proof.
  intros Ha. unfold MainJs.updatePlayer. rewrite Ha. cbn [negb].
  rewrite MainJs_voidCheck_player. unfold MainJs.moveAndCollide.
  rewrite (proj1 (MainJs_checkCollisions_player _ _)).
  cbn [MainJs.player MainJs.set_player]. unfold MainJs.findNearestSurface.
  apply snapTo_velocity.
Qed.

Lemma Part000_updatePlayer_velocity env f g :
  Part000.gameActive g = true ->
  velocity (Part000.player (Part000.updatePlayer env f g)) =
  velocity (Part000.advancePlayer f (Part000.player g)).
Proof.
  intros Ha. unfold Part000.updatePlayer. rewrite Ha. cbn [negb].
  rewrite Part000_voidCheck_player. unfold Part000.moveAndCollide.
  rewrite (proj1 (Part000_checkCollisions_player _ _)).
  cbn [Part000.player Part000.set_player]. unfold Part000.findNearestSurface.
  apply snapTo_velocity.
Qed.

(** The rule holds for any steering step [q] that keeps the supporting
    surface and the gravity vector, keeps the vertical velocity unless it
    starts a jump, and starts a jump only from a surface when not already
    jumping. *)
Lemma gravity_rule_generic dt p0 q p1 :
  currentSurface q = currentSurface p0 ->
  gravity q = gravity p0 ->
  player_position q = player_position p0 ->
  (currentSurface p0 = None \/ isJumping p0 = true ->
     isJumping q = isJumping p0 /\ y (velocity q) = y (velocity p0)) ->
  velocity p1 = velocity (movePlayer dt (applyGravity dt q)) ->
  GravityRule dt p0 q (movePlayer dt (applyGravity dt q)) p1.
Proof.
  intros Hs Hg Hp Hj H1. unfold GravityRule.
  assert (Hv : velocity (movePlayer dt (applyGravity dt q)) =
               velocity (applyGravity dt q)) by reflexivity.
  split; [exact H1|]. rewrite H1, Hv. clear H1 Hv.
  unfold applyGravity. rewrite Hs, Hg.
  split; [|split].
  - intros [H|H].
    + rewrite H. reflexivity.
    + rewrite H. rewrite orb_true_r. reflexivity.
  - intros H. destruct (Hj H) as [Hj1 Hj2].
    assert (E : negb (truthy (currentSurface p0)) || isJumping q = true).
    { destruct H as [H|H]; [rewrite H; reflexivity|].
      rewrite Hj1, H. apply orb_true_r. }
    rewrite E. simpl. rewrite Hj2. reflexivity.
  - intros [Hn Hf]. rewrite Hf.
    destruct (currentSurface p0) as [s|] eqn:E; [|congruence].
    simpl. rewrite Hp. split; reflexivity.
Qed.

Lemma MainJs_jump_frame k p :
  currentSurface (MainJs.jump k p) = currentSurface p /\
  gravity (MainJs.jump k p) = gravity p /\
  player_position (MainJs.jump k p) = player_position p /\
  (currentSurface p = None \/ isJumping p = true -> MainJs.jump k p = p).
Proof.
  unfold MainJs.jump.
  destruct (k "Space"%string && negb (isJumping p) && truthy (currentSurface p))
    eqn:E.
  - repeat split; try reflexivity.
    intros [H|H]; rewrite H in E; simpl in E.
    + rewrite andb_false_r in E. discriminate.
    + rewrite andb_false_r in E. discriminate.
  - repeat split; reflexivity.
Qed.

Lemma Part000_jump_frame k p :
  currentSurface (Part000.jump k p) = currentSurface p /\
  gravity (Part000.jump k p) = gravity p /\
  player_position (Part000.jump k p) = player_position p /\
  (currentSurface p = None \/ isJumping p = true -> Part000.jump k p = p).
Proof.
  unfold Part000.jump.
  destruct ((k "Space"%string || k "KeyW"%string || k "ArrowUp"%string)
            && negb (isJumping p) && truthy (currentSurface p)) eqn:E.
  - repeat split; try reflexivity.
    intros [H|H]; rewrite H in E; simpl in E.
    + rewrite andb_false_r in E. discriminate.
    + rewrite andb_false_r in E. discriminate.
  - repeat split; reflexivity.
Qed.

Lemma MainJs_locomotion_frame f p :
  currentSurface (MainJs.locomotion f p) = currentSurface p /\
  gravity (MainJs.locomotion f p) = gravity p /\
  player_position (MainJs.locomotion f p) = player_position p /\
  isJumping (MainJs.locomotion f p) = isJumping p.
Proof.
  unfold MainJs.locomotion, MainJs.steer.
  destruct (keys f "KeyW"%string || keys f "ArrowUp"%string);
    destruct (keys f "KeyS"%string || keys f "ArrowDown"%string);
    destruct (keys f "KeyA"%string || keys f "ArrowLeft"%string);
    destruct (keys f "KeyD"%string || keys f "ArrowRight"%string);
    repeat split; reflexivity.
Qed.

Lemma Part000_locomotion_frame f p :
  currentSurface (Part000.locomotion f p) = currentSurface p /\
  gravity (Part000.locomotion f p) = gravity p /\
  player_position (Part000.locomotion f p) = player_position p /\
  isJumping (Part000.locomotion f p) = isJumping p.
Proof.
  unfold Part000.locomotion, Part000.steer.
  destruct (keys f "KeyA"%string || keys f "ArrowLeft"%string);
    destruct (keys f "KeyD"%string || keys f "ArrowRight"%string);
    repeat split; reflexivity.
Qed.

(** C1.  In every tick of an active session, in both variants: when the
    player has no current surface or is jumping as "Apply gravity" runs,
    the tick adds gravity * dt to the velocity, and when the player had no
    surface or was jumping as the tick started the vertical velocity after
    the tick is v_y + gravity_y * dt; when there is a current surface and
    the player is not jumping, the vertical velocity is 0 before the
    position is integrated (the integration then moves the player only
    horizontally) and still 0 after the tick. *)
Theorem C1_gravity_or_surface_lock :
  (forall env f g,
     MainJs.gameActive g = true ->
     let p0 := MainJs.player g in
     let q := MainJs.jump (keys f) (MainJs.locomotion f p0) in
     GravityRule (deltaTime f) p0 q (MainJs.advancePlayer f p0)
       (MainJs.player (MainJs.updatePlayer env f g)) /\
     isJumping q =
       isJumping p0 || (keys f "Space"%string && truthy (currentSurface p0)))
  /\
  (forall env f g,
     Part000.gameActive g = true ->
     let p0 := Part000.player g in
     let q := Part000.jump (keys f) (Part000.locomotion f p0) in
     GravityRule (deltaTime f) p0 q (Part000.advancePlayer f p0)
       (Part000.player (Part000.updatePlayer env f g)) /\
     isJumping q =
       isJumping p0
       || ((keys f "Space"%string || keys f "KeyW"%string
            || keys f "ArrowUp"%string)
           && truthy (currentSurface p0))).
Proof.
  split; intros env f g Ha p0 q; subst p0 q.
  - pose proof (MainJs_locomotion_frame f (MainJs.player g)) as (L1 & L2 & L3 & L4).
    pose proof (MainJs_jump_frame (keys f) (MainJs.locomotion f (MainJs.player g)))
      as (J1 & J2 & J3 & J4).
    split.
    + apply gravity_rule_generic; try congruence.
      * intros H. rewrite J4 by (rewrite L1, L4; exact H).
        split; [exact L4|].
        apply (proj2 (MainJs_locomotion_horizontal f (MainJs.player g))).
      * apply MainJs_updatePlayer_velocity, Ha.
    + unfold MainJs.jump. rewrite L1, L4.
      destruct (keys f "Space"%string);
        destruct (isJumping (MainJs.player g)) eqn:Ej;
        destruct (truthy (currentSurface (MainJs.player g)));
        cbn; rewrite ?L4, ?Ej; reflexivity.
  - pose proof (Part000_locomotion_frame f (Part000.player g)) as (L1 & L2 & L3 & L4).
    pose proof (Part000_jump_frame (keys f) (Part000.locomotion f (Part000.player g)))
      as (J1 & J2 & J3 & J4).
    split.
    + apply gravity_rule_generic; try congruence.
      * intros H. rewrite J4 by (rewrite L1, L4; exact H).
        split; [exact L4|].
        apply (proj2 (Part000_locomotion_horizontal f (Part000.player g))).
      * apply Part000_updatePlayer_velocity, Ha.
    + unfold Part000.jump. rewrite L1, L4.
      destruct (keys f "Space"%string || keys f "KeyW"%string
                || keys f "ArrowUp"%string);
        destruct (isJumping (Part000.player g)) eqn:Ej;
        destruct (truthy (currentSurface (Part000.player g)));
        cbn; rewrite ?L4, ?Ej; reflexivity.
Qed.

(** The first tick after the click, nothing held: the player of either
    variant has no surface yet and falls with the full gravity. *)
Lemma C1_first_tick_falls :
  (MainJs.gameActive mainStarted = true /\
   y (velocity (MainJs.player (MainJs.updatePlayer env0 frame0 mainStarted))) =
     0 + -20 * 0.5) /\
  (Part000.gameActive gridStarted = true /\
   y (velocity (Part000.player (Part000.updatePlayer env0 frame0 gridStarted))) =
     0 + -20 * 0.5).
Proof.
  split; (split; [reflexivity|]).
  - exact (proj1 (proj2 (proj2 (proj1
      (proj1 C1_gravity_or_surface_lock env0 frame0 mainStarted eq_refl))))
      (or_introl eq_refl)).
  - exact (proj1 (proj2 (proj2 (proj1
      (proj2 C1_gravity_or_surface_lock env0 frame0 gridStarted eq_refl))))
      (or_introl eq_refl)).
Defined.

(** C8.  In every tick of an active session of [main.js], [updatePlayer]
    ends with the void check on the height the player has after the move,
    the snap and the collision checks.  Below -50 the session ends as a
    loss: [gameActive] is false and the panel shows GAME OVER, without the
    win class, with the void-death message (also when the portal was
    reached in the same tick).  At -50 or above the void check changes
    nothing. *)
Theorem C8_void_death env f g :
  MainJs.gameActive g = true ->
  let m := MainJs.moveAndCollide env f g in
  let g' := MainJs.updatePlayer env f g in
  MainJs.player g' = MainJs.player m /\
  (y (player_position (MainJs.player g')) < -50 ->
     MainJs.gameActive g' = false /\
     MainJs.panel g' = mkPanel "GAME OVER" false voidMessage false) /\
  (-50 <= y (player_position (MainJs.player g')) -> g' = m).
Proof.
  intros Ha m g'. subst g'. unfold MainJs.updatePlayer. rewrite Ha.
  cbn [negb]. fold m. split; [apply MainJs_voidCheck_player|].
  rewrite MainJs_voidCheck_player. unfold MainJs.voidCheck.
  split; intros H.
  - apply ltb_true in H. rewrite H. split; reflexivity.
  - apply ltb_false in H. rewrite H. reflexivity.
Qed.

(** A player 60 units below the level falls further and the session is
    lost. *)
Lemma C8_fall_below_the_level :
  MainJs.gameActive voidState = true /\
  MainJs.gameActive (MainJs.updatePlayer env0 frame0 voidState) = false /\
  MainJs.panel (MainJs.updatePlayer env0 frame0 voidState) =
    mkPanel "GAME OVER" false voidMessage false.
Proof.
  split; [reflexivity|].
  destruct (C8_void_death env0 frame0 voidState eq_refl) as (Hp & Hlt & _).
  apply Hlt. rewrite Hp.
  change (-60 + (0 + -20 * 0.5) * 0.5 < -50). lra.
Defined.

(** ** Map drift *)

Lemma driftIntensity_le_1 start t : MainJs.driftIntensity start t <= 1.
Proof. unfold MainJs.driftIntensity. apply Rmin_r. Qed.

Lemma driftIntensity_mono start t1 t2 :
  (t1 <= t2)%Z -> MainJs.driftIntensity start t1 <= MainJs.driftIntensity start t2.
Proof.
  intros H. unfold MainJs.driftIntensity.
  apply Rle_min_compat_r.
  assert (IZR (t1 - start) <= IZR (t2 - start)) by (apply IZR_le; lia).
  lra.
Qed.

(** ** The collapse animation *)



(** ** Debris *)

Lemma debrisLoop_app dt t pre post :
  MainJs.debrisLoop dt t (List.length pre) (pre ++ post) =
  map (agedParticle dt t) (List.filter (fun p => negb (expired t p)) pre) ++ post.
Proof.
  revert post. induction pre as [|a pre IH] using rev_ind; intros post.
  - reflexivity.
  - rewrite length_app, Nat.add_1_r. cbn [MainJs.debrisLoop].
    rewrite <- app_assoc. cbn [app].
    rewrite list_lookup_middle by reflexivity.
    rewrite List.filter_app. cbn [List.filter]. unfold expired at 2.
    destruct (_ >? _)%Z eqn:E; cbn [negb].
    + rewrite delete_middle, IH, app_nil_r. reflexivity.
    + rewrite <- (Nat.add_0_r (List.length pre)) at 2.
      rewrite insert_app_r. cbn [insert list_insert].
      rewrite IH, map_app, <- app_assoc. reflexivity.
Qed.

(** C9.  One tick of an unexpired particle adds -15 * dt to its vertical
    velocity, moves it by the new velocity times dt, adds its rotation
    speed (not scaled by dt) to its rotation and sets its opacity to
    1 - age / lifetime; lifetime and spawn time never change.  The
    particles after [updateDebrisParticles] are exactly the unexpired ones,
    in order, each updated once; the expired ones (age above lifetime) are
    gone and not updated.  Every spawned particle has lifetime 3000 ms and
    the spawn time read from the clock; with that lifetime the opacity is
    non-increasing in the age and is 0 at age 3000. *)
Theorem C9_debris_particles :
  (forall dt age p,
     let p' := MainJs.stepParticle dt age p in
     MainJs.particle_velocity p' =
       add (MainJs.particle_velocity p) (mkVector3 0 (-15 * dt) 0) /\
     MainJs.particle_position p' =
       add (MainJs.particle_position p)
         (multiplyScalar (MainJs.particle_velocity p') dt) /\
     MainJs.particle_rotation p' =
       add (MainJs.particle_rotation p) (MainJs.particle_rotationSpeed p) /\
     MainJs.particle_opacity p' = 1 - IZR age / IZR (MainJs.particle_lifetime p) /\
     MainJs.particle_lifetime p' = MainJs.particle_lifetime p /\
     MainJs.particle_spawnTime p' = MainJs.particle_spawnTime p /\
     MainJs.particle_rotationSpeed p' = MainJs.particle_rotationSpeed p)
  /\
  (forall env dt g,
     let t := Date_now env (MainJs.clockReads g) in
     MainJs.debrisParticles (MainJs.updateDebrisParticles env dt g) =
       map (agedParticle dt t)
         (List.filter (fun p => negb (expired t p)) (MainJs.debrisParticles g)))
  /\
  (forall env position g,
     exists p,
       MainJs.debrisParticles (MainJs.spawnParticle env position g) =
         MainJs.debrisParticles g ++ [p] /\
       MainJs.particle_lifetime p = 3000%Z /\
       MainJs.particle_spawnTime p = Date_now env (MainJs.clockReads g) /\
       MainJs.particle_opacity p = 1)
  /\
  (forall dt p,
     MainJs.particle_lifetime p = 3000%Z ->
     MainJs.particle_opacity (MainJs.stepParticle dt 3000 p) = 0 /\
     forall a1 a2, (a1 <= a2)%Z ->
       MainJs.particle_opacity (MainJs.stepParticle dt a2 p) <=
       MainJs.particle_opacity (MainJs.stepParticle dt a1 p)).
Proof.
  split; [|split; [|split]].
  - intros dt age p. cbn. repeat split; try reflexivity.
    unfold add, setY. cbn. f_equal; lra.
  - intros env dt g t. unfold MainJs.updateDebrisParticles. cbn.
    pose proof (debrisLoop_app dt t (MainJs.debrisParticles g) []) as H.
    rewrite !app_nil_r in H. exact H.
  - intros env position g. unfold MainJs.spawnParticle. cbn.
    eexists. split; [reflexivity|]. cbn. repeat split; reflexivity.
  - intros dt p HL. cbn. rewrite HL. split.
    + lra.
    + intros a1 a2 H. apply IZR_le in H. lra.
Qed.

(** A fresh particle is kept and faded to 2/3 after one second, and is
    invisible when its age reaches its lifetime. *)
Lemma C9_fresh_particle_fades :
  MainJs.particle_lifetime freshParticle = 3000%Z /\
  MainJs.particle_opacity (MainJs.stepParticle 0.5 3000 freshParticle) = 0 /\
  ((1000 <= 2000)%Z /\
   MainJs.particle_opacity (MainJs.stepParticle 0.5 2000 freshParticle) <=
   MainJs.particle_opacity (MainJs.stepParticle 0.5 1000 freshParticle)).
Proof.
  split; [reflexivity|]. split.
  - exact (proj1 (proj2 (proj2 (proj2 C9_debris_particles)) 0.5 freshParticle
             eq_refl)).
  - split; [lia|].
    exact (proj2 (proj2 (proj2 (proj2 C9_debris_particles)) 0.5 freshParticle
             eq_refl) 1000%Z 2000%Z ltac:(lia)).
Defined.

(** ** The nearest-surface search *)

Lemma scanChildren_fold pos parent o j ms n :
  scanChildren pos parent o j ms n =
  fold_left (fun n c => considerChild pos c n) (childrenFrom parent o j ms) n.
Proof.
  revert j n. induction ms as [|m ms IH]; intros j n; simpl; [reflexivity|].
  apply IH.
Qed.

Lemma scanRooms_fold pos i rs n :
  scanRooms pos i rs n =
  fold_left (fun n c => considerChild pos c n) (visitedRooms i rs) n.
Proof.
  revert i n. induction rs as [|room rs IH]; intros i n; simpl; [reflexivity|].
  rewrite fold_left_app, IH. f_equal.
  destruct (room_isCollapsed room); [reflexivity|]. apply scanChildren_fold.
Qed.

Lemma MainJs_scanCorridors_fold pos i cs n :
  MainJs.scanCorridors pos i cs n =
  fold_left (fun n c => considerChild pos c n) (MainJs_visitedCorridors i cs) n.
Proof.
  revert i n. induction cs as [|c cs IH]; intros i n; simpl; [reflexivity|].
  rewrite fold_left_app, IH. f_equal.
  destruct (MainJs.corridor_isCollapsed c); [reflexivity|].
  apply scanChildren_fold.
Qed.

Lemma Part000_scanCorridors_fold pos i cs n :
  Part000.scanCorridors pos i cs n =
  fold_left (fun n c => considerChild pos c n) (Part000_visitedCorridors i cs) n.
Proof.
  revert i n. induction cs as [|c cs IH]; intros i n; simpl; [reflexivity|].
  rewrite fold_left_app, IH. f_equal. apply scanChildren_fold.
Qed.

Lemma MinOf_step pos seen n c :
  MinOf pos seen n -> MinOf pos (seen ++ [c]) (considerChild pos c n).
Proof.
  intros H. unfold considerChild.
  destruct (mesh_isSurface (child_mesh c)) eqn:Es; cbn [negb].
  2:{ unfold MinOf in *. destruct (nearestSurface n) as [b|].
      - destruct H as (H1 & H2 & H3 & H4 & H5).
        repeat split; auto.
        + apply in_app_iff; auto.
        + intros c' Hc' Hs' Hd'. apply in_app_iff in Hc' as [Hc'|[<-|[]]].
          * auto.
          * congruence.
      - destruct H as (H1 & H2). split; auto.
        intros c' Hc' Hs'. apply in_app_iff in Hc' as [Hc'|[<-|[]]].
        + auto.
        + congruence. }
  set (d := distanceTo pos (getWorldPosition c)).
  destruct (belowNearest d n && ltb d 10) eqn:E.
  - apply andb_true_iff in E as [E1 E2]. apply ltb_true in E2.
    unfold MinOf. cbn [nearestSurface nearestDistance].
    repeat split; auto.
    + apply in_app_iff. right. left. reflexivity.
    + intros c' Hc' Hs' Hd'. apply in_app_iff in Hc' as [Hc'|[<-|[]]].
      * unfold MinOf, belowNearest in *.
        destruct (nearestSurface n) as [b|].
        -- destruct H as (H1 & H2 & H3 & H4 & H5). rewrite H4 in E1.
           apply ltb_true in E1. specialize (H5 c' Hc' Hs' Hd'). fold d. lra.
        -- destruct H as (H1 & H2). exfalso. exact (H2 c' Hc' Hs' Hd').
      * fold d. lra.
  - apply andb_false_iff in E.
    unfold MinOf, belowNearest in *. destruct (nearestSurface n) as [b|].
    + destruct H as (H1 & H2 & H3 & H4 & H5). rewrite H4 in E.
      repeat split; auto.
      * apply in_app_iff; auto.
      * intros c' Hc' Hs' Hd'. apply in_app_iff in Hc' as [Hc'|[<-|[]]].
        -- auto.
        -- fold d in Hd' |- *. destruct E as [E|E].
           ++ apply ltb_false in E. exact E.
           ++ apply ltb_false in E. lra.
    + destruct H as (H1 & H2). rewrite H1 in E. split; auto.
      intros c' Hc' Hs'. apply in_app_iff in Hc' as [Hc'|[<-|[]]].
      * auto.
      * fold d. destruct E as [E|E]; [discriminate|].
        apply ltb_false in E. lra.
Qed.

Lemma MinOf_fold pos L : forall seen n,
  MinOf pos seen n ->
  MinOf pos (seen ++ L) (fold_left (fun n c => considerChild pos c n) L n).
Proof.
  induction L as [|c L IH]; intros seen n H; simpl.
  - rewrite app_nil_r. exact H.
  - replace (seen ++ c :: L) with ((seen ++ [c]) ++ L)
      by (rewrite <- app_assoc; reflexivity).
    apply IH, MinOf_step, H.
Qed.

Lemma MinOf_start pos : MinOf pos [] noNearest.
Proof. split; [reflexivity|]. intros c' []. Qed.

Lemma In_childrenFrom parent o ms : forall j c,
  In c (childrenFrom parent o j ms) <->
  exists k m, ms !! k = Some m /\ c = mkChild (mkRef o (j + k)) parent m.
Proof.
  induction ms as [|m0 ms IH]; intros j c; simpl.
  - split; [intros []|]. intros (k & m & H & _). destruct k; discriminate.
  - rewrite IH. split.
    + intros [<-|(k & m & H & ->)].
      * exists 0%nat, m0. split; [reflexivity|]. rewrite Nat.add_0_r. reflexivity.
      * exists (S k), m. split; [exact H|].
        replace (j + S k)%nat with (S j + k)%nat by lia. reflexivity.
    + intros ([|k] & m & H & ->).
      * left. injection H as <-. rewrite Nat.add_0_r. reflexivity.
      * right. exists k, m. split; [exact H|].
        replace (j + S k)%nat with (S j + k)%nat by lia. reflexivity.
Qed.

Lemma In_visitedRooms rs : forall i c,
  In c (visitedRooms i rs) <->
  exists k room j m,
    rs !! k = Some room /\ room_isCollapsed room = false /\
    room_children room !! j = Some m /\
    c = mkChild (mkRef (InRoom (i + k)) j) (room_position room) m.
Proof.
  induction rs as [|r rs IH]; intros i c; simpl.
  - split; [intros []|]. intros (k & ? & ? & ? & H & _). destruct k; discriminate.
  - rewrite in_app_iff, IH. split.
    + intros [H|(k & room & j & m & H1 & H2 & H3 & ->)].
      * destruct (room_isCollapsed r) eqn:E; [destruct H|].
        apply In_childrenFrom in H as (j & m & H & ->).
        exists 0%nat, r, j, m. rewrite Nat.add_0_r. auto.
      * exists (S k), room, j, m.
        replace (i + S k)%nat with (S i + k)%nat by lia. auto.
    + intros ([|k] & room & j & m & H1 & H2 & H3 & ->).
      * left. injection H1 as <-. rewrite H2. apply In_childrenFrom.
        exists j, m. rewrite Nat.add_0_r. auto.
      * right. exists k, room, j, m.
        replace (i + S k)%nat with (S i + k)%nat by lia. auto.
Qed.

Lemma MainJs_In_visitedCorridors cs : forall i c,
  In c (MainJs_visitedCorridors i cs) <->
  exists k corridor j m,
    cs !! k = Some corridor /\ MainJs.corridor_isCollapsed corridor = false /\
    MainJs.corridor_children corridor !! j = Some m /\
    c = mkChild (mkRef (InCorridor (i + k)) j)
          (MainJs.corridor_position corridor) m.
Proof.
  induction cs as [|r cs IH]; intros i c; simpl.
  - split; [intros []|]. intros (k & ? & ? & ? & H & _). destruct k; discriminate.
  - rewrite in_app_iff, IH. split.
    + intros [H|(k & room & j & m & H1 & H2 & H3 & ->)].
      * destruct (MainJs.corridor_isCollapsed r) eqn:E; [destruct H|].
        apply In_childrenFrom in H as (j & m & H & ->).
        exists 0%nat, r, j, m. rewrite Nat.add_0_r. auto.
      * exists (S k), room, j, m.
        replace (i + S k)%nat with (S i + k)%nat by lia. auto.
    + intros ([|k] & room & j & m & H1 & H2 & H3 & ->).
      * left. injection H1 as <-. rewrite H2. apply In_childrenFrom.
        exists j, m. rewrite Nat.add_0_r. auto.
      * right. exists k, room, j, m.
        replace (i + S k)%nat with (S i + k)%nat by lia. auto.
Qed.

Lemma Part000_In_visitedCorridors cs : forall i c,
  In c (Part000_visitedCorridors i cs) <->
  exists k corridor j m,
    cs !! k = Some corridor /\
    Part000.corridor_children corridor !! j = Some m /\
    c = mkChild (mkRef (InCorridor (i + k)) j)
          (Part000.corridor_position corridor) m.
Proof.
  induction cs as [|r cs IH]; intros i c; simpl.
  - split; [intros []|]. intros (k & ? & ? & ? & H & _). destruct k; discriminate.
  - rewrite in_app_iff, IH. split.
    + intros [H|(k & room & j & m & H1 & H3 & ->)].
      * apply In_childrenFrom in H as (j & m & H & ->).
        exists 0%nat, r, j, m. rewrite Nat.add_0_r. auto.
      * exists (S k), room, j, m.
        replace (i + S k)%nat with (S i + k)%nat by lia. auto.
    + intros ([|k] & room & j & m & H1 & H3 & ->).
      * left. injection H1 as <-. apply In_childrenFrom.
        exists j, m. rewrite Nat.add_0_r. auto.
      * right. exists k, room, j, m.
        replace (i + S k)%nat with (S i + k)%nat by lia. auto.
Qed.

Lemma MainJs_visited_resolve rs cs c :
  In c (visitedRooms 0 rs ++ MainJs_visitedCorridors 0 cs) <->
  MainJs_resolve rs cs (child_ref c) = Some (false, c).
Proof.
  rewrite in_app_iff, In_visitedRooms, MainJs_In_visitedCorridors.
  unfold MainJs_resolve. split.
  - intros [(k & room & j & m & H1 & H2 & H3 & ->)
           |(k & room & j & m & H1 & H2 & H3 & ->)];
      cbn; rewrite H1; cbn; rewrite H3; cbn; rewrite H2; reflexivity.
  - destruct c as [[[i|i] j] parent m]; cbn; intros H.
    + left. destruct (rs !! i) as [room|] eqn:E1; [|discriminate]. cbn in H.
      destruct (room_children room !! j) as [m'|] eqn:E2; [|discriminate].
      cbn in H. injection H as Hc Hp Hm. subst.
      exists i, room, j, m. auto.
    + right. destruct (cs !! i) as [room|] eqn:E1; [|discriminate]. cbn in H.
      destruct (MainJs.corridor_children room !! j) as [m'|] eqn:E2;
        [|discriminate].
      cbn in H. injection H as Hc Hp Hm. subst.
      exists i, room, j, m. auto.
Qed.

Lemma Part000_visited_resolve rs cs c :
  In c (visitedRooms 0 rs ++ Part000_visitedCorridors 0 cs) <->
  Part000_resolve rs cs (child_ref c) = Some (false, c).
Proof.
  rewrite in_app_iff, In_visitedRooms, Part000_In_visitedCorridors.
  unfold Part000_resolve. split.
  - intros [(k & room & j & m & H1 & H2 & H3 & ->)
           |(k & room & j & m & H1 & H3 & ->)];
      cbn; rewrite H1; cbn; rewrite H3; cbn; rewrite ?H2; reflexivity.
  - destruct c as [[[i|i] j] parent m]; cbn; intros H.
    + left. destruct (rs !! i) as [room|] eqn:E1; [|discriminate]. cbn in H.
      destruct (room_children room !! j) as [m'|] eqn:E2; [|discriminate].
      cbn in H. injection H as Hc Hp Hm. subst.
      exists i, room, j, m. auto.
    + right. destruct (cs !! i) as [room|] eqn:E1; [|discriminate]. cbn in H.
      destruct (Part000.corridor_children room !! j) as [m'|] eqn:E2;
        [|discriminate].
      cbn in H. injection H as Hp Hm. subst.
      exists i, room, j, m. auto.
Qed.

Lemma MinOf_NearestQualifying resolve pos L n :
  (forall c, In c L <-> resolve (child_ref c) = Some (false, c)) ->
  MinOf pos L n -> NearestQualifying resolve pos n.
Proof.
  intros HL H. unfold MinOf, NearestQualifying, Qualifies in *.
  destruct (nearestSurface n) as [c|].
  - destruct H as (H1 & H2 & H3 & H4 & H5). repeat split; auto.
    + apply HL, H1.
    + intros c' (Q1 & Q2 & Q3). apply H5; auto. apply HL, Q1.
  - destruct H as (H1 & H2). split; auto.
    intros c' (Q1 & Q2 & Q3). apply (H2 c'); auto. apply HL, Q1.
Qed.

Lemma MainJs_searchNearest_spec rs cs pos :
  NearestQualifying (MainJs_resolve rs cs) pos (MainJs.searchNearest rs cs pos).
Proof.
  apply MinOf_NearestQualifying
    with (L := visitedRooms 0 rs ++ MainJs_visitedCorridors 0 cs).
  - intros c. apply MainJs_visited_resolve.
  - unfold MainJs.searchNearest.
    rewrite MainJs_scanCorridors_fold, scanRooms_fold, <- fold_left_app.
    apply (MinOf_fold pos _ [] noNearest), MinOf_start.
Qed.

Lemma Part000_searchNearest_spec rs cs pos :
  NearestQualifying (Part000_resolve rs cs) pos (Part000.searchNearest rs cs pos).
Proof.
  apply MinOf_NearestQualifying
    with (L := visitedRooms 0 rs ++ Part000_visitedCorridors 0 cs).
  - intros c. apply Part000_visited_resolve.
  - unfold Part000.searchNearest.
    rewrite Part000_scanCorridors_fold, scanRooms_fold, <- fold_left_app.
    apply (MinOf_fold pos _ [] noNearest), MinOf_start.
Qed.

Lemma snapTo_currentSurface n p :
  currentSurface (snapTo n p) = child_ref <$> nearestSurface n.
Proof.
  unfold snapTo. destruct (nearestSurface n) as [c|]; [|reflexivity].
  destruct (match nearestDistance n with Some d => ltb d 3 | None => false end);
    [|reflexivity].
  cbn [set_gravity set_position set_currentSurface isJumping velocity].
  destruct (isJumping p && ltb (y (velocity p)) 0); reflexivity.
Qed.

(** C2.  In both variants the search returns a surface that qualifies (a
    surface child of a room or corridor that is not collapsed, less than 10
    units from the player) and is at minimum distance among all qualifying
    surfaces, or nothing when none qualifies; [findNearestSurface] stores
    that surface as [currentSurface], and null when there is none.  Hence
    whatever the level looks like, the selected surface is less than 10
    units away and its owner is not collapsed. *)
Theorem C2_nearest_surface_search :
  (forall rs cs p,
     let n := MainJs.searchNearest rs cs (player_position p) in
     NearestQualifying (MainJs_resolve rs cs) (player_position p) n /\
     currentSurface (MainJs.findNearestSurface rs cs p) =
       child_ref <$> nearestSurface n /\
     forall ref,
       currentSurface (MainJs.findNearestSurface rs cs p) = Some ref ->
       exists c,
         MainJs_resolve rs cs ref = Some (false, c) /\
         mesh_isSurface (child_mesh c) = true /\
         distanceTo (player_position p) (getWorldPosition c) < 10)
  /\
  (forall rs cs p,
     let n := Part000.searchNearest rs cs (player_position p) in
     NearestQualifying (Part000_resolve rs cs) (player_position p) n /\
     currentSurface (Part000.findNearestSurface rs cs p) =
       child_ref <$> nearestSurface n /\
     forall ref,
       currentSurface (Part000.findNearestSurface rs cs p) = Some ref ->
       exists c,
         Part000_resolve rs cs ref = Some (false, c) /\
         mesh_isSurface (child_mesh c) = true /\
         distanceTo (player_position p) (getWorldPosition c) < 10).
Proof.
  split; intros rs cs p n.
  - pose proof (MainJs_searchNearest_spec rs cs (player_position p)) as H.
    fold n in H. split; [exact H|].
    unfold MainJs.findNearestSurface. fold n. rewrite snapTo_currentSurface.
    split; [reflexivity|].
    intros ref E. unfold NearestQualifying in H.
    destruct (nearestSurface n) as [c|]; [|discriminate].
    injection E as <-. exists c. apply H.
  - pose proof (Part000_searchNearest_spec rs cs (player_position p)) as H.
    fold n in H. split; [exact H|].
    unfold Part000.findNearestSurface. fold n. rewrite snapTo_currentSurface.
    split; [reflexivity|].
    intros ref E. unfold NearestQualifying in H.
    destruct (nearestSurface n) as [c|]; [|discriminate].
    injection E as <-. exists c. apply H.
Qed.

Lemma distanceTo_0 a b :
  x a = x b -> y a = y b -> z a = z b -> distanceTo a b = 0.
Proof.
  intros Hx Hy Hz. unfold distanceTo. cbv zeta. rewrite Hx, Hy, Hz.
  replace ((x b - x b) * (x b - x b) + (y b - y b) * (y b - y b)
           + (z b - z b) * (z b - z b)) with 0 by ring.
  apply sqrt_0.
Qed.

Lemma considerChild_hit pos c n :
  mesh_isSurface (child_mesh c) = true ->
  belowNearest (distanceTo pos (getWorldPosition c)) n = true ->
  distanceTo pos (getWorldPosition c) < 10 ->
  considerChild pos c n =
    mkNearest (Some c) (Some (distanceTo pos (getWorldPosition c))).
Proof.
  intros Hs Hb Hd. unfold considerChild. rewrite Hs, Hb.
  apply ltb_true in Hd. rewrite Hd. reflexivity.
Qed.

Lemma considerChild_keep0 pos c c0 :
  considerChild pos c (mkNearest (Some c0) (Some 0)) =
  mkNearest (Some c0) (Some 0).
Proof.
  unfold considerChild. destruct (negb _); [reflexivity|].
  cbn [belowNearest nearestDistance].
  rewrite (proj2 (ltb_false _ 0)); [reflexivity|].
  unfold distanceTo. apply sqrt_pos.
Qed.

(** From the centre of the floor of [oneRoom] the floor is the nearest
    surface, at distance 0. *)
Lemma oneRoom_search_MainJs :
  MainJs.searchNearest oneRoom [] zero3 = mkNearest (Some floorChild) (Some 0).
Proof.
  assert (D0 : distanceTo zero3 (getWorldPosition floorChild) = 0).
  { apply distanceTo_0; cbn; lra. }
  unfold MainJs.searchNearest, oneRoom.
  cbn [scanRooms MainJs.scanCorridors createRoom room_isCollapsed
       room_children room_position scanChildren].
  fold zero3. fold floorChild.
  rewrite (considerChild_hit zero3 floorChild noNearest);
    [|reflexivity|reflexivity|rewrite D0; lra].
  rewrite D0.
  rewrite !considerChild_keep0. reflexivity.
Qed.

Lemma oneRoom_search_Part000 :
  Part000.searchNearest oneRoom [] zero3 = mkNearest (Some floorChild) (Some 0).
Proof. exact oneRoom_search_MainJs. Qed.

(** On the floor of [oneRoom] the floor is selected, in either variant; it
    belongs to a room that stands, and is less than 10 units away. *)
Lemma C2_floor_is_selected :
  (currentSurface (MainJs.findNearestSurface oneRoom [] standingPlayer) =
     Some (mkRef (InRoom 0) 0) /\
   exists c,
     MainJs_resolve oneRoom [] (mkRef (InRoom 0) 0) = Some (false, c) /\
     mesh_isSurface (child_mesh c) = true /\
     distanceTo (player_position standingPlayer) (getWorldPosition c) < 10) /\
  (currentSurface (Part000.findNearestSurface oneRoom [] standingPlayer) =
     Some (mkRef (InRoom 0) 0) /\
   exists c,
     Part000_resolve oneRoom [] (mkRef (InRoom 0) 0) = Some (false, c) /\
     mesh_isSurface (child_mesh c) = true /\
     distanceTo (player_position standingPlayer) (getWorldPosition c) < 10).
Proof.
  assert (E : currentSurface (MainJs.findNearestSurface oneRoom [] standingPlayer)
              = Some (mkRef (InRoom 0) 0)).
  { unfold MainJs.findNearestSurface. rewrite snapTo_currentSurface.
    change (player_position standingPlayer) with zero3.
    rewrite oneRoom_search_MainJs. reflexivity. }
  assert (E' : currentSurface
                 (Part000.findNearestSurface oneRoom [] standingPlayer)
               = Some (mkRef (InRoom 0) 0)) by exact E.
  split; (split; [assumption|]).
  - exact (proj2 (proj2 (proj1 C2_nearest_surface_search oneRoom []
                           standingPlayer)) _ E).
  - exact (proj2 (proj2 (proj2 C2_nearest_surface_search oneRoom []
                           standingPlayer)) _ E').
Defined.

(** ** The snap *)

Lemma snapTo_rule n p : SnapRule n p (snapTo n p).
Proof.
  split; [apply snapTo_velocity|].
  unfold snapTo. destruct (nearestSurface n) as [c|].
  2:{ destruct (nearestDistance n); repeat split. }
  destruct (nearestDistance n) as [d|]; [|repeat split].
  split; intros H.
  - apply ltb_true in H. rewrite H.
    cbn [set_gravity set_position set_currentSurface isJumping velocity].
    assert (G : multiplyScalar (mesh_normal (child_mesh c)) (-20) =
                multiplyScalar (negate (mesh_normal (child_mesh c))) 20).
    { unfold multiplyScalar, negate. cbn. f_equal; lra. }
    destruct (isJumping p) eqn:Ej;
      destruct (ltb (y (velocity p)) 0) eqn:Ev; cbn; rewrite ?Ej;
      (split; [reflexivity|split; [exact G|split; [|split]]]);
      intros; try reflexivity; try discriminate;
      try (apply ltb_true in Ev; lra); try (apply ltb_false in Ev; lra).
  - apply ltb_false in H. rewrite H. repeat split.
Qed.

(** C3, as amended.  In both variants, when the search found a surface
    at a distance strictly below 3, the resolver puts the player at the
    surface's world position + normal * 1 and sets gravity to
    -normal * 20; the jump flag is cleared if the player was jumping with a
    strictly negative vertical velocity, and is kept when that velocity is
    0 or positive.  When the distance is 3 or more, or nothing was found,
    position, gravity and jump flag are left alone.  The velocity is never
    changed by the resolver. *)
Theorem C3_snap_below_three_units :
  (forall rs cs p,
     SnapRule (MainJs.searchNearest rs cs (player_position p)) p
       (MainJs.findNearestSurface rs cs p))
  /\
  (forall rs cs p,
     SnapRule (Part000.searchNearest rs cs (player_position p)) p
       (Part000.findNearestSurface rs cs p)).
Proof. split; intros rs cs p; apply snapTo_rule. Qed.

(** Standing on the floor of [oneRoom] (distance 0), the player is put one
    unit above it with gravity pointing down; a player coming down from a
    jump lands there. *)
Lemma C3_snap_on_the_floor :
  0 < 3 /\
  player_position (MainJs.findNearestSurface oneRoom [] standingPlayer) =
    add (getWorldPosition floorChild) (multiplyScalar (mkVector3 0 1 0) 1) /\
  gravity (MainJs.findNearestSurface oneRoom [] standingPlayer) =
    multiplyScalar (negate (mkVector3 0 1 0)) 20 /\
  (isJumping fallingPlayer = true /\ y (velocity fallingPlayer) < 0 /\
   isJumping (MainJs.findNearestSurface oneRoom [] fallingPlayer) = false).
Proof.
  split; [lra|].
  pose proof (proj1 C3_snap_below_three_units oneRoom [] standingPlayer) as H.
  change (player_position standingPlayer) with zero3 in H.
  rewrite oneRoom_search_MainJs in H.
  destruct H as (_ & H & _).
  destruct (H ltac:(lra)) as (H1 & H2 & _).
  split; [exact H1|]. split; [exact H2|].
  pose proof (proj1 C3_snap_below_three_units oneRoom [] fallingPlayer) as F.
  change (player_position fallingPlayer) with zero3 in F.
  rewrite oneRoom_search_MainJs in F.
  destruct F as (_ & F & _).
  destruct (F ltac:(lra)) as (_ & _ & F3 & _).
  assert (V : y (velocity fallingPlayer) < 0) by (cbn; lra).
  split; [reflexivity|]. split; [exact V|]. exact (F3 eq_refl V).
Defined.

(** C3 as stated fails at vertical velocity 0: a jumping player at the top
    of the jump, on the floor of [oneRoom] (distance 0, below 3), has a
    non-positive vertical velocity and keeps the jump flag.  Such a player
    arises in play: jumping from the floor in a frame of 0.4 s gives the
    vertical velocity 8 - 20 * 0.4 = 0. *)
Lemma C3_apex_keeps_jump_flag :
  MainJs.searchNearest oneRoom [] (player_position apexPlayer) =
    mkNearest (Some floorChild) (Some 0) /\
  0 < 3 /\
  isJumping apexPlayer = true /\
  y (velocity apexPlayer) <= 0 /\
  isJumping (MainJs.findNearestSurface oneRoom [] apexPlayer) = true /\
  (isJumping (MainJs.advancePlayer jumpFrame groundedPlayer) = true /\
   y (velocity (MainJs.advancePlayer jumpFrame groundedPlayer)) = 0).
Proof.
  split; [exact oneRoom_search_MainJs|].
  split; [lra|]. split; [reflexivity|]. split; [cbn; lra|].
  split.
  - unfold MainJs.findNearestSurface.
    change (player_position apexPlayer) with zero3.
    rewrite oneRoom_search_MainJs. unfold snapTo.
    cbn [nearestSurface nearestDistance].
    rewrite (proj2 (ltb_true 0 3)) by lra.
    cbn [set_gravity set_position set_currentSurface isJumping velocity
         apexPlayer y zero3 andb].
    rewrite (proj2 (ltb_false 0 0)) by lra. reflexivity.
  - split; [reflexivity|].
    change (8 + -20 * 0.4 = 0). lra.
Qed.

(** ** The collapse invariant of main.js *)

Lemma lookup_map {A B} (f : A -> B) (l : list A) (i : nat) :
  map f l !! i = option_map f (l !! i).
Proof.
  revert i. induction l as [|a l IH]; intros [|i]; simpl; auto.
Qed.

Lemma map_insert {A B} (f : A -> B) (l : list A) (i : nat) (v : A) :
  map f (<[i := v]> l) = <[i := f v]> (map f l).
Proof.
  revert i. induction l as [|a l IH]; intros [|i]; simpl; auto.
  f_equal. apply IH.
Qed.

Lemma map_insert_same {A B} (f : A -> B) (l : list A) (i : nat) (a v : A) :
  l !! i = Some a -> f v = f a -> map f (<[i := v]> l) = map f l.
Proof.
  intros H E. rewrite map_insert, E. apply list_insert_id.
  rewrite lookup_map, H. reflexivity.
Qed.

Lemma FlagsInv_collapse_room rf cf i idx :
  FlagsInv rf cf -> rf !! i = Some (idx, false, false) -> (0 < idx)%nat ->
  FlagsInv (<[i := (idx, true, true)]> rf) cf.
Proof.
  intros [I1 I2 I3 I4 I5 I6] Hi Hpos.
  assert (Hlt : (i < List.length rf)%nat) by (eapply lookup_lt_Some, Hi).
  assert (Hget : forall k i' b ph,
            <[i := (idx, true, true)]> rf !! k = Some (i', b, ph) ->
            (k = i /\ i' = idx /\ b = true /\ ph = true) \/
            (k <> i /\ rf !! k = Some (i', b, ph))).
  { intros k i' b ph H. destruct (decide (k = i)) as [->|Hne].
    - rewrite list_lookup_insert_eq in H by exact Hlt.
      injection H as <- <- <-. left. auto.
    - rewrite list_lookup_insert_ne in H by auto. right. auto. }
  assert (Hmono : forall k i' b ph, rf !! k = Some (i', b, ph) ->
            exists b' ph', <[i := (idx, true, true)]> rf !! k = Some (i', b', ph')
                           /\ (b = true -> b' = true)).
  { intros k i' b ph H. destruct (decide (k = i)) as [->|Hne].
    - rewrite list_lookup_insert_eq by exact Hlt.
      rewrite Hi in H. injection H as <- <- <-. eauto.
    - rewrite list_lookup_insert_ne by auto. eauto. }
  split.
  - intros k i' b ph H. apply Hget in H as [(_ & _ & -> & ->)|[_ H]]; eauto.
  - exact I2.
  - intros j cr b ph H. rewrite length_insert. eauto.
  - intros j cr ph H.
    destruct (I4 j cr ph H) as (i1 & ph1 & i2 & ph2 & b1 & b2 & H1 & H2 & Hor).
    destruct (Hmono _ _ _ _ H1) as (b1' & ph1' & H1' & M1).
    destruct (Hmono _ _ _ _ H2) as (b2' & ph2' & H2' & M2).
    exists i1, ph1', i2, ph2', b1', b2'. repeat split; auto. tauto.
  - intros k b ph H. apply Hget in H as [(_ & E & _)|[_ H]]; [lia|eauto].
  - destruct (decide (0%nat = i)) as [<-|Hne].
    + rewrite I6 in Hi. injection Hi as <-. lia.
    + rewrite list_lookup_insert_ne by auto. exact I6.
Qed.

Lemma FlagsInv_collapse_corridor rf cf j cr i1 ph1 i2 ph2 b1 b2 :
  FlagsInv rf cf -> cf !! j = Some (cr, false, false) ->
  rf !! fst cr = Some (i1, b1, ph1) -> rf !! snd cr = Some (i2, b2, ph2) ->
  b1 || b2 = true ->
  FlagsInv rf (<[j := (cr, true, true)]> cf).
Proof.
  intros [I1 I2 I3 I4 I5 I6] Hj H1 H2 Hor.
  assert (Hlt : (j < List.length cf)%nat) by (eapply lookup_lt_Some, Hj).
  assert (Hget : forall k cr' b ph,
            <[j := (cr, true, true)]> cf !! k = Some (cr', b, ph) ->
            (k = j /\ cr' = cr /\ b = true /\ ph = true) \/
            (k <> j /\ cf !! k = Some (cr', b, ph))).
  { intros k cr' b ph H. destruct (decide (k = j)) as [->|Hne].
    - rewrite list_lookup_insert_eq in H by exact Hlt.
      injection H as <- <- <-. left. auto.
    - rewrite list_lookup_insert_ne in H by auto. right. auto. }
  split; auto.
  - intros k cr' b ph H. apply Hget in H as [(_ & _ & -> & ->)|[_ H]]; eauto.
  - intros k cr' b ph H. apply Hget in H as [(_ & -> & _)|[_ H]]; eauto.
  - intros k cr' ph H. apply Hget in H as [(_ & -> & _)|[_ H]]; eauto.
    exists i1, ph1, i2, ph2, b1, b2. repeat split; auto.
    apply orb_true_iff, Hor.
Qed.

(** The functions that do not touch rooms or corridors. *)

Lemma MainJs_checkCollisions_level env g :
  MainJs_level (MainJs.checkCollisions env g) = MainJs_level g.
Proof.
  unfold MainJs.checkCollisions.
  set (g1 := MainJs.forEach _ _ g).
  assert (H1 : MainJs_level g1 = MainJs_level g).
  { subst g1. apply MainJs_forEach_ind; [|reflexivity].
    intros i g' IH. unfold MainJs.checkCore.
    destruct (MainJs.dataCores g' !! i) as [core|]; [|exact IH].
    destruct (core_collected core); [exact IH|].
    destruct (ltb _ 2); [|exact IH].
    unfold MainJs.collectCore, MainJs.updateHUD. simpl.
    destruct (MainJs.gameActive g'); exact IH. }
  destruct (MainJs.exitPortal g1); [|exact H1].
  destruct (ltb _ 3); exact H1.
Qed.

Lemma MainJs_updatePlayer_level env f g :
  MainJs_level (MainJs.updatePlayer env f g) = MainJs_level g.
Proof.
  unfold MainJs.updatePlayer. destruct (negb _); [reflexivity|].
  unfold MainJs.voidCheck, MainJs.moveAndCollide.
  destruct (ltb _ _).
  - change (MainJs_level (MainJs.endGame ?w ?m ?h)) with (MainJs_level h).
    rewrite MainJs_checkCollisions_level. reflexivity.
  - rewrite MainJs_checkCollisions_level. reflexivity.
Qed.

Lemma MainJs_updateHUD_level env g :
  MainJs_level (MainJs.updateHUD env g) = MainJs_level g.
Proof. unfold MainJs.updateHUD. destruct (MainJs.gameActive g); reflexivity. Qed.

Lemma MainJs_animateCore_level env dt i g :
  MainJs_level (MainJs.animateCore env dt i g) = MainJs_level g.
Proof.
  unfold MainJs.animateCore.
  destruct (MainJs.dataCores g !! i) as [core|]; [|reflexivity].
  destruct (negb _); reflexivity.
Qed.

Lemma MainJs_animatePortal_level env dt g :
  MainJs_level (MainJs.animatePortal env dt g) = MainJs_level g.
Proof.
  unfold MainJs.animatePortal. destruct (MainJs.exitPortal g); reflexivity.
Qed.

Lemma MainJs_createDebrisEffect_level env position g :
  MainJs_level (MainJs.createDebrisEffect env position g) = MainJs_level g.
Proof.
  unfold MainJs.createDebrisEffect. cbn [MainJs.random].
  set (g0 := MainJs.set_randomDraws g _).
  change (MainJs_level g) with (MainJs_level g0).
  generalize (Z.to_nat (10 + Zfloor (Math_random env (MainJs.randomDraws g) * 6))).
  intros n. induction n as [|n IH]; [reflexivity|].
  cbn [Nat.iter]. rewrite <- IH. reflexivity.
Qed.

Lemma MainJs_updateDebrisParticles_level env dt g :
  MainJs_level (MainJs.updateDebrisParticles env dt g) = MainJs_level g.
Proof. reflexivity. Qed.

Lemma MainJs_onClick_level env g :
  MainJs_level (MainJs.onClick env g) = MainJs_level g.
Proof. unfold MainJs.onClick. destruct (negb _); reflexivity. Qed.

(** The functions that move rooms and corridors but keep their flags. *)

Lemma driftRoom_flags off r : roomFlags (MainJs.driftRoom off r) = roomFlags r.
Proof. unfold MainJs.driftRoom. destruct (negb _); reflexivity. Qed.

Lemma driftCorridor_flags off c :
  corridorFlags (MainJs.driftCorridor off c) = corridorFlags c.
Proof. unfold MainJs.driftCorridor. destruct (negb _); reflexivity. Qed.

Lemma collapseStepRoom_flags spin elapsed r :
  roomFlags (collapseStepRoom spin elapsed r) = roomFlags r.
Proof.
  unfold collapseStepRoom, roomFlags.
  destruct (room_collapsePhase r) as [[|]|] eqn:E; [| |rewrite E; reflexivity].
  - destruct (elapsed <? 1000)%Z; cbn; rewrite ?E; reflexivity.
  - cbn. rewrite E. reflexivity.
Qed.

Lemma collapseStepCorridor_flags elapsed c :
  corridorFlags (MainJs.collapseStepCorridor elapsed c) = corridorFlags c.
Proof.
  unfold MainJs.collapseStepCorridor, corridorFlags.
  destruct (MainJs.corridor_collapsePhase c) as [[|]|] eqn:E;
    [| |rewrite E; reflexivity].
  - destruct (elapsed <? 500)%Z; cbn; rewrite ?E; reflexivity.
  - cbn. rewrite E. reflexivity.
Qed.

Lemma MainJs_updateMapMovement_Inv env dt g :
  MainJs_Inv g -> MainJs_Inv (MainJs.updateMapMovement env dt g).
Proof.
  unfold MainJs_Inv, MainJs.updateMapMovement.
  destruct (negb _); [auto|]. cbn.
  rewrite !map_map.
  rewrite (map_ext _ roomFlags (driftRoom_flags _)).
  rewrite (map_ext _ corridorFlags (driftCorridor_flags _)). auto.
Qed.

Lemma MainJs_updateCollapsingRooms_Inv env g :
  MainJs_Inv g -> MainJs_Inv (MainJs.updateCollapsingRooms env g).
Proof.
  unfold MainJs.updateCollapsingRooms. apply MainJs_forEach_ind.
  intros i g' H. unfold MainJs.updateCollapsingRoom.
  destruct (MainJs.rooms g' !! i) as [room|] eqn:E; [|exact H].
  unfold MainJs_Inv in *. cbn.
  rewrite (map_insert_same roomFlags _ _ room); auto.
  apply collapseStepRoom_flags.
Qed.

Lemma MainJs_updateCollapsingCorridors_Inv env g :
  MainJs_Inv g -> MainJs_Inv (MainJs.updateCollapsingCorridors env g).
Proof.
  unfold MainJs.updateCollapsingCorridors. apply MainJs_forEach_ind.
  intros i g' H. unfold MainJs.updateCollapsingCorridor.
  destruct (MainJs.corridors g' !! i) as [c|] eqn:E; [|exact H].
  unfold MainJs_Inv in *. cbn.
  rewrite (map_insert_same corridorFlags _ _ c); auto.
  apply collapseStepCorridor_flags.
Qed.

Lemma MainJs_Inv_level g g' :
  MainJs_level g' = MainJs_level g -> MainJs_Inv g -> MainJs_Inv g'.
Proof.
  unfold MainJs_level, MainJs_Inv. intros E. injection E as -> ->. auto.
Qed.

Lemma MainJs_forEachM_total (P : MainJs.Game -> Prop) f l g :
  (forall i g, P g -> exists g', f i g = Some g' /\ P g') ->
  P g -> exists g', MainJs.forEachM f l g = Some g' /\ P g'.
Proof.
  intros Hf. revert g. induction l as [|i l IH]; intros g H; simpl.
  - eauto.
  - destruct (Hf i g H) as (g1 & -> & H1). simpl. apply IH, H1.
Qed.

Lemma MainJs_collapseCorridorIfConnected_step env roomIndex j g :
  MainJs_Inv g ->
  exists g', MainJs.collapseCorridorIfConnected env roomIndex j g = Some g'
             /\ MainJs_Inv g'.
Proof.
  intros H. unfold MainJs.collapseCorridorIfConnected.
  destruct (MainJs.corridors g !! j) as [c|] eqn:Ej; [|eauto].
  destruct (MainJs.corridor_isCollapsed c) eqn:Ec; [eauto|].
  destruct (MainJs.includes _ _); [|eauto].
  destruct (MainJs.corridor_connectedRooms c) as [room1 room2] eqn:Ecr.
  assert (Hf : map corridorFlags (MainJs.corridors g) !! j =
               Some ((room1, room2), false, false)).
  { rewrite lookup_map, Ej. cbn. unfold corridorFlags. rewrite Ecr, Ec.
    pose proof (inv_corridor_phase _ _ H j (room1, room2) false
                  (truthy (MainJs.corridor_collapsePhase c))) as Hp.
    rewrite Hp; [reflexivity|].
    rewrite lookup_map, Ej. cbn. unfold corridorFlags. rewrite Ecr, Ec.
    reflexivity. }
  destruct (inv_connected _ _ H _ _ _ _ Hf) as [L1 L2].
  rewrite length_map in L1, L2. cbn [fst snd] in L1, L2.
  destruct (lookup_lt_is_Some_2 _ _ L1) as [r1 E1].
  destruct (lookup_lt_is_Some_2 _ _ L2) as [r2 E2].
  rewrite E1. cbn. rewrite E2. cbn.
  destruct (room_isCollapsed r1 || room_isCollapsed r2) eqn:Eor; [|eauto].
  eexists. split; [reflexivity|].
  unfold MainJs_Inv in *. cbn. rewrite map_insert.
  change (corridorFlags (MainJs.corridor_collapse c _ _))
    with (MainJs.corridor_connectedRooms c, true, true).
  rewrite Ecr.
  eapply (FlagsInv_collapse_corridor _ _ j (room1, room2)
            (room_index r1) (truthy (room_collapsePhase r1))
            (room_index r2) (truthy (room_collapsePhase r2))
            (room_isCollapsed r1) (room_isCollapsed r2)); eauto.
  - rewrite lookup_map. cbn. rewrite E1. reflexivity.
  - rewrite lookup_map. cbn. rewrite E2. reflexivity.
Qed.

Lemma MainJs_collapseConnectedCorridors_step env roomIndex g :
  MainJs_Inv g ->
  exists g', MainJs.collapseConnectedCorridors env roomIndex g = Some g'
             /\ MainJs_Inv g'.
Proof.
  intros H. unfold MainJs.collapseConnectedCorridors.
  apply MainJs_forEachM_total; [|exact H].
  intros j g1. apply MainJs_collapseCorridorIfConnected_step.
Qed.

Lemma MainJs_collapseRoomIfBehind_step env threshold i g :
  MainJs_Inv g ->
  exists g', MainJs.collapseRoomIfBehind env threshold i g = Some g'
             /\ MainJs_Inv g'.
Proof.
  intros H. unfold MainJs.collapseRoomIfBehind.
  destruct (MainJs.rooms g !! i) as [room|] eqn:Ei; [|eauto].
  destruct (room_isCollapsed room) eqn:Ec; [eauto|].
  destruct ((Z.of_nat (room_index room) <? threshold)%Z
            && (0 <? room_index room)%nat) eqn:Eb; [|eauto].
  apply andb_true_iff in Eb as [_ Epos]. apply Nat.ltb_lt in Epos.
  cbn [MainJs.now MainJs.random].
  apply MainJs_collapseConnectedCorridors_step.
  eapply MainJs_Inv_level; [apply MainJs_createDebrisEffect_level|].
  unfold MainJs_Inv in *. cbn. rewrite map_insert.
  change (roomFlags (MainJs.room_collapse room _ _))
    with (room_index room, true, true).
  apply FlagsInv_collapse_room; auto.
  rewrite lookup_map, Ei. cbn. unfold roomFlags. rewrite Ec.
  rewrite (inv_room_phase _ _ H i (room_index room) false
             (truthy (room_collapsePhase room))); [reflexivity|].
  rewrite lookup_map, Ei. cbn. unfold roomFlags. rewrite Ec. reflexivity.
Qed.

Lemma MainJs_collapseRoomsBehindPlayer_step env g :
  MainJs_Inv g ->
  exists g', MainJs.collapseRoomsBehindPlayer env g = Some g' /\ MainJs_Inv g'.
Proof.
  intros H. unfold MainJs.collapseRoomsBehindPlayer.
  apply MainJs_forEachM_total; [|exact H].
  intros i g1. apply MainJs_collapseRoomIfBehind_step.
Qed.

(** A frame of a state that satisfies the invariant does not throw, and
    the invariant holds after it. *)
Lemma MainJs_animate_step env f g :
  MainJs_Inv g ->
  exists g', MainJs.animate env f g = Some g' /\ MainJs_Inv g'.
Proof.
  intros H. unfold MainJs.animate.
  destruct (MainJs.gameActive g); [|eauto].
  set (g1 := MainJs.animatePortal _ _ _).
  assert (H1 : MainJs_Inv g1).
  { subst g1.
    eapply MainJs_Inv_level; [apply MainJs_animatePortal_level|].
    apply MainJs_forEach_ind.
    { intros i g' H'. eapply MainJs_Inv_level;
        [apply MainJs_animateCore_level|exact H']. }
    eapply MainJs_Inv_level; [apply MainJs_updateHUD_level|].
    eapply MainJs_Inv_level; [apply MainJs_updatePlayer_level|].
    apply MainJs_updateMapMovement_Inv, H. }
  destruct (MainJs_collapseRoomsBehindPlayer_step env g1 H1) as (g2 & -> & H2).
  cbn. eexists. split; [reflexivity|].
  eapply MainJs_Inv_level; [apply MainJs_updateDebrisParticles_level|].
  apply MainJs_updateCollapsingCorridors_Inv, MainJs_updateCollapsingRooms_Inv, H2.
Qed.

Lemma MainJs_init_Inv : MainJs_Inv MainJs.init.
Proof.
  unfold MainJs_Inv, MainJs.init. cbn [MainJs.rooms MainJs.corridors].
  rewrite !map_map.
  assert (Hr : forall k x, map (fun i => roomFlags (MainJs.levelRoom i))
                 (seq 0 MainJs.numRooms) !! k = Some x ->
               x = (k, false, false) /\ (k < MainJs.numRooms)%nat).
  { intros k x Hk. rewrite lookup_map in Hk.
    destruct (seq 0 MainJs.numRooms !! k) as [i|] eqn:E; [|discriminate].
    apply lookup_seq in E as [-> Hlt]. injection Hk as <-. auto. }
  assert (Hc : forall k x, map (fun i => corridorFlags (MainJs.levelCorridor i))
                 (seq 0 (MainJs.numRooms - 1)) !! k = Some x ->
               x = ((k, S k), false, false) /\ (k < MainJs.numRooms - 1)%nat).
  { intros k x Hk. rewrite lookup_map in Hk.
    destruct (seq 0 (MainJs.numRooms - 1) !! k) as [i|] eqn:E; [|discriminate].
    apply lookup_seq in E as [-> Hlt]. injection Hk as <-. auto. }
  split.
  - intros k i b ph Hk. apply Hr in Hk as [E _]. congruence.
  - intros k cr b ph Hk. apply Hc in Hk as [E _]. congruence.
  - intros k cr b ph Hk. apply Hc in Hk as [E Hlt]. injection E as E1 E2 E3.
    subst cr. rewrite length_map, length_seq. cbn [fst snd]. unfold MainJs.numRooms in *.
    lia.
  - intros k cr ph Hk. apply Hc in Hk as [E _]. discriminate.
  - intros k b ph Hk. apply Hr in Hk as [E _]. congruence.
  - reflexivity.
Qed.

Lemma MainJs_reachable_Inv env g : MainJs_reachable env g -> MainJs_Inv g.
Proof.
  induction 1 as [|g Hg IH|f g g' Hg IH Hstep].
  - apply MainJs_init_Inv.
  - eapply MainJs_Inv_level; [apply MainJs_onClick_level|exact IH].
  - destruct (MainJs_animate_step env f g IH) as (g1 & E & H1).
    rewrite Hstep in E. injection E as <-. exact H1.
Qed.

Lemma MainJs_forEachM_ind (P : MainJs.Game -> Prop) f l : forall g g',
  (forall i g g', P g -> f i g = Some g' -> P g') ->
  P g -> MainJs.forEachM f l g = Some g' -> P g'.
Proof.
  induction l as [|i l IH]; intros g g' Hf H; simpl.
  - intros E. injection E as <-. exact H.
  - destruct (f i g) as [g1|] eqn:E1; [|discriminate]. simpl.
    apply IH; eauto.
Qed.

(** The flags are kept by everything in a frame but
    [collapseRoomsBehindPlayer]. *)

Lemma MainJs_flags_level g g' :
  MainJs_level g' = MainJs_level g -> MainJs_flags g' = MainJs_flags g.
Proof.
  unfold MainJs_level, MainJs_flags. intros E. injection E as -> ->. reflexivity.
Qed.

Lemma MainJs_updateMapMovement_flags env dt g :
  MainJs_flags (MainJs.updateMapMovement env dt g) = MainJs_flags g.
Proof.
  unfold MainJs_flags, MainJs.updateMapMovement.
  destruct (negb _); [auto|]. cbn.
  rewrite !map_map.
  rewrite (map_ext _ roomFlags (driftRoom_flags _)).
  rewrite (map_ext _ corridorFlags (driftCorridor_flags _)). auto.
Qed.

Lemma MainJs_updateCollapsingRooms_flags env g :
  MainJs_flags (MainJs.updateCollapsingRooms env g) = MainJs_flags g.
Proof.
  unfold MainJs.updateCollapsingRooms.
  apply (MainJs_forEach_ind (fun g' => MainJs_flags g' = MainJs_flags g));
    [|reflexivity].
  intros i g' H. unfold MainJs.updateCollapsingRoom.
  destruct (MainJs.rooms g' !! i) as [room|] eqn:E; [|exact H].
  rewrite <- H. unfold MainJs_flags. cbn. f_equal.
  apply (map_insert_same roomFlags _ _ room); auto.
  apply collapseStepRoom_flags.
Qed.

Lemma MainJs_updateCollapsingCorridors_flags env g :
  MainJs_flags (MainJs.updateCollapsingCorridors env g) = MainJs_flags g.
Proof.
  unfold MainJs.updateCollapsingCorridors.
  apply (MainJs_forEach_ind (fun g' => MainJs_flags g' = MainJs_flags g));
    [|reflexivity].
  intros i g' H. unfold MainJs.updateCollapsingCorridor.
  destruct (MainJs.corridors g' !! i) as [c|] eqn:E; [|exact H].
  rewrite <- H. unfold MainJs_flags. cbn. f_equal.
  apply (map_insert_same corridorFlags _ _ c); auto.
  apply collapseStepCorridor_flags.
Qed.

Lemma MainJs_before_collapse_flags env f g :
  MainJs_flags
    (MainJs.animatePortal env (deltaTime f)
       (MainJs.forEach (MainJs.animateCore env (deltaTime f))
          (seq 0 (List.length (MainJs.dataCores
             (MainJs.updateHUD env
                (MainJs.updatePlayer env f
                   (MainJs.updateMapMovement env (deltaTime f) g))))))
          (MainJs.updateHUD env
             (MainJs.updatePlayer env f
                (MainJs.updateMapMovement env (deltaTime f) g))))) =
  MainJs_flags g.
Proof.
  rewrite (MainJs_flags_level _ _ (MainJs_animatePortal_level _ _ _)).
  apply (MainJs_forEach_ind (fun g' => MainJs_flags g' = MainJs_flags g)).
  { intros i g' H.
    rewrite (MainJs_flags_level _ _ (MainJs_animateCore_level _ _ _ _)).
    exact H. }
  rewrite (MainJs_flags_level _ _ (MainJs_updateHUD_level _ _)).
  rewrite (MainJs_flags_level _ _ (MainJs_updatePlayer_level _ _ _)).
  apply MainJs_updateMapMovement_flags.
Qed.



Lemma MainJs_collapseConnectedCorridors_rooms env roomIndex g g' :
  MainJs.collapseConnectedCorridors env roomIndex g = Some g' ->
  MainJs.rooms g' = MainJs.rooms g.
Proof.
  unfold MainJs.collapseConnectedCorridors.
  apply (MainJs_forEachM_ind (fun g1 => MainJs.rooms g1 = MainJs.rooms g));
    [|reflexivity].
  intros j g1 g2 H. unfold MainJs.collapseCorridorIfConnected.
  destruct (MainJs.corridors g1 !! j) as [c|];
    [|intros E; injection E as <-; exact H].
  destruct (MainJs.corridor_isCollapsed c);
    [intros E; injection E as <-; exact H|].
  destruct (MainJs.includes _ _); [|intros E; injection E as <-; exact H].
  destruct (MainJs.corridor_connectedRooms c) as [room1 room2].
  destruct (MainJs.rooms g1 !! room1) as [r1|]; [|discriminate]. cbn.
  destruct (MainJs.rooms g1 !! room2) as [r2|]; [|discriminate]. cbn.
  destruct (room_isCollapsed r1 || room_isCollapsed r2);
    intros E; injection E as <-; exact H.
Qed.







(** ** The start room *)

Lemma Part000_checkCollisions_rooms env g :
  Part000.rooms (Part000.checkCollisions env g) = Part000.rooms g.
Proof.
  unfold Part000.checkCollisions.
  set (g1 := Part000.forEach _ _ g).
  assert (H1 : Part000.rooms g1 = Part000.rooms g).
  { subst g1. apply Part000_forEach_ind; [|reflexivity].
    intros i g' IH. unfold Part000.checkCore.
    destruct (Part000.dataCores g' !! i) as [core|]; [|exact IH].
    destruct (core_collected core); [exact IH|].
    destruct (ltb _ 2); [|exact IH].
    unfold Part000.collectCore, Part000.updateHUD. simpl.
    destruct (Part000.gameActive g'); exact IH. }
  destruct (Part000.exitPortal g1); [|exact H1].
  destruct (ltb _ 3); [|exact H1].
  destruct (2 <=? _)%nat; exact H1.
Qed.

Lemma Part000_updatePlayer_rooms env f g :
  Part000.rooms (Part000.updatePlayer env f g) = Part000.rooms g.
Proof.
  unfold Part000.updatePlayer. destruct (negb _); [reflexivity|].
  unfold Part000.voidCheck, Part000.moveAndCollide.
  destruct (ltb _ _).
  - change (Part000.rooms (Part000.endGame ?w ?m ?h)) with (Part000.rooms h).
    rewrite Part000_checkCollisions_rooms. reflexivity.
  - rewrite Part000_checkCollisions_rooms. reflexivity.
Qed.

Lemma Part000_updateHUD_rooms env g :
  Part000.rooms (Part000.updateHUD env g) = Part000.rooms g.
Proof. unfold Part000.updateHUD. destruct (Part000.gameActive g); reflexivity. Qed.

Lemma Part000_animateCore_rooms env dt i g :
  Part000.rooms (Part000.animateCore env dt i g) = Part000.rooms g.
Proof.
  unfold Part000.animateCore.
  destruct (Part000.dataCores g !! i) as [core|]; [|reflexivity].
  destruct (negb _); reflexivity.
Qed.

Lemma Part000_animatePortal_rooms env dt g :
  Part000.rooms (Part000.animatePortal env dt g) = Part000.rooms g.
Proof.
  unfold Part000.animatePortal. destruct (Part000.exitPortal g); reflexivity.
Qed.

Lemma Part000_onClick_rooms env g :
  Part000.rooms (Part000.onClick env g) = Part000.rooms g.
Proof. unfold Part000.onClick. destruct (negb _); reflexivity. Qed.

Lemma RoomsInv_insert rs i r r' :
  RoomsInv rs -> rs !! i = Some r ->
  room_index r' = room_index r ->
  truthy (room_collapsePhase r') = room_isCollapsed r' ->
  (room_isCollapsed r' = room_isCollapsed r \/ room_index r <> 0%nat) ->
  RoomsInv (<[i := r']> rs).
Proof.
  intros [I1 I2 (r0 & I3 & I4)] Hi Hidx Hph Hor.
  assert (Hlt : (i < List.length rs)%nat) by (eapply lookup_lt_Some, Hi).
  split.
  - intros k x Hk. destruct (decide (k = i)) as [->|Hne].
    + rewrite list_lookup_insert_eq in Hk by exact Hlt. injection Hk as <-.
      exact Hph.
    + rewrite list_lookup_insert_ne in Hk by auto. eauto.
  - intros k x Hk H0. destruct (decide (k = i)) as [->|Hne].
    + rewrite list_lookup_insert_eq in Hk by exact Hlt. injection Hk as <-.
      rewrite Hidx in H0. destruct Hor as [->|Hor]; [eauto|contradiction].
    + rewrite list_lookup_insert_ne in Hk by auto. eauto.
  - destruct (decide (0%nat = i)) as [<-|Hne].
    + rewrite list_lookup_insert_eq by exact Hlt. exists r'. split; [reflexivity|].
      rewrite Hi in I3. injection I3 as <-. congruence.
    + rewrite list_lookup_insert_ne by auto. eauto.
Qed.

Lemma Part000_updateCollapsingRooms_Inv env g :
  Part000_Inv g -> Part000_Inv (Part000.updateCollapsingRooms env g).
Proof.
  unfold Part000.updateCollapsingRooms. apply Part000_forEach_ind.
  intros i g' H. unfold Part000.updateCollapsingRoom.
  destruct (Part000.rooms g' !! i) as [room|] eqn:E; [|exact H].
  unfold Part000_Inv in *. cbn.
  pose proof (collapseStepRoom_flags Part000.spinRoom
                (Date_now env (Part000.clockReads g')
                 - room_collapseStartTime room) room) as Hf.
  unfold roomFlags in Hf. injection Hf as F1 F2 F3.
  eapply RoomsInv_insert; eauto.
  rewrite F3, F2. eapply grid_room_phase; eauto.
Qed.

(** The candidates of [collapseRandomRoom] are places of rooms that stand
    and whose index is not 0. *)
Lemma In_availableFrom rs : forall j i,
  In i (Part000.availableFrom j rs) ->
  exists r, rs !! (i - j)%nat = Some r /\ (j <= i)%nat /\
            room_isCollapsed r = false /\ room_index r <> 0%nat.
Proof.
  induction rs as [|a rs IH]; intros j i H; simpl in H; [destruct H|].
  assert (Hrest : In i (Part000.availableFrom (S j) rs) ->
            exists r, (a :: rs) !! (i - j)%nat = Some r /\ (j <= i)%nat /\
                      room_isCollapsed r = false /\ room_index r <> 0%nat).
  { intros H'. destruct (IH _ _ H') as (r & E & Hle & Hc & Hi).
    exists r. replace (i - j)%nat with (S (i - S j)) by lia.
    repeat split; auto. lia. }
  destruct (Part000.isAvailable a) eqn:Ea; [|auto].
  destruct H as [<-|H]; [|auto].
  exists a. rewrite Nat.sub_diag. unfold Part000.isAvailable in Ea.
  apply andb_true_iff in Ea as [E1 E2].
  apply negb_true_iff in E1. apply negb_true_iff, Nat.eqb_neq in E2.
  repeat split; auto.
Qed.

Lemma at_In {A} (l : list A) k (a : A) : Part000.at_ l k = Some a -> In a l.
Proof.
  unfold Part000.at_. destruct (k <? 0)%Z; [discriminate|].
  intros H. apply list_elem_of_In, list_elem_of_lookup. eauto.
Qed.

Lemma Part000_collapseRandomRoom_Inv env g g' :
  Part000_Inv g -> Part000.collapseRandomRoom env g = Some g' -> Part000_Inv g'.
Proof.
  intros H. unfold Part000.collapseRandomRoom.
  destruct (_ =? 0)%nat; [intros E; injection E as <-; exact H|].
  cbn [Part000.random].
  destruct (Part000.at_ _ _) as [i|] eqn:Ei; [|discriminate]. cbn.
  apply at_In, In_availableFrom in Ei as (r & Er & _ & Hc & Hidx).
  rewrite Nat.sub_0_r in Er. rewrite Er. cbn.
  intros E. injection E as <-. unfold Part000_Inv in *. cbn.
  eapply RoomsInv_insert; eauto.
Qed.

Lemma Part000_animate_Inv env f g g' :
  Part000_Inv g -> Part000.animate env f g = Some g' -> Part000_Inv g'.
Proof.
  intros H. unfold Part000.animate.
  destruct (Part000.gameActive g); [|intros E; injection E as <-; exact H].
  set (g1 := Part000.animatePortal _ _ _).
  assert (H1 : Part000_Inv g1).
  { subst g1. unfold Part000_Inv. rewrite Part000_animatePortal_rooms.
    apply Part000_forEach_ind.
    { intros i g2 H2. rewrite Part000_animateCore_rooms. exact H2. }
    rewrite Part000_updateHUD_rooms, Part000_updatePlayer_rooms. exact H. }
  unfold Part000.collapseOnCountdown. cbn [Part000.now].
  destruct (_ >? _)%Z.
  - destruct (Part000.collapseRandomRoom env _) as [g2|] eqn:E2; [|discriminate].
    cbn [mbind option_bind Part000.now]. intros E. injection E as <-.
    apply Part000_updateCollapsingRooms_Inv.
    change (Part000_Inv g2).
    apply (Part000_collapseRandomRoom_Inv env _ g2) in E2; [exact E2|exact H1].
  - cbn [mbind option_bind]. intros E. injection E as <-.
    apply Part000_updateCollapsingRooms_Inv. exact H1.
Qed.

Lemma Part000_init_Inv : Part000_Inv Part000.init.
Proof.
  split.
  - intros k r Hk. cbn in Hk.
    do 12 (destruct k as [|k]; [injection Hk as <-; reflexivity|]).
    discriminate.
  - intros k r Hk. cbn in Hk.
    do 12 (destruct k as [|k]; [injection Hk as <-; reflexivity|]).
    discriminate.
  - eexists. split; reflexivity.
Qed.

Lemma Part000_reachable_Inv env g : Part000_reachable env g -> Part000_Inv g.
Proof.
  induction 1 as [|g Hg IH|f g g' Hg IH Hstep].
  - apply Part000_init_Inv.
  - unfold Part000_Inv. rewrite Part000_onClick_rooms. exact IH.
  - eapply Part000_animate_Inv; eauto.
Qed.

Lemma pick_in_range (r : R) (n : nat) :
  0 <= r < 1 -> n <> 0%nat -> (0 <= Zfloor (r * INR n) < Z.of_nat n)%Z.
Proof.
  intros [H0 H1] Hn.
  assert (Hpos : 0 < INR n) by (apply lt_0_INR; lia).
  split.
  - apply Zfloor_lub. cbn. nra.
  - apply lt_IZR. rewrite <- INR_IZR_INZ.
    pose proof (Zfloor_bound (r * INR n)) as [Hb _]. nra.
Qed.

Lemma at_total {A} (l : list A) (k : Z) :
  (0 <= k < Z.of_nat (List.length l))%Z -> exists a, Part000.at_ l k = Some a.
Proof.
  intros [H0 H1]. unfold Part000.at_.
  destruct (k <? 0)%Z eqn:E; [apply Z.ltb_lt in E; lia|].
  apply lookup_lt_is_Some_2. lia.
Qed.

(** With a random source in [0, 1) a frame of the grid variant does not
    throw. *)
Lemma Part000_animate_total env f g :
  RandomInRange env -> exists g', Part000.animate env f g = Some g'.
Proof.
  intros Hr. unfold Part000.animate.
  destruct (Part000.gameActive g); [|eauto].
  set (g1 := Part000.animatePortal _ _ _).
  unfold Part000.collapseOnCountdown. cbn [Part000.now].
  destruct (_ >? _)%Z; [|cbn [mbind option_bind]; eauto].
  set (g2 := Part000.set_clockReads g1 _).
  assert (Hc : exists g3, Part000.collapseRandomRoom env g2 = Some g3).
  { unfold Part000.collapseRandomRoom.
    destruct (_ =? 0)%nat eqn:En; [eauto|]. apply Nat.eqb_neq in En.
    cbn [Part000.random].
    destruct (at_total (Part000.availableFrom 0 (Part000.rooms g2))
                (Zfloor (Math_random env (Part000.randomDraws g2)
                         * INR (List.length
                                  (Part000.availableFrom 0 (Part000.rooms g2))))))
      as [i Ei].
    { apply pick_in_range; [apply Hr|exact En]. }
    rewrite Ei. cbn [mbind option_bind].
    apply at_In, In_availableFrom in Ei as (r & Er & _).
    rewrite Nat.sub_0_r in Er.
    change (Part000.rooms (Part000.set_randomDraws g2 _)) with (Part000.rooms g2).
    rewrite Er. cbn [mbind option_bind Part000.now]. eauto. }
  destruct Hc as [g3 ->]. cbn [mbind option_bind Part000.now]. eauto.
Qed.

Lemma intact_of_flags r :
  truthy (room_collapsePhase r) = room_isCollapsed r ->
  room_isCollapsed r = false -> roomState r = Intact.
Proof.
  intros H E. rewrite E in H. unfold roomState.
  destruct (room_collapsePhase r); [discriminate|reflexivity].
Qed.

(** C10.  In every state a session can reach, in both variants, the
    start room is the first room, has index 0, and is intact, as is every
    room with index 0.  In [main.js] the loop body of
    [collapseRoomsBehindPlayer] leaves the state alone at a room with
    index 0; in the grid variant the candidates of [collapseRandomRoom]
    are rooms whose index is not 0.  Frames do not throw: never in
    [main.js], and in the grid variant not when [Math.random] stays in
    [0, 1). *)
Theorem C10_start_room_never_collapses :
  (forall env g, MainJs_reachable env g -> StartRoomIntact (MainJs.rooms g))
  /\
  (forall env g, Part000_reachable env g -> StartRoomIntact (Part000.rooms g))
  /\
  (forall env threshold i g r,
     MainJs.rooms g !! i = Some r -> room_index r = 0%nat ->
     MainJs.collapseRoomIfBehind env threshold i g = Some g)
  /\
  (forall rs i,
     In i (Part000.availableFrom 0 rs) ->
     exists r, rs !! i = Some r /\ room_index r <> 0%nat)
  /\
  (forall env f g,
     MainJs_reachable env g -> exists g', MainJs.animate env f g = Some g')
  /\
  (forall env f g,
     RandomInRange env -> exists g', Part000.animate env f g = Some g').
Proof.
  split; [|split; [|split; [|split; [|split]]]].
  - intros env g Hreach.
    pose proof (MainJs_reachable_Inv env g Hreach) as H. unfold MainJs_Inv in H.
    split.
    + pose proof (inv_first _ _ H) as H0. rewrite lookup_map in H0.
      destruct (MainJs.rooms g !! 0%nat) as [r|]; [|discriminate].
      injection H0 as E _ _. eauto.
    + intros k r Hk H0.
      assert (Hf : map roomFlags (MainJs.rooms g) !! k =
                   Some (0%nat, room_isCollapsed r,
                         truthy (room_collapsePhase r))).
      { rewrite lookup_map, Hk. cbn. unfold roomFlags. rewrite H0. reflexivity. }
      pose proof (inv_start _ _ H _ _ _ Hf) as Hc.
      split; [exact Hc|].
      apply intact_of_flags; [|exact Hc].
      exact (inv_room_phase _ _ H _ _ _ _ Hf).
  - intros env g Hreach.
    destruct (Part000_reachable_Inv env g Hreach) as [I1 I2 I3].
    split; [exact I3|].
    intros k r Hk H0. split; [eauto|].
    apply intact_of_flags; eauto.
  - intros env threshold i g r Hi H0. unfold MainJs.collapseRoomIfBehind.
    rewrite Hi, H0. destruct (room_isCollapsed r); [reflexivity|].
    rewrite andb_false_r. reflexivity.
  - intros rs i H. apply In_availableFrom in H as (r & E & _ & _ & Hi).
    rewrite Nat.sub_0_r in E. eauto.
  - intros env f g Hreach.
    destruct (MainJs_animate_step env f g (MainJs_reachable_Inv env g Hreach))
      as (g' & E & _).
    exists g'. exact E.
  - intros env f g Hr. apply Part000_animate_total, Hr.
Qed.

(** Right after the first click both levels have their start room, and
    the first frame of the grid variant can be drawn. *)
Lemma C10_start_room_after_click :
  (MainJs_reachable env0 mainStarted /\
   StartRoomIntact (MainJs.rooms mainStarted)) /\
  (Part000_reachable env0 gridStarted /\
   StartRoomIntact (Part000.rooms gridStarted)) /\
  (RandomInRange env0 /\
   exists g', Part000.animate env0 frame0 gridStarted = Some g').
Proof.
  assert (R1 : MainJs_reachable env0 mainStarted)
    by (apply MainJs_reach_click, MainJs_reach_init).
  assert (R2 : Part000_reachable env0 gridStarted)
    by (apply Part000_reach_click, Part000_reach_init).
  assert (R3 : RandomInRange env0) by (intros k; cbn; lra).
  split; [|split]; (split; [assumption|]).
  - exact (proj1 C10_start_room_never_collapses env0 mainStarted R1).
  - exact (proj1 (proj2 C10_start_room_never_collapses) env0 gridStarted R2).
  - exact (proj2 (proj2 (proj2 (proj2 (proj2 C10_start_room_never_collapses))))
             env0 frame0 gridStarted R3).
Defined.

(** ** The session clock *)

Lemma MainJs_Later_refl g : MainJs_Later g g.
Proof. unfold MainJs_Later. auto. Qed.

Lemma MainJs_Later_trans g1 g2 g3 :
  MainJs_Later g1 g2 -> MainJs_Later g2 g3 -> MainJs_Later g1 g3.
Proof.
  unfold MainJs_Later. intros (A1 & A2 & A3) (B1 & B2 & B3).
  repeat split; [congruence|lia|auto].
Qed.

Ltac later_step :=
  first [ apply MainJs_Later_refl
        | unfold MainJs_Later; cbn; repeat split; auto; lia ].

Lemma MainJs_forEach_Later f l g :
  (forall i g, MainJs_Later g (f i g)) -> MainJs_Later g (MainJs.forEach f l g).
Proof.
  intros Hf. apply MainJs_forEach_ind; [|apply MainJs_Later_refl].
  intros i g' H. eapply MainJs_Later_trans; [exact H|apply Hf].
Qed.

Lemma MainJs_forEachM_Later f l : forall g g',
  (forall i g g', f i g = Some g' -> MainJs_Later g g') ->
  MainJs.forEachM f l g = Some g' -> MainJs_Later g g'.
Proof.
  induction l as [|i l IH]; intros g g' Hf; simpl.
  - intros E. injection E as <-. apply MainJs_Later_refl.
  - destruct (f i g) as [g1|] eqn:E1; [|discriminate]. simpl. intros E.
    eapply MainJs_Later_trans; [eapply Hf, E1|]. eapply IH; eauto.
Qed.

Lemma MainJs_updateHUD_Later env g : MainJs_Later g (MainJs.updateHUD env g).
Proof. unfold MainJs.updateHUD. destruct (MainJs.gameActive g); later_step. Qed.

Lemma MainJs_updateMapMovement_Later env dt g :
  MainJs_Later g (MainJs.updateMapMovement env dt g).
Proof. unfold MainJs.updateMapMovement. destruct (negb _); later_step. Qed.

Lemma MainJs_checkCollisions_Later env g :
  MainJs_Later g (MainJs.checkCollisions env g).
Proof.
  unfold MainJs.checkCollisions.
  set (g1 := MainJs.forEach _ _ g).
  assert (H1 : MainJs_Later g g1).
  { subst g1. apply MainJs_forEach_Later. intros i g'.
    unfold MainJs.checkCore.
    destruct (MainJs.dataCores g' !! i) as [core|]; [|later_step].
    destruct (core_collected core); [later_step|].
    destruct (ltb _ 2); [|later_step].
    unfold MainJs.collectCore.
    eapply MainJs_Later_trans; [|apply MainJs_updateHUD_Later]. later_step. }
  destruct (MainJs.exitPortal g1); [|exact H1].
  destruct (ltb _ 3); [|exact H1].
  eapply MainJs_Later_trans; [exact H1|].
  unfold MainJs_Later. cbn. repeat split; auto. discriminate.
Qed.

Lemma MainJs_updatePlayer_Later env f g :
  MainJs_Later g (MainJs.updatePlayer env f g).
Proof.
  unfold MainJs.updatePlayer. destruct (negb _); [later_step|].
  assert (H : MainJs_Later g (MainJs.moveAndCollide env f g)).
  { unfold MainJs.moveAndCollide.
    eapply MainJs_Later_trans; [|apply MainJs_checkCollisions_Later].
    later_step. }
  unfold MainJs.voidCheck. destruct (ltb _ _); [|exact H].
  eapply MainJs_Later_trans; [exact H|].
  unfold MainJs_Later. cbn. repeat split; auto. discriminate.
Qed.

Lemma MainJs_animateCore_Later env dt i g :
  MainJs_Later g (MainJs.animateCore env dt i g).
Proof.
  unfold MainJs.animateCore.
  destruct (MainJs.dataCores g !! i) as [core|]; [|later_step].
  destruct (negb _); later_step.
Qed.

Lemma MainJs_animatePortal_Later env dt g :
  MainJs_Later g (MainJs.animatePortal env dt g).
Proof.
  unfold MainJs.animatePortal. destruct (MainJs.exitPortal g); later_step.
Qed.

Lemma MainJs_spawnParticle_Later env position g :
  MainJs_Later g (MainJs.spawnParticle env position g).
Proof.
  unfold MainJs_Later. split; [reflexivity|]. split; [|exact (fun H => H)].
  change (MainJs.clockReads g <= S (MainJs.clockReads g))%nat. lia.
Qed.

Lemma MainJs_createDebrisEffect_Later env position g :
  MainJs_Later g (MainJs.createDebrisEffect env position g).
Proof.
  unfold MainJs.createDebrisEffect. cbn [MainJs.random].
  set (g0 := MainJs.set_randomDraws g _).
  assert (H0 : MainJs_Later g g0) by (subst g0; later_step).
  eapply MainJs_Later_trans; [exact H0|]. clear H0.
  generalize (Z.to_nat (10 + Zfloor (Math_random env (MainJs.randomDraws g) * 6))).
  intros n. induction n as [|n IH]; [later_step|].
  cbn [Nat.iter]. eapply MainJs_Later_trans; [exact IH|].
  apply MainJs_spawnParticle_Later.
Qed.

Lemma MainJs_collapseConnectedCorridors_Later env roomIndex g g' :
  MainJs.collapseConnectedCorridors env roomIndex g = Some g' ->
  MainJs_Later g g'.
Proof.
  unfold MainJs.collapseConnectedCorridors. apply MainJs_forEachM_Later.
  intros j g1 g2. unfold MainJs.collapseCorridorIfConnected.
  destruct (MainJs.corridors g1 !! j) as [c|];
    [|intros E; injection E as <-; later_step].
  destruct (MainJs.corridor_isCollapsed c);
    [intros E; injection E as <-; later_step|].
  destruct (MainJs.includes _ _); [|intros E; injection E as <-; later_step].
  destruct (MainJs.corridor_connectedRooms c) as [room1 room2].
  destruct (MainJs.rooms g1 !! room1) as [r1|]; [|discriminate]. cbn.
  destruct (MainJs.rooms g1 !! room2) as [r2|]; [|discriminate]. cbn.
  destruct (room_isCollapsed r1 || room_isCollapsed r2);
    intros E; injection E as <-; later_step.
Qed.

Lemma MainJs_collapseRoomsBehindPlayer_Later env g g' :
  MainJs.collapseRoomsBehindPlayer env g = Some g' -> MainJs_Later g g'.
Proof.
  unfold MainJs.collapseRoomsBehindPlayer. apply MainJs_forEachM_Later.
  intros i g1 g2. unfold MainJs.collapseRoomIfBehind.
  destruct (MainJs.rooms g1 !! i) as [room|];
    [|intros E; injection E as <-; later_step].
  destruct (room_isCollapsed room);
    [intros E; injection E as <-; later_step|].
  destruct (_ && _); [|intros E; injection E as <-; later_step].
  cbn [MainJs.now MainJs.random]. intros E.
  apply MainJs_collapseConnectedCorridors_Later in E.
  eapply MainJs_Later_trans; [|exact E].
  eapply MainJs_Later_trans; [|apply MainJs_createDebrisEffect_Later].
  later_step.
Qed.

Lemma MainJs_updateCollapsingRooms_Later env g :
  MainJs_Later g (MainJs.updateCollapsingRooms env g).
Proof.
  apply MainJs_forEach_Later. intros i g'. unfold MainJs.updateCollapsingRoom.
  destruct (MainJs.rooms g' !! i); later_step.
Qed.

Lemma MainJs_updateCollapsingCorridors_Later env g :
  MainJs_Later g (MainJs.updateCollapsingCorridors env g).
Proof.
  apply MainJs_forEach_Later. intros i g'. unfold MainJs.updateCollapsingCorridor.
  destruct (MainJs.corridors g' !! i); later_step.
Qed.

Lemma MainJs_animate_Later env f g g' :
  MainJs.animate env f g = Some g' -> MainJs_Later g g'.
Proof.
  unfold MainJs.animate.
  destruct (MainJs.gameActive g); [|intros E; injection E as <-; later_step].
  set (g1 := MainJs.animatePortal _ _ _).
  assert (H1 : MainJs_Later g g1).
  { subst g1.
    eapply MainJs_Later_trans; [|apply MainJs_animatePortal_Later].
    eapply MainJs_Later_trans;
      [|apply MainJs_forEach_Later; intros; apply MainJs_animateCore_Later].
    eapply MainJs_Later_trans; [|apply MainJs_updateHUD_Later].
    eapply MainJs_Later_trans; [|apply MainJs_updatePlayer_Later].
    apply MainJs_updateMapMovement_Later. }
  destruct (MainJs.collapseRoomsBehindPlayer env g1) as [g2|] eqn:E2;
    [|discriminate].
  cbn [mbind option_bind]. intros E. injection E as <-.
  apply MainJs_collapseRoomsBehindPlayer_Later in E2.
  eapply MainJs_Later_trans; [exact H1|].
  eapply MainJs_Later_trans; [exact E2|].
  eapply MainJs_Later_trans; [apply MainJs_updateCollapsingRooms_Later|].
  eapply MainJs_Later_trans; [apply MainJs_updateCollapsingCorridors_Later|].
  unfold MainJs.updateDebrisParticles. later_step.
Qed.

Lemma MainJs_reachable_Started env g :
  MainJs_reachable env g -> MainJs_Started env g.
Proof.
  induction 1 as [|g Hg IH|f g g' Hg IH Hstep].
  - intros H. discriminate.
  - unfold MainJs.onClick. destruct (MainJs.gameActive g) eqn:Ea; cbn.
    + exact IH.
    + intros _. exists (MainJs.clockReads g). cbn. split; [lia|reflexivity].
  - apply MainJs_animate_Later in Hstep as (L1 & L2 & L3).
    intros Ha. destruct (IH (L3 Ha)) as (k & Hk & Ek).
    exists k. split; [lia|congruence].
Qed.

(** C7.  The drift intensity that [updateMapMovement] uses is
    [Math.min(gameTime / 30, 1)].  For a clock reading that is not before
    the start of the session it equals clamp(elapsed seconds / 30, 0, 1);
    at elapsed time 0 it is 0 and the offset is the zero vector; it is
    non-decreasing in the clock reading; from 30 seconds on it is 1.  In an
    active session [updateMapMovement] stores the offset computed with that
    intensity from the clock reading of the tick; and with a clock that
    never runs backwards, at every tick of every session that reading is
    not before the start of the session, so that the intensity of the tick
    is the clamp. *)
Theorem C7_drift_intensity (start : Z) :
  (forall t, (start <= t)%Z ->
     MainJs.driftIntensity start t =
       clamp (elapsedSessionSeconds start t / 30) 0 1) /\
  MainJs.driftIntensity start start = 0 /\
  (forall sway,
     MainJs.driftOffset sway (MainJs.driftIntensity start start) = zero3) /\
  (forall t1 t2, (t1 <= t2)%Z ->
     MainJs.driftIntensity start t1 <= MainJs.driftIntensity start t2) /\
  (forall t, (start + 30000 <= t)%Z -> MainJs.driftIntensity start t = 1) /\
  (forall env dt g,
     MainJs.gameActive g = true ->
     MainJs.gameStartTime g = start ->
     MainJs.offset (MainJs.mapDrift (MainJs.updateMapMovement env dt g)) =
       MainJs.driftOffset (MainJs.swayTime (MainJs.mapDrift g) + dt)
         (MainJs.driftIntensity start (Date_now env (MainJs.clockReads g)))) /\
  (forall env dt g,
     MonotonicClock env -> MainJs_reachable env g ->
     MainJs.gameActive g = true ->
     MainJs.gameStartTime g = start ->
     (start <= Date_now env (MainJs.clockReads g))%Z /\
     MainJs.offset (MainJs.mapDrift (MainJs.updateMapMovement env dt g)) =
       MainJs.driftOffset (MainJs.swayTime (MainJs.mapDrift g) + dt)
         (clamp
            (elapsedSessionSeconds start (Date_now env (MainJs.clockReads g)) / 30)
            0 1)).
Proof.
  assert (H0 : MainJs.driftIntensity start start = 0).
  { unfold MainJs.driftIntensity. replace (start - start)%Z with 0%Z by lia.
    rewrite Rmin_left; lra. }
  assert (Hclamp : forall t, (start <= t)%Z ->
            MainJs.driftIntensity start t =
              clamp (elapsedSessionSeconds start t / 30) 0 1).
  { intros t Ht. unfold MainJs.driftIntensity, clamp, elapsedSessionSeconds.
    assert (0 <= IZR (t - start)) by (apply IZR_le; lia).
    rewrite Rmax_right; [reflexivity|].
    apply Rmin_glb; lra. }
  assert (Hoff : forall env dt g,
            MainJs.gameActive g = true ->
            MainJs.gameStartTime g = start ->
            MainJs.offset (MainJs.mapDrift (MainJs.updateMapMovement env dt g)) =
              MainJs.driftOffset (MainJs.swayTime (MainJs.mapDrift g) + dt)
                (MainJs.driftIntensity start
                   (Date_now env (MainJs.clockReads g)))).
  { intros env dt g Ha Hs. unfold MainJs.updateMapMovement. rewrite Ha.
    subst start. reflexivity. }
  split; [exact Hclamp|].
  split; [exact H0|split; [|split; [|split; [|split]]]].
  - intros sway. rewrite H0. unfold MainJs.driftOffset, zero3. f_equal; ring.
  - intros t1 t2. apply driftIntensity_mono.
  - intros t Ht. unfold MainJs.driftIntensity.
    assert (30000 <= IZR (t - start)) by (apply IZR_le; lia).
    rewrite Rmin_right; lra.
  - exact Hoff.
  - intros env dt g Hmono Hreach Ha Hs.
    assert (Hle : (start <= Date_now env (MainJs.clockReads g))%Z).
    { destruct (MainJs_reachable_Started env g Hreach Ha) as (k & Hk & Ek).
      rewrite <- Hs, Ek. apply Hmono. lia. }
    split; [exact Hle|].
    rewrite (Hoff env dt g Ha Hs), (Hclamp _ Hle). reflexivity.
Qed.

(** Fifteen seconds into a session the intensity is half-way up the ramp;
    and in the first frame after the click, on a clock that stands still,
    the reading is not before the start. *)
Lemma C7_half_ramp :
  ((0 <= 15000)%Z /\
   MainJs.driftIntensity 0%Z 15000%Z =
     clamp (elapsedSessionSeconds 0%Z 15000%Z / 30) 0 1) /\
  (MonotonicClock env0 /\ MainJs_reachable env0 mainStarted /\
   MainJs.gameActive mainStarted = true /\
   MainJs.gameStartTime mainStarted = 0%Z /\
   (0 <= Date_now env0 (MainJs.clockReads mainStarted))%Z).
Proof.
  assert (M : MonotonicClock env0) by (intros a b _; cbn; lia).
  assert (R : MainJs_reachable env0 mainStarted)
    by (apply MainJs_reach_click, MainJs_reach_init).
  split.
  - split; [lia|].
    apply (proj1 (C7_drift_intensity 0%Z) 15000%Z). lia.
  - split; [exact M|]. split; [exact R|].
    split; [reflexivity|]. split; [reflexivity|].
    exact (proj1 (proj2 (proj2 (proj2 (proj2 (proj2 (proj2
             (C7_drift_intensity 0%Z)))))) env0 0 mainStarted M R
             eq_refl eq_refl)).
Defined.

(** * Further properties of the code *)

(** ** Drift is applied to the base position *)





Lemma updateMapMovement_fields env dt g :
  MainJs.gameActive g = true ->
  let off :=
    MainJs.driftOffset (MainJs.swayTime (MainJs.mapDrift g) + dt)
      (MainJs.driftIntensity (MainJs.gameStartTime g)
         (Date_now env (MainJs.clockReads g))) in
  let g' := MainJs.updateMapMovement env dt g in
  MainJs.rooms g' = map (MainJs.driftRoom off) (MainJs.rooms g) /\
  MainJs.corridors g' = map (MainJs.driftCorridor off) (MainJs.corridors g) /\
  MainJs.dataCores g' = map (MainJs.driftCore off) (MainJs.dataCores g) /\
  MainJs.exitPortal g' = option_map (MainJs.driftPortal off) (MainJs.exitPortal g) /\
  MainJs.offset (MainJs.mapDrift g') = off /\
  MainJs.gameActive g' = true.
Proof.
  intros Ha off g'. subst off g'. unfold MainJs.updateMapMovement. rewrite Ha.
  repeat split; try reflexivity. exact Ha.
Qed.



(** ** Drift stays small *)






(** ** Picking up cores *)

Lemma rewardPlayer_iter n p :
  let p' := Nat.iter n rewardPlayer p in
  coresCollected p' = (coresCollected p + n)%nat /\
  speed p' = speed p + 1.5 * INR n /\
  player_position p' = player_position p /\
  velocity p' = velocity p /\
  isJumping p' = isJumping p /\
  currentSurface p' = currentSurface p /\
  gravity p' = gravity p /\
  jumpStrength p' = jumpStrength p.
Proof.
  induction n as [|n IH].
  - cbn. repeat split; try reflexivity; try lia. lra.
  - change (Nat.iter (S n) rewardPlayer p)
      with (rewardPlayer (Nat.iter n rewardPlayer p)).
    cbv zeta in *. set (q := Nat.iter n rewardPlayer p) in *.
    destruct IH as (I1 & I2 & I3 & I4 & I5 & I6 & I7 & I8).
    cbn [rewardPlayer coresCollected speed player_position velocity
         isJumping currentSurface gravity jumpStrength].
    rewrite I1, I2, S_INR. repeat split; auto; try lia. lra.
Qed.

Lemma MainJs_withCores_collect env i g cs p k :
  MainJs_withCores (MainJs.collectCore env i g) cs p k = MainJs_withCores g cs p k.
Proof.
  unfold MainJs.collectCore, MainJs.updateHUD. cbn.
  destruct (MainJs.gameActive g); reflexivity.
Qed.

Lemma MainJs_collectCore_fields env i g :
  MainJs.dataCores (MainJs.collectCore env i g) =
    alter collected i (MainJs.dataCores g) /\
  MainJs.player (MainJs.collectCore env i g) = rewardPlayer (MainJs.player g) /\
  (MainJs.clockReads g <= MainJs.clockReads (MainJs.collectCore env i g))%nat.
Proof.
  unfold MainJs.collectCore, MainJs.updateHUD. cbn.
  destruct (MainJs.gameActive g); cbn; repeat split; lia.
Qed.

Lemma picked_cons pos c cs :
  picked pos (c :: cs) =
  ((if inReach pos c then 1 else 0) + picked pos cs)%nat.
Proof. unfold picked. cbn. destruct (inReach pos c); reflexivity. Qed.

Lemma MainJs_coreLoop env pos : forall post pre g,
  MainJs.dataCores g = pre ++ post ->
  player_position (MainJs.player g) = pos ->
  exists k,
    (MainJs.clockReads g <= k)%nat /\
    MainJs.forEach (MainJs.checkCore env)
      (seq (List.length pre) (List.length post)) g =
    MainJs_withCores g (pre ++ map (pickUp pos) post)
      (Nat.iter (picked pos post) rewardPlayer (MainJs.player g)) k.
Proof.
  induction post as [|c post IH]; intros pre g Hd Hp.
  - exists (MainJs.clockReads g). split; [lia|]. cbn. rewrite <- Hd.
    destruct g; reflexivity.
  - cbn [List.length seq MainJs.forEach map].
    assert (Hi : MainJs.dataCores g !! List.length pre = Some c)
      by (rewrite Hd; apply list_lookup_middle; reflexivity).
    unfold MainJs.checkCore at 2. rewrite Hi.
    rewrite picked_cons. unfold pickUp at 1. unfold inReach at 1 2.
    destruct (core_collected c) eqn:Ec; cbn [negb andb].
    + destruct (IH (pre ++ [c]) g) as (k & Hk & E).
      { rewrite <- app_assoc. exact Hd. } { exact Hp. }
      rewrite length_app, Nat.add_1_r in E. rewrite E.
      exists k. split; [exact Hk|]. rewrite <- app_assoc. reflexivity.
    + rewrite Hp. destruct (ltb (distanceTo pos (core_position c)) 2) eqn:El.
      * destruct (MainJs_collectCore_fields env (List.length pre) g)
          as (F1 & F2 & F3).
        destruct (IH (pre ++ [collected c]) (MainJs.collectCore env (List.length pre) g))
          as (k & Hk & E).
        { rewrite F1, Hd, <- app_assoc.
          rewrite <- (Nat.add_0_r (List.length pre)) at 1.
          rewrite alter_app_r. reflexivity. }
        { rewrite F2. exact Hp. }
        rewrite length_app, Nat.add_1_r in E. rewrite E.
        exists k. split; [lia|].
        rewrite MainJs_withCores_collect, F2, <- app_assoc.
        cbn [app Nat.add]. rewrite Nat.iter_succ_r. reflexivity.
      * destruct (IH (pre ++ [c]) g) as (k & Hk & E).
        { rewrite <- app_assoc. exact Hd. } { exact Hp. }
        rewrite length_app, Nat.add_1_r in E. rewrite E.
        exists k. split; [exact Hk|]. rewrite <- app_assoc. reflexivity.
Qed.

(** The state after the core loop of [checkCollisions]. *)
Lemma MainJs_checkCores env g :
  let pos := player_position (MainJs.player g) in
  exists k,
    (MainJs.clockReads g <= k)%nat /\
    MainJs.forEach (MainJs.checkCore env)
      (seq 0 (List.length (MainJs.dataCores g))) g =
    MainJs_withCores g (map (pickUp pos) (MainJs.dataCores g))
      (Nat.iter (picked pos (MainJs.dataCores g)) rewardPlayer (MainJs.player g)) k.
Proof.
  intros pos.
  exact (MainJs_coreLoop env pos (MainJs.dataCores g) [] g eq_refl eq_refl).
Qed.

Lemma Part000_withCores_collect env i g cs p iv k :
  Part000_withCores (Part000.collectCore env i g) cs p iv k =
  Part000_withCores g cs p iv k.
Proof.
  unfold Part000.collectCore, Part000.updateHUD. cbn.
  destruct (Part000.gameActive g); reflexivity.
Qed.

Lemma Part000_collectCore_fields env i g :
  Part000.dataCores (Part000.collectCore env i g) =
    alter collected i (Part000.dataCores g) /\
  Part000.player (Part000.collectCore env i g) = rewardPlayer (Part000.player g) /\
  Part000.collapseInterval (Part000.collectCore env i g) =
    fasterCollapse (Part000.collapseInterval g) /\
  (Part000.clockReads g <= Part000.clockReads (Part000.collectCore env i g))%nat.
Proof.
  unfold Part000.collectCore, Part000.updateHUD. cbn.
  destruct (Part000.gameActive g); cbn; repeat split; lia.
Qed.

Lemma Part000_coreLoop env pos : forall post pre g,
  Part000.dataCores g = pre ++ post ->
  player_position (Part000.player g) = pos ->
  exists k,
    (Part000.clockReads g <= k)%nat /\
    Part000.forEach (Part000.checkCore env)
      (seq (List.length pre) (List.length post)) g =
    Part000_withCores g (pre ++ map (pickUp pos) post)
      (Nat.iter (picked pos post) rewardPlayer (Part000.player g))
      (Nat.iter (picked pos post) fasterCollapse (Part000.collapseInterval g)) k.
Proof.
  induction post as [|c post IH]; intros pre g Hd Hp.
  - exists (Part000.clockReads g). split; [lia|]. cbn. rewrite <- Hd.
    destruct g; reflexivity.
  - cbn [List.length seq Part000.forEach map].
    assert (Hi : Part000.dataCores g !! List.length pre = Some c)
      by (rewrite Hd; apply list_lookup_middle; reflexivity).
    unfold Part000.checkCore at 2. rewrite Hi.
    rewrite picked_cons. unfold pickUp at 1. unfold inReach at 1 2 3.
    destruct (core_collected c) eqn:Ec; cbn [negb andb].
    + destruct (IH (pre ++ [c]) g) as (k & Hk & E).
      { rewrite <- app_assoc. exact Hd. } { exact Hp. }
      rewrite length_app, Nat.add_1_r in E. rewrite E.
      exists k. split; [exact Hk|]. rewrite <- app_assoc. reflexivity.
    + rewrite Hp. destruct (ltb (distanceTo pos (core_position c)) 2) eqn:El.
      * destruct (Part000_collectCore_fields env (List.length pre) g)
          as (F1 & F2 & F3 & F4).
        destruct (IH (pre ++ [collected c])
                    (Part000.collectCore env (List.length pre) g))
          as (k & Hk & E).
        { rewrite F1, Hd, <- app_assoc.
          rewrite <- (Nat.add_0_r (List.length pre)) at 1.
          rewrite alter_app_r. reflexivity. }
        { rewrite F2. exact Hp. }
        rewrite length_app, Nat.add_1_r in E. rewrite E.
        exists k. split; [lia|].
        rewrite Part000_withCores_collect, F2, F3, <- app_assoc.
        cbn [app Nat.add]. rewrite !Nat.iter_succ_r. reflexivity.
      * destruct (IH (pre ++ [c]) g) as (k & Hk & E).
        { rewrite <- app_assoc. exact Hd. } { exact Hp. }
        rewrite length_app, Nat.add_1_r in E. rewrite E.
        exists k. split; [exact Hk|]. rewrite <- app_assoc. reflexivity.
Qed.

Lemma Part000_checkCores env g :
  let pos := player_position (Part000.player g) in
  exists k,
    (Part000.clockReads g <= k)%nat /\
    Part000.forEach (Part000.checkCore env)
      (seq 0 (List.length (Part000.dataCores g))) g =
    Part000_withCores g (map (pickUp pos) (Part000.dataCores g))
      (Nat.iter (picked pos (Part000.dataCores g)) rewardPlayer (Part000.player g))
      (Nat.iter (picked pos (Part000.dataCores g)) fasterCollapse
         (Part000.collapseInterval g)) k.
Proof.
  intros pos.
  exact (Part000_coreLoop env pos (Part000.dataCores g) [] g eq_refl eq_refl).
Qed.

Lemma MainJs_checkCollisions_cores env g :
  let pos := player_position (MainJs.player g) in
  let g' := MainJs.checkCollisions env g in
  MainJs.dataCores g' = map (pickUp pos) (MainJs.dataCores g) /\
  MainJs.player g' =
    Nat.iter (picked pos (MainJs.dataCores g)) rewardPlayer (MainJs.player g).
Proof.
  intros pos g'. subst g'. unfold MainJs.checkCollisions.
  destruct (MainJs_checkCores env g) as (k & _ & ->). fold pos.
  cbn [MainJs_withCores MainJs.exitPortal MainJs.set_clockReads
       MainJs.set_player MainJs.set_dataCores].
  destruct (MainJs.exitPortal g); [|split; reflexivity].
  destruct (ltb _ 3); split; reflexivity.
Qed.

Lemma Part000_checkCollisions_cores env g :
  let pos := player_position (Part000.player g) in
  let g' := Part000.checkCollisions env g in
  Part000.dataCores g' = map (pickUp pos) (Part000.dataCores g) /\
  Part000.player g' =
    Nat.iter (picked pos (Part000.dataCores g)) rewardPlayer (Part000.player g) /\
  Part000.collapseInterval g' =
    Nat.iter (picked pos (Part000.dataCores g)) fasterCollapse
      (Part000.collapseInterval g).
Proof.
  intros pos g'. subst g'. unfold Part000.checkCollisions.
  destruct (Part000_checkCores env g) as (k & _ & ->). fold pos.
  cbn [Part000_withCores Part000.exitPortal Part000.set_clockReads
       Part000.set_player Part000.set_dataCores Part000.set_collapseInterval].
  destruct (Part000.exitPortal g); [|repeat split; reflexivity].
  destruct (ltb _ 3); [|repeat split; reflexivity].
  destruct (2 <=? _)%nat; repeat split; reflexivity.
Qed.

(** X3.  [checkCollisions] picks up exactly the cores that are not yet
    collected and less than 2 units from the player (whose position does
    not change during the checks): each of them becomes collected,
    invisible and dark, the others are left as they are, so a collected
    core stays collected; the player's core counter grows by the number
    picked up and the speed by 1.5 for each.  In the grid variant each
    pick-up also shortens the collapse interval by 1000 ms, but not below
    2000 ms. *)
Theorem X3_cores_are_picked_up_within_two_units :
  (forall env g,
     let pos := player_position (MainJs.player g) in
     let g' := MainJs.checkCollisions env g in
     let n := picked pos (MainJs.dataCores g) in
     MainJs.dataCores g' = map (pickUp pos) (MainJs.dataCores g) /\
     coresCollected (MainJs.player g') = (coresCollected (MainJs.player g) + n)%nat /\
     speed (MainJs.player g') = speed (MainJs.player g) + 1.5 * INR n /\
     player_position (MainJs.player g') = pos)
  /\
  (forall env g,
     let pos := player_position (Part000.player g) in
     let g' := Part000.checkCollisions env g in
     let n := picked pos (Part000.dataCores g) in
     Part000.dataCores g' = map (pickUp pos) (Part000.dataCores g) /\
     coresCollected (Part000.player g') =
       (coresCollected (Part000.player g) + n)%nat /\
     speed (Part000.player g') = speed (Part000.player g) + 1.5 * INR n /\
     player_position (Part000.player g') = pos /\
     Part000.collapseInterval g' =
       Nat.iter n fasterCollapse (Part000.collapseInterval g))
  /\
  (forall pos c,
     (core_collected c = true -> pickUp pos c = c) /\
     (core_collected c = false ->
        distanceTo pos (core_position c) < 2 ->
        pickUp pos c = collected c /\
        core_collected (pickUp pos c) = true /\
        core_visible (pickUp pos c) = false /\
        core_light_intensity (pickUp pos c) = 0) /\
     (2 <= distanceTo pos (core_position c) -> pickUp pos c = c)).
Proof.
  split; [|split].
  - intros env g pos g' n. subst g' n.
    destruct (MainJs_checkCollisions_cores env g) as [E1 E2]. fold pos in E1, E2.
    rewrite E2. destruct (rewardPlayer_iter (picked pos (MainJs.dataCores g))
                            (MainJs.player g)) as (I1 & I2 & I3 & _).
    repeat split; auto.
  - intros env g pos g' n. subst g' n.
    destruct (Part000_checkCollisions_cores env g) as (E1 & E2 & E3).
    fold pos in E1, E2, E3.
    rewrite E2. destruct (rewardPlayer_iter (picked pos (Part000.dataCores g))
                            (Part000.player g)) as (I1 & I2 & I3 & _).
    repeat split; auto.
  - intros pos c. unfold pickUp, inReach. split; [|split].
    + intros ->. reflexivity.
    + intros -> H. apply ltb_true in H. rewrite H. cbn. repeat split; reflexivity.
    + intros H. apply ltb_false in H. rewrite H, andb_false_r. reflexivity.
Qed.

(** A core one unit away is picked up. *)
Lemma X3_core_one_unit_away :
  core_collected nearCore = false /\
  distanceTo cameraPos (core_position nearCore) < 2 /\
  core_collected (pickUp cameraPos nearCore) = true /\
  core_light_intensity (pickUp cameraPos nearCore) = 0.
Proof.
  assert (D : distanceTo cameraPos (core_position nearCore) < 2).
  { unfold distanceTo, cameraPos, nearCore. cbn.
    replace ((0 - 0) * (0 - 0) + (2 - 3) * (2 - 3) + (0 - 0) * (0 - 0)) with 1
      by lra.
    rewrite sqrt_1. lra. }
  split; [reflexivity|]. split; [exact D|].
  destruct (proj1 (proj2 (proj2 (proj2 X3_cores_are_picked_up_within_two_units)
                            cameraPos nearCore)) eq_refl D) as (_ & H1 & _ & H2).
  split; [exact H1|exact H2].
Defined.

(** ** Reaching the portal *)

(** X4.  In [main.js] reaching the portal (less than 3 units from it)
    wins the session whatever the number of cores: [gameActive] becomes
    false and the panel shows the escape message.  In the grid variant the
    same distance wins only with at least 2 cores, the cores picked up in
    this very check included; with fewer cores nothing happens at the
    portal.  Away from the portal (3 units or more, or no portal)
    [checkCollisions] leaves [gameActive] and the panel alone in both
    variants. *)
Theorem X4_portal_wins :
  (forall env g,
     let pos := player_position (MainJs.player g) in
     let g' := MainJs.checkCollisions env g in
     match MainJs.exitPortal g with
     | Some portal =>
         (distanceTo pos (portal_position portal) < 3 ->
            MainJs.gameActive g' = false /\ MainJs.panel g' = MainJs_winPanel) /\
         (3 <= distanceTo pos (portal_position portal) ->
            MainJs.gameActive g' = MainJs.gameActive g /\
            MainJs.panel g' = MainJs.panel g)
     | None =>
         MainJs.gameActive g' = MainJs.gameActive g /\
         MainJs.panel g' = MainJs.panel g
     end)
  /\
  (forall env g,
     let pos := player_position (Part000.player g) in
     let g' := Part000.checkCollisions env g in
     let cores :=
       (coresCollected (Part000.player g) + picked pos (Part000.dataCores g))%nat in
     match Part000.exitPortal g with
     | Some portal =>
         (distanceTo pos (portal_position portal) < 3 -> (2 <= cores)%nat ->
            Part000.gameActive g' = false /\ Part000.panel g' = Part000_winPanel) /\
         (3 <= distanceTo pos (portal_position portal) \/ (cores < 2)%nat ->
            Part000.gameActive g' = Part000.gameActive g /\
            Part000.panel g' = Part000.panel g)
     | None =>
         Part000.gameActive g' = Part000.gameActive g /\
         Part000.panel g' = Part000.panel g
     end).
Proof.
  split.
  - intros env g pos g'. subst g'. unfold MainJs.checkCollisions.
    destruct (MainJs_checkCores env g) as (k & _ & ->). fold pos.
    destruct (rewardPlayer_iter (picked pos (MainJs.dataCores g))
                (MainJs.player g)) as (_ & _ & I3 & _).
    cbn [MainJs_withCores MainJs.exitPortal MainJs.set_clockReads
         MainJs.set_player MainJs.set_dataCores MainJs.player].
    destruct (MainJs.exitPortal g) as [portal|]; [|split; reflexivity].
    rewrite I3. fold pos. split; intros H.
    + apply ltb_true in H. rewrite H. split; reflexivity.
    + apply ltb_false in H. rewrite H. split; reflexivity.
  - intros env g pos g' cores. subst g' cores. unfold Part000.checkCollisions.
    destruct (Part000_checkCores env g) as (k & _ & ->). fold pos.
    destruct (rewardPlayer_iter (picked pos (Part000.dataCores g))
                (Part000.player g)) as (I1 & _ & I3 & _).
    cbn [Part000_withCores Part000.exitPortal Part000.set_clockReads
         Part000.set_player Part000.set_dataCores Part000.set_collapseInterval
         Part000.player].
    destruct (Part000.exitPortal g) as [portal|]; [|split; reflexivity].
    rewrite I3, I1. fold pos. split.
    + intros H Hc. apply ltb_true in H. rewrite H.
      apply Nat.leb_le in Hc. rewrite Hc. split; reflexivity.
    + intros [H|Hc].
      * apply ltb_false in H. rewrite H. split; reflexivity.
      * destruct (ltb _ 3); [|split; reflexivity].
        apply Nat.leb_gt in Hc. rewrite Hc. split; reflexivity.
Qed.

(** At the portal without a core: a win in [main.js], nothing in the grid
    variant. *)
Lemma X4_at_the_portal_without_cores :
  distanceTo cameraPos (portal_position (createExitPortal 0 2 0)) < 3 /\
  (MainJs.gameActive (MainJs.checkCollisions env0 MainJs_atPortal) = false /\
   MainJs.panel (MainJs.checkCollisions env0 MainJs_atPortal) = MainJs_winPanel) /\
  (Part000.gameActive (Part000.checkCollisions env0 Part000_atPortal) = true /\
   Part000.panel (Part000.checkCollisions env0 Part000_atPortal) = initialPanel).
Proof.
  assert (D : distanceTo cameraPos (portal_position (createExitPortal 0 2 0)) < 3).
  { rewrite distanceTo_0; [lra| | |]; reflexivity. }
  split; [exact D|]. split.
  - exact (proj1 (proj1 X4_portal_wins env0 MainJs_atPortal) D).
  - pose proof (proj2 X4_portal_wins env0 Part000_atPortal) as H.
    cbv zeta in H. change (Part000.exitPortal Part000_atPortal)
      with (Some (createExitPortal 0 2 0)) in H. cbv iota beta in H.
    apply (proj2 H). right. unfold Part000_atPortal, picked. cbn. lia.
Defined.

(** ** The player and the level are updated apart *)

Lemma MainJs_updateHUD_structures env g :
  MainJs_structures (MainJs.updateHUD env g) = MainJs_structures g.
Proof. unfold MainJs.updateHUD. destruct (MainJs.gameActive g); reflexivity. Qed.

Lemma MainJs_checkCollisions_structures env g :
  MainJs_structures (MainJs.checkCollisions env g) = MainJs_structures g.
Proof.
  unfold MainJs.checkCollisions.
  destruct (MainJs_checkCores env g) as (k & _ & ->).
  cbn [MainJs_withCores MainJs.exitPortal MainJs.set_clockReads
       MainJs.set_player MainJs.set_dataCores].
  destruct (MainJs.exitPortal g); [|reflexivity].
  destruct (ltb _ 3); reflexivity.
Qed.

Lemma MainJs_updatePlayer_structures env f g :
  MainJs_structures (MainJs.updatePlayer env f g) = MainJs_structures g.
Proof.
  unfold MainJs.updatePlayer. destruct (negb _); [reflexivity|].
  unfold MainJs.voidCheck, MainJs.moveAndCollide.
  destruct (ltb _ _).
  - change (MainJs_structures (MainJs.endGame ?w ?m ?h)) with (MainJs_structures h).
    rewrite MainJs_checkCollisions_structures. reflexivity.
  - rewrite MainJs_checkCollisions_structures. reflexivity.
Qed.

Lemma MainJs_animateCore_structures env dt i g :
  MainJs_structures (MainJs.animateCore env dt i g) = MainJs_structures g.
Proof.
  unfold MainJs.animateCore.
  destruct (MainJs.dataCores g !! i) as [core|]; [|reflexivity].
  destruct (negb _); reflexivity.
Qed.

Lemma MainJs_animatePortal_structures env dt g :
  MainJs_structures (MainJs.animatePortal env dt g) = MainJs_structures g.
Proof.
  unfold MainJs.animatePortal. destruct (MainJs.exitPortal g); reflexivity.
Qed.

Lemma MainJs_onClick_structures env g :
  MainJs_structures (MainJs.onClick env g) = MainJs_structures g.
Proof. unfold MainJs.onClick. destruct (negb _); reflexivity. Qed.

Lemma MainJs_spawnParticle_actors env position g :
  MainJs_actors (MainJs.spawnParticle env position g) = MainJs_actors g.
Proof. reflexivity. Qed.

Lemma MainJs_createDebrisEffect_actors env position g :
  MainJs_actors (MainJs.createDebrisEffect env position g) = MainJs_actors g.
Proof.
  unfold MainJs.createDebrisEffect. cbn [MainJs.random].
  set (g0 := MainJs.set_randomDraws g _).
  change (MainJs_actors g) with (MainJs_actors g0).
  generalize (Z.to_nat (10 + Zfloor (Math_random env (MainJs.randomDraws g) * 6))).
  intros n. induction n as [|n IH]; [reflexivity|].
  cbn [Nat.iter]. rewrite <- IH. reflexivity.
Qed.

Lemma MainJs_collapseConnectedCorridors_actors env roomIndex g g' :
  MainJs.collapseConnectedCorridors env roomIndex g = Some g' ->
  MainJs_actors g' = MainJs_actors g.
Proof.
  unfold MainJs.collapseConnectedCorridors.
  apply (MainJs_forEachM_ind (fun g1 => MainJs_actors g1 = MainJs_actors g));
    [|reflexivity].
  intros j g1 g2 H. unfold MainJs.collapseCorridorIfConnected.
  destruct (MainJs.corridors g1 !! j) as [c|];
    [|intros E; injection E as <-; exact H].
  destruct (MainJs.corridor_isCollapsed c);
    [intros E; injection E as <-; exact H|].
  destruct (MainJs.includes _ _); [|intros E; injection E as <-; exact H].
  destruct (MainJs.corridor_connectedRooms c) as [room1 room2].
  destruct (MainJs.rooms g1 !! room1) as [r1|]; [|discriminate]. cbn.
  destruct (MainJs.rooms g1 !! room2) as [r2|]; [|discriminate]. cbn.
  destruct (room_isCollapsed r1 || room_isCollapsed r2);
    intros E; injection E as <-; exact H.
Qed.

Lemma MainJs_collapseRoomsBehindPlayer_actors env g g' :
  MainJs.collapseRoomsBehindPlayer env g = Some g' ->
  MainJs_actors g' = MainJs_actors g.
Proof.
  unfold MainJs.collapseRoomsBehindPlayer.
  apply (MainJs_forEachM_ind (fun g1 => MainJs_actors g1 = MainJs_actors g));
    [|reflexivity].
  intros i g1 g2 H. unfold MainJs.collapseRoomIfBehind.
  destruct (MainJs.rooms g1 !! i) as [room|];
    [|intros E; injection E as <-; exact H].
  destruct (room_isCollapsed room);
    [intros E; injection E as <-; exact H|].
  destruct (_ && _); [|intros E; injection E as <-; exact H].
  cbn [MainJs.now MainJs.random]. intros E.
  apply MainJs_collapseConnectedCorridors_actors in E.
  rewrite E, MainJs_createDebrisEffect_actors. exact H.
Qed.

Lemma MainJs_updateCollapsingRooms_actors env g :
  MainJs_actors (MainJs.updateCollapsingRooms env g) = MainJs_actors g.
Proof.
  unfold MainJs.updateCollapsingRooms.
  apply (MainJs_forEach_ind (fun g' => MainJs_actors g' = MainJs_actors g));
    [|reflexivity].
  intros i g' H. unfold MainJs.updateCollapsingRoom.
  destruct (MainJs.rooms g' !! i); exact H.
Qed.

Lemma MainJs_updateCollapsingCorridors_actors env g :
  MainJs_actors (MainJs.updateCollapsingCorridors env g) = MainJs_actors g.
Proof.
  unfold MainJs.updateCollapsingCorridors.
  apply (MainJs_forEach_ind (fun g' => MainJs_actors g' = MainJs_actors g));
    [|reflexivity].
  intros i g' H. unfold MainJs.updateCollapsingCorridor.
  destruct (MainJs.corridors g' !! i); exact H.
Qed.

(** The state of a frame of an active session just before
    [collapseRoomsBehindPlayer]. *)
Lemma MainJs_animate_split env f g g' :
  MainJs.gameActive g = true ->
  MainJs.animate env f g = Some g' ->
  exists g1 g2,
    g1 = MainJs.animatePortal env (deltaTime f)
           (MainJs.forEach (MainJs.animateCore env (deltaTime f))
              (seq 0 (List.length (MainJs.dataCores
                 (MainJs.updateHUD env
                    (MainJs.updatePlayer env f
                       (MainJs.updateMapMovement env (deltaTime f) g))))))
              (MainJs.updateHUD env
                 (MainJs.updatePlayer env f
                    (MainJs.updateMapMovement env (deltaTime f) g)))) /\
    MainJs.collapseRoomsBehindPlayer env g1 = Some g2 /\
    g' = MainJs.updateDebrisParticles env (deltaTime f)
           (MainJs.updateCollapsingCorridors env
              (MainJs.updateCollapsingRooms env g2)).
Proof.
  intros Ha. unfold MainJs.animate. rewrite Ha.
  set (g1 := MainJs.animatePortal _ _ _).
  destruct (MainJs.collapseRoomsBehindPlayer env g1) as [g2|] eqn:E2;
    [|discriminate].
  cbn [mbind option_bind]. intros E. injection E as <-.
  exists g1, g2. auto.
Qed.

(** X5.  In a frame of [main.js] the player side and the level side are
    updated apart.  [updatePlayer] (with the core and portal checks and
    the void check), the HUD update and the animation of cores and portal
    never change a room, a corridor, the lists of collapsing rooms and
    corridors, or the debris.  [collapseRoomsBehindPlayer] (with the
    debris it spawns and the corridors it collapses), the collapse
    animations and the debris update never change the player, the cores,
    the portal, the drift or the state of the session. *)
Theorem X5_player_and_level_are_updated_apart :
  (forall env f g,
     MainJs_structures (MainJs.updatePlayer env f g) = MainJs_structures g) /\
  (forall env g,
     MainJs_structures (MainJs.updateHUD env g) = MainJs_structures g) /\
  (forall env dt g,
     MainJs_structures
       (MainJs.animatePortal env dt
          (MainJs.forEach (MainJs.animateCore env dt)
             (seq 0 (List.length (MainJs.dataCores g))) g)) =
     MainJs_structures g) /\
  (forall env g g',
     MainJs.collapseRoomsBehindPlayer env g = Some g' ->
     MainJs_actors g' = MainJs_actors g) /\
  (forall env dt g,
     MainJs_actors
       (MainJs.updateDebrisParticles env dt
          (MainJs.updateCollapsingCorridors env
             (MainJs.updateCollapsingRooms env g))) =
     MainJs_actors g).
Proof.
  split; [exact MainJs_updatePlayer_structures|].
  split; [exact MainJs_updateHUD_structures|].
  split; [|split].
  - intros env dt g. rewrite MainJs_animatePortal_structures.
    apply (MainJs_forEach_ind
             (fun g' => MainJs_structures g' = MainJs_structures g));
      [|reflexivity].
    intros i g' H. rewrite MainJs_animateCore_structures. exact H.
  - exact MainJs_collapseRoomsBehindPlayer_actors.
  - intros env dt g.
    change (MainJs_actors (MainJs.updateDebrisParticles env dt ?h))
      with (MainJs_actors h).
    rewrite MainJs_updateCollapsingCorridors_actors.
    apply MainJs_updateCollapsingRooms_actors.
Qed.

(** The first frame after the click. *)
Lemma X5_first_frame :
  exists g',
    MainJs.collapseRoomsBehindPlayer env0 mainStarted = Some g' /\
    MainJs_actors g' = MainJs_actors mainStarted.
Proof.
  destruct (MainJs_collapseRoomsBehindPlayer_step env0 mainStarted
              (MainJs_reachable_Inv env0 mainStarted
                 (MainJs_reach_click env0 _ (MainJs_reach_init env0))))
    as (g' & E & _).
  exists g'. split; [exact E|].
  exact (proj1 (proj2 (proj2 (proj2 X5_player_and_level_are_updated_apart)))
           env0 mainStarted g' E).
Defined.

(** ** Which rooms collapse behind the player *)

Lemma RoomStep_refl th r :
  room_isCollapsed r = true \/ behind th r = false -> RoomStep th r r.
Proof.
  intros H. unfold RoomStep. repeat split; auto.
  - destruct H as [->| ->]; [reflexivity|]. rewrite orb_false_r. reflexivity.
  - intros H1 H2. destruct H; congruence.
Qed.

Lemma MainJs_collapseRoomIfBehind_rooms env th i g g' :
  MainJs.collapseRoomIfBehind env th i g = Some g' ->
  (forall k, k <> i -> MainJs.rooms g' !! k = MainJs.rooms g !! k) /\
  (forall r, MainJs.rooms g !! i = Some r ->
     exists r', MainJs.rooms g' !! i = Some r' /\ RoomStep th r r').
Proof.
  unfold MainJs.collapseRoomIfBehind.
  destruct (MainJs.rooms g !! i) as [room|] eqn:Ei.
  2:{ intros E. injection E as <-. split; [auto|]. intros r Hr. discriminate. }
  destruct (room_isCollapsed room) eqn:Ec.
  { intros E. injection E as <-. split; [auto|]. intros r Hr.
    injection Hr as <-. exists room. rewrite Ei.
    split; [reflexivity|]. apply RoomStep_refl. auto. }
  fold (behind th room).
  destruct (behind th room) eqn:Eb.
  2:{ intros E. injection E as <-. split; [auto|]. intros r Hr.
      injection Hr as <-. exists room. rewrite Ei.
      split; [reflexivity|]. apply RoomStep_refl. auto. }
  cbn [MainJs.now MainJs.random]. intros E.
  pose proof (MainJs_collapseConnectedCorridors_rooms _ _ _ _ E) as Hr.
  match type of E with
  | MainJs.collapseConnectedCorridors _ _
      (MainJs.createDebrisEffect ?e ?p ?h) = _ =>
      pose proof (MainJs_createDebrisEffect_level e p h) as Hl;
      assert (Hh : exists t rv,
                MainJs.rooms h = <[i := MainJs.room_collapse room t rv]> (MainJs.rooms g))
        by (eexists; eexists; reflexivity)
  end.
  unfold MainJs_level in Hl. injection Hl as Hl _.
  destruct Hh as (t & rv & Hh).
  assert (Hrooms : MainJs.rooms g' =
                   <[i := MainJs.room_collapse room t rv]> (MainJs.rooms g)).
  { rewrite Hr. etransitivity; [exact Hl|exact Hh]. }
  rewrite Hrooms. split.
  - intros k Hk. apply list_lookup_insert_ne. auto.
  - intros r Hri. injection Hri as <-.
    exists (MainJs.room_collapse room t rv). split.
    + apply list_lookup_insert_eq. eapply lookup_lt_Some, Ei.
    + unfold RoomStep. cbn. rewrite Ec, Eb. repeat split; auto.
      intros [H|H]; discriminate.
Qed.

Lemma MainJs_collapseRooms_loop env th : forall n k g g',
  MainJs.forEachM (MainJs.collapseRoomIfBehind env th) (seq k n) g = Some g' ->
  (forall i, (i < k \/ k + n <= i)%nat ->
     MainJs.rooms g' !! i = MainJs.rooms g !! i) /\
  (forall i r, (k <= i < k + n)%nat -> MainJs.rooms g !! i = Some r ->
     exists r', MainJs.rooms g' !! i = Some r' /\ RoomStep th r r').
Proof.
  induction n as [|n IH]; intros k g g'; cbn [seq MainJs.forEachM].
  - intros E. injection E as <-. split; [auto|]. intros i r Hi. lia.
  - destruct (MainJs.collapseRoomIfBehind env th k g) as [g1|] eqn:E1;
      [|discriminate].
    cbn [mbind option_bind]. intros E.
    destruct (MainJs_collapseRoomIfBehind_rooms env th k g g1 E1) as [S1 S2].
    destruct (IH (S k) g1 g' E) as [L1 L2].
    split.
    + intros i Hi. rewrite L1 by lia. apply S1. lia.
    + intros i r Hi Hr. destruct (decide (i = k)) as [->|Hne].
      * destruct (S2 r Hr) as (r' & Hr' & St).
        exists r'. split; [|exact St]. rewrite L1 by lia. exact Hr'.
      * apply L2; [lia|]. rewrite S1 by exact Hne. exact Hr.
Qed.





(** ** The countdown of the grid variant *)





(** ** The burst of debris *)

Ltac random_bounds env Hr :=
  repeat match goal with
    | |- context [Math_random env ?k] =>
        lazymatch goal with
        | _ : 0 <= Math_random env k < 1 |- _ => fail
        | _ => pose proof (Hr k)
        end
    end.

Lemma MainJs_spawnParticle_around env position g :
  RandomInRange env ->
  exists p,
    MainJs.debrisParticles (MainJs.spawnParticle env position g) =
      MainJs.debrisParticles g ++ [p] /\
    DebrisAround position p.
Proof.
  intros Hr. eexists. split; [reflexivity|].
  unfold DebrisAround.
  cbn [MainJs.particle_size MainJs.particle_position MainJs.particle_velocity
       MainJs.particle_rotation MainJs.particle_lifetime
       MainJs.particle_opacity x y z].
  random_bounds env Hr.
  repeat split; try reflexivity; lra.
Qed.

Lemma MainJs_spawnParticles_around env position g :
  RandomInRange env -> forall n,
  exists ps,
    MainJs.debrisParticles (Nat.iter n (MainJs.spawnParticle env position) g) =
      MainJs.debrisParticles g ++ ps /\
    List.length ps = n /\ Forall (DebrisAround position) ps.
Proof.
  intros Hr. induction n as [|n (ps & E & Hl & Hf)].
  - exists []. cbn [Nat.iter]. rewrite app_nil_r. auto.
  - change (Nat.iter (S n) (MainJs.spawnParticle env position) g)
      with (MainJs.spawnParticle env position
              (Nat.iter n (MainJs.spawnParticle env position) g)).
    destruct (MainJs_spawnParticle_around env position
                (Nat.iter n (MainJs.spawnParticle env position) g) Hr)
      as (p & Ep & Hp).
    exists (ps ++ [p]). rewrite Ep, E, <- app_assoc.
    split; [reflexivity|]. split.
    + rewrite length_app, Hl. cbn. lia.
    + apply Forall_app. split; [exact Hf|]. constructor; [exact Hp|constructor].
Qed.

(** X8.  With [Math.random] in [0, 1), [createDebrisEffect] appends between
    10 and 15 particles to the list of debris and keeps the ones that were
    there.  Each new particle is a cube of edge 0.2 to 0.7 placed at most 5
    units to each side of and at most 5 units above the given position, is
    thrown sideways at up to 2.5 and vertically between -1 and 2 units per
    second, is opaque and not rotated, and has 3000 ms to live. *)
Theorem X8_debris_burst :
  forall env position g, RandomInRange env ->
    exists ps,
      MainJs.debrisParticles (MainJs.createDebrisEffect env position g) =
        MainJs.debrisParticles g ++ ps /\
      (10 <= List.length ps <= 15)%nat /\
      Forall (DebrisAround position) ps.
Proof.
  intros env position g Hr. unfold MainJs.createDebrisEffect.
  cbn [MainJs.random].
  set (r := Math_random env (MainJs.randomDraws g)).
  set (g1 := MainJs.set_randomDraws g _).
  destruct (MainJs_spawnParticles_around env position g1 Hr
              (Z.to_nat (10 + Zfloor (r * 6)))) as (ps & E & Hl & Hf).
  exists ps. split; [exact E|]. split; [|exact Hf].
  rewrite Hl.
  pose proof (Hr (MainJs.randomDraws g)) as Hb. fold r in Hb.
  pose proof (Zfloor_bound (r * 6)) as [Hf1 Hf2].
  assert (0 <= Zfloor (r * 6))%Z by (apply Zfloor_lub; cbn; lra).
  assert (Zfloor (r * 6) < 6)%Z by (apply lt_IZR; lra).
  lia.
Qed.

(** A burst at the origin with the random source that always returns 0. *)
Lemma X8_burst_at_the_origin :
  RandomInRange env0 /\
  exists ps,
    MainJs.debrisParticles (MainJs.createDebrisEffect env0 zero3 mainStarted) =
      MainJs.debrisParticles mainStarted ++ ps /\
    (10 <= List.length ps <= 15)%nat.
Proof.
  assert (Hr : RandomInRange env0) by (intros k; cbn; lra).
  split; [exact Hr|].
  destruct (X8_debris_burst env0 zero3 mainStarted Hr) as (ps & E & Hl & _).
  exists ps. split; [exact E|exact Hl].
Defined.

(** ** The bookkeeping of cores, speed and collapse interval *)

Lemma coreFlags_count cs : forall cs',
  map coreFlags cs' = map coreFlags cs ->
  List.length cs' = List.length cs /\
  collectedCount cs' = collectedCount cs /\
  (Forall CoreCoherent cs -> Forall CoreCoherent cs').
Proof.
  unfold collectedCount.
  induction cs as [|c cs IH]; intros [|c' cs'] E; try discriminate.
  - auto.
  - cbn [map] in E. injection E as Ec Ev El Et.
    destruct (IH cs' Et) as (I1 & I2 & I3).
    cbn [List.length List.filter]. rewrite Ec.
    split; [congruence|]. split.
    + destruct (core_collected c); cbn [List.length]; congruence.
    + intros H. inversion H as [|? ? [H1 H2] H3]; subst.
      constructor; [|auto]. unfold CoreCoherent. rewrite Ec, Ev, El. auto.
Qed.

Lemma StatsInv_ext n p p' cs cs' :
  playerStats p' = playerStats p -> map coreFlags cs' = map coreFlags cs ->
  StatsInv n p cs -> StatsInv n p' cs'.
Proof.
  unfold playerStats. intros Ep Ec (H1 & H2 & H3 & H4 & H5).
  injection Ep as Ep1 Ep2 Ep3.
  destruct (coreFlags_count cs cs' Ec) as (C1 & C2 & C3).
  unfold StatsInv. rewrite Ep1, Ep2, Ep3, C1, C2. repeat split; auto.
Qed.

Lemma collectedCount_pickUp pos cs :
  collectedCount (map (pickUp pos) cs) = (collectedCount cs + picked pos cs)%nat.
Proof.
  unfold collectedCount, picked.
  induction cs as [|c cs IH]; [reflexivity|].
  cbn [map].
  change (List.filter (inReach pos) (c :: cs))
    with (if inReach pos c then c :: List.filter (inReach pos) cs
          else List.filter (inReach pos) cs).
  change (List.filter core_collected (c :: cs))
    with (if core_collected c then c :: List.filter core_collected cs
          else List.filter core_collected cs).
  change (List.filter core_collected (pickUp pos c :: map (pickUp pos) cs))
    with (if core_collected (pickUp pos c)
          then pickUp pos c :: List.filter core_collected (map (pickUp pos) cs)
          else List.filter core_collected (map (pickUp pos) cs)).
  unfold pickUp at 1 2. destruct (inReach pos c) eqn:Er.
  - unfold inReach in Er. destruct (core_collected c); [discriminate|].
    cbn [collected core_collected List.length]. rewrite IH. lia.
  - destruct (core_collected c); cbn [List.length]; rewrite IH; lia.
Qed.

Lemma CoreCoherent_pickUp pos c : CoreCoherent c -> CoreCoherent (pickUp pos c).
Proof.
  intros H. unfold pickUp. destruct (inReach pos c); [|exact H].
  split; reflexivity.
Qed.

Lemma StatsInv_pickUp n pos p cs :
  StatsInv n p cs ->
  StatsInv n (Nat.iter (picked pos cs) rewardPlayer p) (map (pickUp pos) cs).
Proof.
  intros (H1 & H2 & H3 & H4 & H5).
  destruct (rewardPlayer_iter (picked pos cs) p)
    as (I1 & I2 & _ & _ & _ & _ & _ & I8).
  unfold StatsInv. rewrite I1, I2, I8, collectedCount_pickUp, length_map.
  split; [exact H1|]. split; [lia|]. split.
  - rewrite H3, plus_INR. lra.
  - split; [exact H4|]. clear -H5.
    induction H5 as [|c cs' Hc Hcs IH]; cbn [map]; constructor;
      [apply CoreCoherent_pickUp; exact Hc|exact IH].
Qed.

Lemma playerStats_snapTo n p : playerStats (snapTo n p) = playerStats p.
Proof.
  unfold snapTo. destruct (nearestSurface n); [|reflexivity].
  destruct (match nearestDistance n with Some d => ltb d 3 | None => false end);
    [|reflexivity].
  cbv zeta. destruct (_ && _); reflexivity.
Qed.

Lemma playerStats_applyGravity dt p :
  playerStats (applyGravity dt p) = playerStats p.
Proof. unfold applyGravity. destruct (_ || _); reflexivity. Qed.

Lemma MainJs_playerStats_steer k fwd right p :
  playerStats (MainJs.steer k fwd right p) = playerStats p.
Proof.
  unfold MainJs.steer. cbv zeta.
  destruct (k "KeyW"%string || k "ArrowUp"%string);
    destruct (k "KeyS"%string || k "ArrowDown"%string);
    destruct (k "KeyA"%string || k "ArrowLeft"%string);
    destruct (k "KeyD"%string || k "ArrowRight"%string); reflexivity.
Qed.

Lemma Part000_playerStats_steer k right p :
  playerStats (Part000.steer k right p) = playerStats p.
Proof.
  unfold Part000.steer. cbv zeta.
  destruct (k "KeyA"%string || k "ArrowLeft"%string);
    destruct (k "KeyD"%string || k "ArrowRight"%string); reflexivity.
Qed.

Lemma MainJs_playerStats_advance f p :
  playerStats (MainJs.advancePlayer f p) = playerStats p.
Proof.
  unfold MainJs.advancePlayer. cbv zeta.
  change (playerStats (movePlayer ?dt ?q)) with (playerStats q).
  rewrite playerStats_applyGravity.
  unfold MainJs.jump. destruct (_ && _).
  - change (playerStats (set_isJumping (set_velocity ?q ?v) ?b))
      with (playerStats q).
    unfold MainJs.locomotion. cbv zeta. rewrite MainJs_playerStats_steer. reflexivity.
  - unfold MainJs.locomotion. cbv zeta. rewrite MainJs_playerStats_steer. reflexivity.
Qed.

Lemma Part000_playerStats_advance f p :
  playerStats (Part000.advancePlayer f p) = playerStats p.
Proof.
  unfold Part000.advancePlayer. cbv zeta.
  change (playerStats (movePlayer ?dt ?q)) with (playerStats q).
  rewrite playerStats_applyGravity.
  unfold Part000.jump. destruct (_ && _).
  - change (playerStats (set_isJumping (set_velocity ?q ?v) ?b))
      with (playerStats q).
    unfold Part000.locomotion. cbv zeta. rewrite Part000_playerStats_steer. reflexivity.
  - unfold Part000.locomotion. cbv zeta. rewrite Part000_playerStats_steer. reflexivity.
Qed.

Lemma MainJs_updatePlayer_StatsInv n env f g :
  StatsInv n (MainJs.player g) (MainJs.dataCores g) ->
  StatsInv n (MainJs.player (MainJs.updatePlayer env f g))
    (MainJs.dataCores (MainJs.updatePlayer env f g)).
Proof.
  intros H. unfold MainJs.updatePlayer. destruct (negb _); [exact H|].
  set (g1 := MainJs.moveAndCollide env f g).
  assert (H1 : StatsInv n (MainJs.player g1) (MainJs.dataCores g1)).
  { subst g1. unfold MainJs.moveAndCollide. cbv zeta.
    match goal with
    | |- context [MainJs.checkCollisions env ?h] =>
        destruct (MainJs_checkCollisions_cores env h) as [E1 E2]
    end.
    rewrite E1, E2. apply StatsInv_pickUp.
    cbn [MainJs.player MainJs.dataCores MainJs.set_player].
    eapply StatsInv_ext; [|reflexivity|exact H].
    unfold MainJs.findNearestSurface.
    rewrite playerStats_snapTo. apply MainJs_playerStats_advance. }
  unfold MainJs.voidCheck. destruct (ltb _ _); exact H1.
Qed.

Lemma Part000_updatePlayer_StatsInv n env f g :
  StatsInv n (Part000.player g) (Part000.dataCores g) /\
  Part000.collapseInterval g = intervalAfter (coresCollected (Part000.player g)) ->
  StatsInv n (Part000.player (Part000.updatePlayer env f g))
    (Part000.dataCores (Part000.updatePlayer env f g)) /\
  Part000.collapseInterval (Part000.updatePlayer env f g) =
    intervalAfter (coresCollected (Part000.player (Part000.updatePlayer env f g))).
Proof.
  intros [H Hi]. unfold Part000.updatePlayer. destruct (negb _); [auto|].
  set (g1 := Part000.moveAndCollide env f g).
  assert (H1 : StatsInv n (Part000.player g1) (Part000.dataCores g1) /\
               Part000.collapseInterval g1 =
                 intervalAfter (coresCollected (Part000.player g1))).
  { subst g1. unfold Part000.moveAndCollide. cbv zeta.
    match goal with
    | |- context [Part000.checkCollisions env ?h] =>
        destruct (Part000_checkCollisions_cores env h) as (E1 & E2 & E3);
        set (g0 := h) in *
    end.
    assert (Hp : playerStats (Part000.player g0) = playerStats (Part000.player g)).
    { subst g0. cbn [Part000.player Part000.set_player].
      unfold Part000.findNearestSurface.
      rewrite playerStats_snapTo. apply Part000_playerStats_advance. }
    rewrite E1, E2, E3. split.
    - apply StatsInv_pickUp. eapply StatsInv_ext; [exact Hp|reflexivity|exact H].
    - destruct (rewardPlayer_iter
                  (picked (player_position (Part000.player g0))
                     (Part000.dataCores g0)) (Part000.player g0)) as (I1 & _).
      rewrite I1.
      change (Part000.collapseInterval g0) with (Part000.collapseInterval g).
      assert (Hc : coresCollected (Part000.player g0) =
                   coresCollected (Part000.player g))
        by (unfold playerStats in Hp; congruence).
      rewrite Hi, Hc.
      generalize (picked (player_position (Part000.player g0))
                    (Part000.dataCores g0)) as m.
      generalize (coresCollected (Part000.player g)) as k.
      intros k m. induction m as [|m IH].
      + rewrite Nat.add_0_r. reflexivity.
      + change (Nat.iter (S m) fasterCollapse (intervalAfter k))
          with (fasterCollapse (Nat.iter m fasterCollapse (intervalAfter k))).
        rewrite IH. unfold fasterCollapse, intervalAfter. lia. }
  unfold Part000.voidCheck. destruct (ltb _ _); exact H1.
Qed.

Lemma MainJs_updateMapMovement_stats env dt g :
  MainJs.player (MainJs.updateMapMovement env dt g) = MainJs.player g /\
  map coreFlags (MainJs.dataCores (MainJs.updateMapMovement env dt g)) =
    map coreFlags (MainJs.dataCores g).
Proof.
  unfold MainJs.updateMapMovement.
  destruct (negb (MainJs.gameActive g)); [split; reflexivity|].
  split; [reflexivity|].
  cbn [MainJs.now MainJs.dataCores MainJs.set_exitPortal MainJs.set_dataCores].
  rewrite map_map. apply map_ext. intros c. unfold MainJs.driftCore.
  destruct (negb (core_collected c)); reflexivity.
Qed.

Lemma MainJs_animateCores_stats env dt l g :
  MainJs.player (MainJs.forEach (MainJs.animateCore env dt) l g) = MainJs.player g /\
  map coreFlags (MainJs.dataCores (MainJs.forEach (MainJs.animateCore env dt) l g)) =
    map coreFlags (MainJs.dataCores g).
Proof.
  apply (MainJs_forEach_ind
           (fun g' => MainJs.player g' = MainJs.player g /\
                      map coreFlags (MainJs.dataCores g') =
                        map coreFlags (MainJs.dataCores g)));
    [|split; reflexivity].
  intros i g' [H1 H2]. unfold MainJs.animateCore.
  destruct (MainJs.dataCores g' !! i) as [core|] eqn:Ei; [|auto].
  destruct (negb _); [|auto]. split; [exact H1|].
  cbn [MainJs.now MainJs.dataCores MainJs.set_dataCores MainJs.set_clockReads].
  rewrite (map_insert_same coreFlags _ i core); [exact H2|exact Ei|reflexivity].
Qed.

Lemma Part000_animateCores_stats env dt l g :
  Part000_actors (Part000.forEach (Part000.animateCore env dt) l g) =
    (Part000.player g,
     Part000.dataCores (Part000.forEach (Part000.animateCore env dt) l g),
     Part000.exitPortal g, Part000.collapseInterval g,
     (Part000.gameActive g, Part000.gameStartTime g, Part000.panel g)) /\
  map coreFlags (Part000.dataCores (Part000.forEach (Part000.animateCore env dt) l g)) =
    map coreFlags (Part000.dataCores g).
Proof.
  apply (Part000_forEach_ind
           (fun g' => Part000_actors g' =
                        (Part000.player g, Part000.dataCores g',
                         Part000.exitPortal g, Part000.collapseInterval g,
                         (Part000.gameActive g, Part000.gameStartTime g,
                          Part000.panel g)) /\
                      map coreFlags (Part000.dataCores g') =
                        map coreFlags (Part000.dataCores g)));
    [|split; reflexivity].
  intros i g' [H1 H2]. unfold Part000.animateCore.
  destruct (Part000.dataCores g' !! i) as [core|] eqn:Ei; [|auto].
  destruct (negb _); [|auto].
  unfold Part000_actors in *. injection H1 as A1 A3 A4 A5 A6 A7.
  split.
  - cbn. rewrite A1, A3, A4, A5, A6, A7. reflexivity.
  - cbn [Part000.now Part000.dataCores Part000.set_dataCores
         Part000.set_clockReads].
    rewrite (map_insert_same coreFlags _ i core); [exact H2|exact Ei|reflexivity].
Qed.

Lemma Part000_collapseOnCountdown_actors env g g' :
  Part000.collapseOnCountdown env g = Some g' ->
  Part000_actors g' = Part000_actors g.
Proof.
  unfold Part000.collapseOnCountdown. cbn [Part000.now].
  destruct (_ >? _)%Z; [|intros E; injection E as <-; reflexivity].
  set (g1 := Part000.set_clockReads g _).
  unfold Part000.collapseRandomRoom.
  destruct (_ =? 0)%nat.
  { cbn [mbind option_bind Part000.now]. intros E. injection E as <-.
    reflexivity. }
  cbn [Part000.random].
  destruct (Part000.at_ _ _) as [i|]; [|discriminate].
  cbn [mbind option_bind].
  destruct (_ !! i) as [room|]; [|discriminate].
  cbn [mbind option_bind Part000.now]. intros E. injection E as <-.
  reflexivity.
Qed.

Lemma Part000_updateCollapsingRooms_actors env g :
  Part000_actors (Part000.updateCollapsingRooms env g) = Part000_actors g.
Proof.
  unfold Part000.updateCollapsingRooms.
  apply (Part000_forEach_ind (fun g' => Part000_actors g' = Part000_actors g));
    [|reflexivity].
  intros i g' H. unfold Part000.updateCollapsingRoom.
  destruct (Part000.rooms g' !! i); exact H.
Qed.

Lemma MainJs_animate_StatsInv env f g g' :
  MainJs_StatsInv g -> MainJs.animate env f g = Some g' -> MainJs_StatsInv g'.
Proof.
  intros H E. destruct (MainJs.gameActive g) eqn:Ha.
  2:{ unfold MainJs.animate in E. rewrite Ha in E. injection E as <-. exact H. }
  destruct (MainJs_animate_split env f g g' Ha E) as (g1 & g2 & E1 & E2 & E3).
  assert (A : MainJs_actors g' = MainJs_actors g1).
  { rewrite <- (MainJs_collapseRoomsBehindPlayer_actors env g1 g2 E2), E3.
    change (MainJs_actors (MainJs.updateDebrisParticles env (deltaTime f) ?h))
      with (MainJs_actors h).
    rewrite MainJs_updateCollapsingCorridors_actors.
    apply MainJs_updateCollapsingRooms_actors. }
  unfold MainJs_actors in A. injection A as Ap Ad _ _ _ _ _ _.
  unfold MainJs_StatsInv. rewrite Ap, Ad, E1.
  set (g0 := MainJs.updateMapMovement env (deltaTime f) g).
  set (gp := MainJs.updatePlayer env f g0).
  assert (Hp : StatsInv 3 (MainJs.player gp) (MainJs.dataCores gp)).
  { apply MainJs_updatePlayer_StatsInv.
    destruct (MainJs_updateMapMovement_stats env (deltaTime f) g) as [M1 M2].
    eapply StatsInv_ext; [|exact M2|exact H].
    fold g0 in M1. rewrite M1. reflexivity. }
  assert (Hh : MainJs.player (MainJs.updateHUD env gp) = MainJs.player gp /\
               MainJs.dataCores (MainJs.updateHUD env gp) = MainJs.dataCores gp)
    by (unfold MainJs.updateHUD; destruct (MainJs.gameActive gp);
        split; reflexivity).
  destruct Hh as [Hh1 Hh2].
  set (gh := MainJs.updateHUD env gp) in *.
  destruct (MainJs_animateCores_stats env (deltaTime f)
              (seq 0 (List.length (MainJs.dataCores gh))) gh) as [L1 L2].
  set (gl := MainJs.forEach _ _ gh) in *.
  assert (Hq : MainJs.player (MainJs.animatePortal env (deltaTime f) gl) =
                 MainJs.player gl /\
               MainJs.dataCores (MainJs.animatePortal env (deltaTime f) gl) =
                 MainJs.dataCores gl)
    by (unfold MainJs.animatePortal; destruct (MainJs.exitPortal gl);
        split; reflexivity).
  destruct Hq as [-> ->].
  eapply StatsInv_ext; [| |exact Hp].
  - rewrite L1, Hh1. reflexivity.
  - rewrite L2, Hh2. reflexivity.
Qed.

Lemma Part000_animate_StatsInv env f g g' :
  Part000_StatsInv g -> Part000.animate env f g = Some g' -> Part000_StatsInv g'.
Proof.
  intros H. unfold Part000.animate.
  destruct (Part000.gameActive g); [|intros E; injection E as <-; exact H].
  cbv zeta.
  set (gp := Part000.updatePlayer env f g).
  assert (Hp : Part000_StatsInv gp)
    by (apply Part000_updatePlayer_StatsInv; exact H).
  assert (Hh : Part000_actors (Part000.updateHUD env gp) = Part000_actors gp)
    by (unfold Part000.updateHUD; destruct (Part000.gameActive gp); reflexivity).
  set (gh := Part000.updateHUD env gp) in *.
  destruct (Part000_animateCores_stats env (deltaTime f)
              (seq 0 (List.length (Part000.dataCores gh))) gh) as [L1 L2].
  set (gl := Part000.forEach _ _ gh) in *.
  assert (Hq : Part000.player (Part000.animatePortal env (deltaTime f) gl) =
                 Part000.player gl /\
               Part000.dataCores (Part000.animatePortal env (deltaTime f) gl) =
                 Part000.dataCores gl /\
               Part000.collapseInterval (Part000.animatePortal env (deltaTime f) gl) =
                 Part000.collapseInterval gl)
    by (unfold Part000.animatePortal; destruct (Part000.exitPortal gl);
        repeat split; reflexivity).
  destruct Hq as (Q1 & Q2 & Q3).
  set (gq := Part000.animatePortal env (deltaTime f) gl) in *.
  assert (Hgq : Part000_StatsInv gq).
  { unfold Part000_actors in Hh, L1.
    injection Hh as B1 B2 _ B4 _ _ _. injection L1 as C1 _ C4 _ _ _.
    destruct Hp as [Hp1 Hp2]. split.
    - rewrite Q1, Q2. eapply StatsInv_ext; [| |exact Hp1].
      + rewrite C1, B1. reflexivity.
      + rewrite L2, B2. reflexivity.
    - rewrite Q3, Q1, C4, C1, B4, B1. exact Hp2. }
  destruct (Part000.collapseOnCountdown env gq) as [gc|] eqn:Ec; [|discriminate].
  cbn [mbind option_bind]. intros E. injection E as <-.
  assert (A : Part000_actors (Part000.updateCollapsingRooms env gc) =
              Part000_actors gq).
  { rewrite Part000_updateCollapsingRooms_actors.
    apply (Part000_collapseOnCountdown_actors env gq gc Ec). }
  unfold Part000_actors in A. injection A as A1 A2 _ A4 _ _ _.
  unfold Part000_StatsInv. rewrite A1, A2, A4. exact Hgq.
Qed.

Lemma collectedCount_le cs : (collectedCount cs <= List.length cs)%nat.
Proof.
  unfold collectedCount. induction cs as [|c cs IH]; [reflexivity|].
  cbn [List.filter]. destruct (core_collected c); cbn [List.length]; lia.
Qed.

Lemma MainJs_reachable_StatsInv env g :
  MainJs_reachable env g -> MainJs_StatsInv g.
Proof.
  induction 1 as [|g Hg IH|f g g' Hg IH Hstep].
  - unfold MainJs_StatsInv, StatsInv. cbn.
    split; [reflexivity|]. split; [reflexivity|]. split; [lra|].
    split; [reflexivity|]. repeat constructor.
  - unfold MainJs.onClick. destruct (negb _); exact IH.
  - eapply MainJs_animate_StatsInv; eauto.
Qed.

Lemma Part000_reachable_StatsInv env g :
  Part000_reachable env g -> Part000_StatsInv g.
Proof.
  induction 1 as [|g Hg IH|f g g' Hg IH Hstep].
  - unfold Part000_StatsInv, StatsInv. cbn.
    split; [|reflexivity].
    split; [reflexivity|]. split; [reflexivity|]. split; [lra|].
    split; [reflexivity|]. repeat constructor.
  - unfold Part000.onClick. destruct (negb _); exact IH.
  - eapply Part000_animate_StatsInv; eauto.
Qed.

(** X9.  In every state a session can reach the bookkeeping is coherent.
    The player's core counter is the number of collected cores, so it never
    exceeds the 3 cores of [main.js] or the 4 cores of the grid variant;
    the speed is 3 + 1.5 per collected core (at most 7.5, or 9 in the grid
    variant) and the jump strength stays 8; a core is visible and lit with
    intensity 1 exactly while it is not collected.  In the grid variant
    the collapse interval is max(2000, 5000 - 1000 * cores), so it stays
    between 2000 and 5000 ms. *)
Theorem X9_bookkeeping_is_coherent :
  (forall env g, MainJs_reachable env g ->
     MainJs_StatsInv g /\
     (coresCollected (MainJs.player g) <= 3)%nat /\
     3 <= speed (MainJs.player g) <= 7.5) /\
  (forall env g, Part000_reachable env g ->
     Part000_StatsInv g /\
     (coresCollected (Part000.player g) <= 4)%nat /\
     3 <= speed (Part000.player g) <= 9 /\
     (2000 <= Part000.collapseInterval g <= 5000)%Z).
Proof.
  split.
  - intros env g Hg.
    pose proof (MainJs_reachable_StatsInv env g Hg) as H.
    split; [exact H|]. destruct H as (H1 & H2 & H3 & _).
    pose proof (collectedCount_le (MainJs.dataCores g)) as Hle.
    assert (Hc : (coresCollected (MainJs.player g) <= 3)%nat) by lia.
    split; [exact Hc|]. rewrite H3.
    pose proof (pos_INR (coresCollected (MainJs.player g))).
    apply le_INR in Hc. cbn in Hc. lra.
  - intros env g Hg.
    pose proof (Part000_reachable_StatsInv env g Hg) as H.
    split; [exact H|]. destruct H as ((H1 & H2 & H3 & _) & Hi).
    pose proof (collectedCount_le (Part000.dataCores g)) as Hle.
    assert (Hc : (coresCollected (Part000.player g) <= 4)%nat) by lia.
    split; [exact Hc|]. split.
    + rewrite H3.
      pose proof (pos_INR (coresCollected (Part000.player g))).
      apply le_INR in Hc. cbn in Hc. lra.
    + rewrite Hi. unfold intervalAfter. lia.
Qed.

(** Right after the click of either variant. *)
Lemma X9_bookkeeping_after_the_click :
  (MainJs_reachable env0 mainStarted /\
   speed (MainJs.player mainStarted) <= 7.5) /\
  (Part000_reachable env0 gridStarted /\
   (2000 <= Part000.collapseInterval gridStarted <= 5000)%Z).
Proof.
  assert (R1 : MainJs_reachable env0 mainStarted)
    by (apply MainJs_reach_click, MainJs_reach_init).
  assert (R2 : Part000_reachable env0 gridStarted)
    by (apply Part000_reach_click, Part000_reach_init).
  split.
  - split; [exact R1|].
    exact (proj2 (proj2 (proj2 (proj1 X9_bookkeeping_is_coherent env0
                                  mainStarted R1)))).
  - split; [exact R2|].
    exact (proj2 (proj2 (proj2 (proj2 X9_bookkeeping_is_coherent env0
                                  gridStarted R2)))).
Defined.

(** ** The shape of the collapse of main.js *)

Lemma map_eq_lookup {A B} (f : A -> B) (l l' : list A) (k : nat) (a' : A) :
  map f l' = map f l -> l' !! k = Some a' ->
  exists a, l !! k = Some a /\ f a = f a'.
Proof.
  intros E H.
  assert (H' : map f l' !! k = Some (f a')) by (rewrite lookup_map, H; reflexivity).
  rewrite E, lookup_map in H'.
  destruct (l !! k) as [a|]; [|discriminate].
  injection H' as H'. eauto.
Qed.

Lemma MainJs_Shape_flags g g' :
  MainJs_flags g' = MainJs_flags g -> MainJs_Shape g -> MainJs_Shape g'.
Proof.
  unfold MainJs_flags. intros E. injection E as Er Ec. intros [S1 S2].
  split.
  - intros k r' Hk.
    destruct (map_eq_lookup roomFlags _ _ k r' Er Hk) as (r & Hr & F).
    unfold roomFlags in F. injection F as F1 _ _. rewrite <- F1. eauto.
  - intros j c' Hj.
    destruct (map_eq_lookup corridorFlags _ _ j c' Ec Hj) as (c & Hc & F).
    unfold corridorFlags in F. injection F as F1 F2 _.
    destruct (S2 j c Hc) as (C1 & r1 & r2 & H1 & H2 & C2).
    split; [congruence|].
    assert (E1 : exists r1', MainJs.rooms g' !! j = Some r1' /\
                             room_isCollapsed r1' = room_isCollapsed r1).
    { assert (Hlt : (j < List.length (MainJs.rooms g'))%nat).
      { rewrite <- (length_map roomFlags), Er, length_map.
        eapply lookup_lt_Some, H1. }
      destruct (lookup_lt_is_Some_2 _ _ Hlt) as [r1' Hr1'].
      destruct (map_eq_lookup roomFlags _ _ j r1' Er Hr1') as (r & Hr & F).
      rewrite H1 in Hr. injection Hr as <-.
      unfold roomFlags in F. injection F as _ F _. eauto. }
    assert (E2 : exists r2', MainJs.rooms g' !! S j = Some r2' /\
                             room_isCollapsed r2' = room_isCollapsed r2).
    { assert (Hlt : (S j < List.length (MainJs.rooms g'))%nat).
      { rewrite <- (length_map roomFlags), Er, length_map.
        eapply lookup_lt_Some, H2. }
      destruct (lookup_lt_is_Some_2 _ _ Hlt) as [r2' Hr2'].
      destruct (map_eq_lookup roomFlags _ _ (S j) r2' Er Hr2') as (r & Hr & F).
      rewrite H2 in Hr. injection Hr as <-.
      unfold roomFlags in F. injection F as _ F _. eauto. }
    destruct E1 as (r1' & Hr1' & F1'). destruct E2 as (r2' & Hr2' & F2').
    exists r1', r2'. repeat split; auto. congruence.
Qed.

Lemma MainJs_CollapsedUpTo_flags m g g' :
  MainJs_flags g' = MainJs_flags g ->
  MainJs_CollapsedUpTo m g -> MainJs_CollapsedUpTo m g'.
Proof.
  unfold MainJs_flags. intros E. injection E as Er _. intros H k r' Hk.
  destruct (map_eq_lookup roomFlags _ _ k r' Er Hk) as (r & Hr & F).
  unfold roomFlags in F. injection F as _ F _. rewrite <- F. eauto.
Qed.

Lemma MainJs_collapseCorridorIfConnected_corridors env roomIndex j g g' :
  MainJs.collapseCorridorIfConnected env roomIndex j g = Some g' ->
  MainJs.rooms g' = MainJs.rooms g /\
  (forall k, k <> j -> MainJs.corridors g' !! k = MainJs.corridors g !! k) /\
  (forall c, MainJs.corridors g !! j = Some c ->
     exists c', MainJs.corridors g' !! j = Some c' /\
                CorridorStep (MainJs.rooms g) roomIndex c c').
Proof.
  unfold MainJs.collapseCorridorIfConnected.
  destruct (MainJs.corridors g !! j) as [c|] eqn:Ej.
  2:{ intros E. injection E as <-. repeat split; auto. intros c Hc. discriminate. }
  destruct (MainJs.corridor_isCollapsed c) eqn:Ec.
  { intros E. injection E as <-. repeat split; auto.
    intros c0 Hc. injection Hc as <-. exists c. split; [exact Ej|].
    unfold CorridorStep. rewrite Ec. repeat split; auto. }
  destruct (MainJs.includes (MainJs.corridor_connectedRooms c) roomIndex) eqn:Einc.
  2:{ intros E. injection E as <-. repeat split; auto.
      intros c0 Hc. injection Hc as <-. exists c. split; [exact Ej|].
      unfold CorridorStep. rewrite Ec, Einc. repeat split; auto.
      intros H. discriminate. }
  destruct (MainJs.corridor_connectedRooms c) as [room1 room2] eqn:Ecr.
  destruct (MainJs.rooms g !! room1) as [r1|] eqn:E1; [|discriminate].
  cbn [mbind option_bind].
  destruct (MainJs.rooms g !! room2) as [r2|] eqn:E2; [|discriminate].
  cbn [mbind option_bind].
  destruct (room_isCollapsed r1 || room_isCollapsed r2) eqn:Eor.
  - cbn [MainJs.now MainJs.random]. intros E. injection E as <-.
    cbn [MainJs.rooms MainJs.corridors MainJs.set_collapsedCorridors
         MainJs.set_corridors MainJs.set_randomDraws MainJs.set_clockReads].
    split; [reflexivity|]. split.
    + intros k Hk. apply list_lookup_insert_ne. auto.
    + intros c0 Hc. injection Hc as <-. eexists. split.
      * apply list_lookup_insert_eq. eapply lookup_lt_Some, Ej.
      * unfold CorridorStep. rewrite Ec, Ecr, Einc. cbn [fst snd].
        split; [exact Ecr|]. split; [intros H; discriminate|].
        split; [auto|]. split; [intros H; discriminate|].
        intros _ r1' r2' H1 H2. rewrite E1 in H1. rewrite E2 in H2.
        injection H1 as <-. injection H2 as <-.
        cbn [orb]. rewrite Eor. reflexivity.
  - intros E. injection E as <-. repeat split; auto.
    intros c0 Hc. injection Hc as <-. exists c. split; [exact Ej|].
    unfold CorridorStep. rewrite Ec, Ecr, Einc. cbn [fst snd].
    repeat split; auto; try (intros H; discriminate).
    intros _ r1' r2' H1 H2. rewrite E1 in H1. rewrite E2 in H2.
    injection H1 as <-. injection H2 as <-.
    cbn [orb]. rewrite Eor. reflexivity.
Qed.

Lemma MainJs_collapseCorridors_loop env roomIndex : forall n k g g',
  MainJs.forEachM (MainJs.collapseCorridorIfConnected env roomIndex) (seq k n) g
    = Some g' ->
  MainJs.rooms g' = MainJs.rooms g /\
  (forall j, (j < k \/ k + n <= j)%nat ->
     MainJs.corridors g' !! j = MainJs.corridors g !! j) /\
  (forall j c, (k <= j < k + n)%nat -> MainJs.corridors g !! j = Some c ->
     exists c', MainJs.corridors g' !! j = Some c' /\
                CorridorStep (MainJs.rooms g) roomIndex c c').
Proof.
  induction n as [|n IH]; intros k g g'; cbn [seq MainJs.forEachM].
  - intros E. injection E as <-. repeat split; auto. intros j c Hj. lia.
  - destruct (MainJs.collapseCorridorIfConnected env roomIndex k g)
      as [g1|] eqn:E1; [|discriminate].
    cbn [mbind option_bind]. intros E.
    destruct (MainJs_collapseCorridorIfConnected_corridors _ _ _ _ _ E1)
      as (R1 & S1 & S2).
    destruct (IH (S k) g1 g' E) as (R2 & L1 & L2).
    split; [congruence|]. split.
    + intros j Hj. rewrite L1 by lia. apply S1. lia.
    + intros j c Hj Hc. destruct (decide (j = k)) as [->|Hne].
      * destruct (S2 c Hc) as (c' & Hc' & St).
        exists c'. split; [|exact St]. rewrite L1 by lia. exact Hc'.
      * rewrite <- R1. apply L2; [lia|]. rewrite S1 by exact Hne. exact Hc.
Qed.

Lemma MainJs_collapseConnectedCorridors_each env roomIndex g g' :
  MainJs.collapseConnectedCorridors env roomIndex g = Some g' ->
  MainJs.rooms g' = MainJs.rooms g /\
  List.length (MainJs.corridors g') = List.length (MainJs.corridors g) /\
  (forall j c, MainJs.corridors g !! j = Some c ->
     exists c', MainJs.corridors g' !! j = Some c' /\
                CorridorStep (MainJs.rooms g) roomIndex c c').
Proof.
  unfold MainJs.collapseConnectedCorridors. intros E.
  destruct (MainJs_collapseCorridors_loop env roomIndex _ _ _ _ E)
    as (R & L1 & L2).
  assert (Hall : forall j c, MainJs.corridors g !! j = Some c ->
     exists c', MainJs.corridors g' !! j = Some c' /\
                CorridorStep (MainJs.rooms g) roomIndex c c').
  { intros j c Hc. apply L2; [|exact Hc]. apply lookup_lt_Some in Hc. lia. }
  split; [exact R|]. split; [|exact Hall].
  destruct (Nat.lt_trichotomy (List.length (MainJs.corridors g'))
              (List.length (MainJs.corridors g))) as [Hlt|[Heq|Hgt]].
  - destruct (lookup_lt_is_Some_2 (MainJs.corridors g)
                (List.length (MainJs.corridors g')) Hlt) as [c Hc].
    destruct (Hall _ _ Hc) as (c' & Hc' & _).
    apply lookup_lt_Some in Hc'. lia.
  - exact Heq.
  - destruct (lookup_lt_is_Some_2 (MainJs.corridors g')
                (List.length (MainJs.corridors g)) Hgt) as [c Hc].
    rewrite L1 in Hc by lia. apply lookup_lt_Some in Hc. lia.
Qed.

Lemma MainJs_collapseRoomIfBehind_Shape env th i g g' :
  MainJs_Shape g -> MainJs.collapseRoomIfBehind env th i g = Some g' ->
  MainJs_Shape g'.
Proof.
  intros [S1 S2]. unfold MainJs.collapseRoomIfBehind.
  destruct (MainJs.rooms g !! i) as [room|] eqn:Ei;
    [|intros E; injection E as <-; split; assumption].
  destruct (room_isCollapsed room) eqn:Ec;
    [intros E; injection E as <-; split; assumption|].
  destruct (_ && _); [|intros E; injection E as <-; split; assumption].
  cbn [MainJs.now MainJs.random]. intros E.
  rewrite (S1 i room Ei) in E.
  destruct (MainJs_collapseConnectedCorridors_each _ _ _ _ E) as (R & _ & L).
  match type of E with
  | MainJs.collapseConnectedCorridors _ _
      (MainJs.createDebrisEffect ?e ?p ?h) = _ =>
      pose proof (MainJs_createDebrisEffect_level e p h) as Hl;
      assert (Hh : exists t rv,
                MainJs_level h =
                (<[i := MainJs.room_collapse room t rv]> (MainJs.rooms g),
                 MainJs.corridors g))
        by (eexists; eexists; reflexivity);
      set (g1 := MainJs.createDebrisEffect e p h) in *
  end.
  destruct Hh as (t & rv & Hh). rewrite Hh in Hl. clear Hh.
  unfold MainJs_level in Hl. injection Hl as Hr1 Hc1.
  set (room' := MainJs.room_collapse room t rv) in *.
  assert (Hlt : (i < List.length (MainJs.rooms g))%nat)
    by (eapply lookup_lt_Some, Ei).
  assert (Hroom : forall k r, MainJs.rooms g !! k = Some r ->
            exists r', MainJs.rooms g' !! k = Some r' /\
                       room_index r' = room_index r /\
                       room_isCollapsed r' =
                         (if decide (k = i) then true else room_isCollapsed r)).
  { intros k r Hk. rewrite R, Hr1. destruct (decide (k = i)) as [->|Hne].
    - rewrite list_lookup_insert_eq by exact Hlt.
      rewrite Ei in Hk. injection Hk as <-. exists room'. auto.
    - rewrite list_lookup_insert_ne by auto. exists r. auto. }
  split.
  - intros k r' Hk. rewrite R, Hr1 in Hk.
    destruct (decide (k = i)) as [->|Hne].
    + rewrite list_lookup_insert_eq in Hk by exact Hlt.
      injection Hk as <-. exact (S1 i room Ei).
    + rewrite list_lookup_insert_ne in Hk by auto. eauto.
  - intros j c' Hj.
    assert (Hjlt : (j < List.length (MainJs.corridors g1))%nat).
    { apply lookup_lt_Some in Hj.
      destruct (MainJs_collapseConnectedCorridors_each _ _ _ _ E) as (_ & Hlen & _).
      lia. }
    destruct (lookup_lt_is_Some_2 _ _ Hjlt) as [c Hc].
    destruct (L j c Hc) as (c'' & Hc'' & St).
    rewrite Hj in Hc''. injection Hc'' as <-.
    rewrite Hc1 in Hc.
    destruct (S2 j c Hc) as (Ecr & r1 & r2 & H1 & H2 & Eflag).
    destruct (Hroom j r1 H1) as (r1' & H1' & _ & F1).
    destruct (Hroom (S j) r2 H2) as (r2' & H2' & _ & F2).
    unfold CorridorStep in St. rewrite Ecr in St. cbn [fst snd] in St.
    destruct St as (T1 & T2 & T3 & T4 & T5).
    split; [exact T1|]. exists r1', r2'. split; [exact H1'|].
    split; [exact H2'|]. rewrite F1, F2.
    destruct (MainJs.includes (j, S j) i) eqn:Einc.
    + rewrite R in H1', H2'.
      rewrite (T5 eq_refl r1' r2' H1' H2'), F1, F2, Eflag.
      unfold MainJs.includes in Einc. cbn [fst snd] in Einc.
      apply orb_true_iff in Einc as [Einc|Einc]; apply Nat.eqb_eq in Einc.
      * destruct (decide (j = i)); [|congruence].
        destruct (room_isCollapsed r1 || room_isCollapsed r2);
          destruct (decide (S j = i)); destruct (room_isCollapsed r2);
          reflexivity.
      * destruct (decide (S j = i)); [|congruence].
        destruct (room_isCollapsed r1 || room_isCollapsed r2);
          destruct (decide (j = i)); destruct (room_isCollapsed r1);
          reflexivity.
    + rewrite (T4 eq_refl), Eflag.
      unfold MainJs.includes in Einc. cbn [fst snd] in Einc.
      apply orb_false_iff in Einc as [N1 N2].
      apply Nat.eqb_neq in N1, N2.
      destruct (decide (j = i)); [congruence|].
      destruct (decide (S j = i)); [congruence|]. reflexivity.
Qed.

Lemma MainJs_collapseRoomsBehindPlayer_Shape env g g' :
  MainJs_Shape g -> MainJs.collapseRoomsBehindPlayer env g = Some g' ->
  MainJs_Shape g'.
Proof.
  intros H. unfold MainJs.collapseRoomsBehindPlayer.
  apply (MainJs_forEachM_ind MainJs_Shape); [|exact H].
  intros i g1 g2 H1 E. eapply MainJs_collapseRoomIfBehind_Shape; eauto.
Qed.

Lemma MainJs_collapseRoomsBehindPlayer_upTo env m g g' :
  MainJs_Shape g -> MainJs_CollapsedUpTo m g ->
  MainJs.collapseRoomsBehindPlayer env g = Some g' ->
  MainJs_CollapsedUpTo (Nat.max m (Z.to_nat (collapseThresholdOf g))) g'.
Proof.
  intros [S1 _] Hm E. unfold MainJs.collapseRoomsBehindPlayer in E.
  fold (collapseThresholdOf g) in E.
  destruct (MainJs_collapseRooms_loop env _ _ _ _ _ E) as [L1 L2].
  intros k r' Hk.
  assert (Hlt : (k < List.length (MainJs.rooms g))%nat).
  { destruct (Nat.lt_ge_cases k (List.length (MainJs.rooms g))) as [Hl|Hg];
      [exact Hl|].
    rewrite L1 in Hk by lia. apply lookup_lt_Some in Hk. lia. }
  destruct (lookup_lt_is_Some_2 _ _ Hlt) as [r Hr].
  destruct (L2 k r ltac:(lia) Hr) as (r'' & Hr'' & (T1 & _ & T3 & _)).
  rewrite Hk in Hr''. injection Hr'' as <-.
  rewrite T3. unfold behind. rewrite (S1 k r Hr).
  pose proof (Hm k r Hr) as Hkm.
  rewrite orb_true_iff, andb_true_iff, Z.ltb_lt, Nat.ltb_lt, Hkm. lia.
Qed.

Lemma MainJs_init_Shape :
  MainJs_Shape MainJs.init /\ MainJs_CollapsedUpTo 0 MainJs.init.
Proof.
  unfold MainJs_Shape, MainJs_CollapsedUpTo, MainJs.init.
  cbn [MainJs.rooms MainJs.corridors].
  assert (Hr : forall k r, map MainJs.levelRoom (seq 0 MainJs.numRooms) !! k = Some r ->
               r = MainJs.levelRoom k /\ (k < MainJs.numRooms)%nat).
  { intros k r Hk. rewrite lookup_map in Hk.
    destruct (seq 0 MainJs.numRooms !! k) as [i|] eqn:E; [|discriminate].
    apply lookup_seq in E as [-> Hlt]. injection Hk as <-. auto. }
  assert (Hr' : forall k, (k < MainJs.numRooms)%nat ->
               map MainJs.levelRoom (seq 0 MainJs.numRooms) !! k =
               Some (MainJs.levelRoom k)).
  { intros k Hlt. rewrite lookup_map.
    rewrite (proj2 (lookup_seq 0 MainJs.numRooms k k) (conj eq_refl Hlt)).
    reflexivity. }
  split; [split|].
  - intros k r Hk. apply Hr in Hk as [-> _]. reflexivity.
  - intros j c Hj. rewrite lookup_map in Hj.
    destruct (seq 0 (MainJs.numRooms - 1) !! j) as [i|] eqn:E; [|discriminate].
    apply lookup_seq in E as [-> Hlt]. injection Hj as <-.
    split; [reflexivity|].
    exists (MainJs.levelRoom j), (MainJs.levelRoom (S j)).
    split; [apply Hr'; lia|]. split; [apply Hr'; lia|]. reflexivity.
  - intros k r Hk. apply Hr in Hk as [-> _]. cbn. split; [discriminate|lia].
Qed.

Lemma MainJs_animate_Shape env f g g' m :
  MainJs_Shape g -> MainJs_CollapsedUpTo m g ->
  MainJs.animate env f g = Some g' ->
  MainJs_Shape g' /\ exists m', (m <= m')%nat /\ MainJs_CollapsedUpTo m' g'.
Proof.
  intros H Hm E. destruct (MainJs.gameActive g) eqn:Ha.
  2:{ unfold MainJs.animate in E. rewrite Ha in E. injection E as <-.
      split; [exact H|]. exists m. auto. }
  destruct (MainJs_animate_split env f g g' Ha E) as (g1 & g2 & E1 & E2 & E3).
  assert (F1 : MainJs_flags g1 = MainJs_flags g)
    by (rewrite E1; apply MainJs_before_collapse_flags).
  assert (F2 : MainJs_flags g' = MainJs_flags g2).
  { rewrite E3.
    rewrite (MainJs_flags_level _ _ (MainJs_updateDebrisParticles_level _ _ _)).
    rewrite MainJs_updateCollapsingCorridors_flags.
    apply MainJs_updateCollapsingRooms_flags. }
  pose proof (MainJs_Shape_flags _ _ F1 H) as H1.
  pose proof (MainJs_CollapsedUpTo_flags m _ _ F1 Hm) as Hm1.
  split.
  - apply (MainJs_Shape_flags _ _ F2).
    eapply MainJs_collapseRoomsBehindPlayer_Shape; eauto.
  - exists (Nat.max m (Z.to_nat (collapseThresholdOf g1))). split; [lia|].
    apply (MainJs_CollapsedUpTo_flags _ _ _ F2).
    eapply MainJs_collapseRoomsBehindPlayer_upTo; eauto.
Qed.

Lemma MainJs_reachable_Shape env g :
  MainJs_reachable env g ->
  MainJs_Shape g /\ exists m, MainJs_CollapsedUpTo m g.
Proof.
  induction 1 as [|g Hg [IH (m & IHm)]|f g g' Hg [IH (m & IHm)] Hstep].
  - destruct MainJs_init_Shape as [H1 H2]. eauto.
  - assert (F : MainJs_flags (MainJs.onClick env g) = MainJs_flags g)
      by (apply MainJs_flags_level, MainJs_onClick_level).
    split; [exact (MainJs_Shape_flags _ _ F IH)|].
    exists m. exact (MainJs_CollapsedUpTo_flags m _ _ F IHm).
  - destruct (MainJs_animate_Shape env f g g' m IH IHm Hstep)
      as (H1 & m' & _ & H2).
    eauto.
Qed.

(** X10.  The collapse of [main.js] keeps its shape in every state a
    session can reach.  Room [k] of the array has index [k] and corridor
    [j] joins the rooms [j] and [j + 1].  The collapsed rooms are the rooms
    1, ..., m - 1 for some m: rooms collapse in order from the start, with
    no standing room between collapsed ones.  A corridor is collapsed
    exactly when one of the two rooms it joins is, so no corridor is left
    standing next to a collapsed room.  [collapseConnectedCorridors] itself
    leaves the rooms alone, keeps every collapsed corridor and every
    corridor not attached to the given room as it is, and collapses a
    standing corridor attached to that room exactly when a room at one of
    its ends is collapsed. *)
Theorem X10_collapse_keeps_its_shape :
  (forall env g, MainJs_reachable env g ->
     MainJs_Shape g /\ exists m, MainJs_CollapsedUpTo m g) /\
  (forall env roomIndex g g',
     MainJs.collapseConnectedCorridors env roomIndex g = Some g' ->
     MainJs.rooms g' = MainJs.rooms g /\
     List.length (MainJs.corridors g') = List.length (MainJs.corridors g) /\
     forall j c, MainJs.corridors g !! j = Some c ->
       exists c', MainJs.corridors g' !! j = Some c' /\
                  CorridorStep (MainJs.rooms g) roomIndex c c').
Proof.
  split.
  - exact MainJs_reachable_Shape.
  - exact MainJs_collapseConnectedCorridors_each.
Qed.

(** Right after the click: the level has its shape, and collapsing the
    corridors of room 1 leaves the rooms alone. *)
Lemma X10_shape_after_the_click :
  MainJs_reachable env0 mainStarted /\ MainJs_Shape mainStarted /\
  exists g', MainJs.collapseConnectedCorridors env0 1 mainStarted = Some g' /\
             MainJs.rooms g' = MainJs.rooms mainStarted.
Proof.
  assert (R : MainJs_reachable env0 mainStarted)
    by (apply MainJs_reach_click, MainJs_reach_init).
  split; [exact R|].
  split; [exact (proj1 (proj1 X10_collapse_keeps_its_shape env0 mainStarted R))|].
  destruct (MainJs_collapseConnectedCorridors_step env0 1 mainStarted
              (MainJs_reachable_Inv env0 mainStarted R)) as (g' & E & _).
  exists g'. split; [exact E|].
  exact (proj1 (proj2 X10_collapse_keeps_its_shape env0 1%nat mainStarted g' E)).
Defined.

(** ** The queues of collapsing rooms and corridors *)

Lemma QueueOf_ext {A B} (f : A -> B) (isC : A -> bool) (l l' : list A) q :
  (forall a a', f a = f a' -> isC a = isC a') ->
  map f l' = map f l -> QueueOf isC l q -> QueueOf isC l' q.
Proof.
  intros Hf E [H1 H2]. split; [exact H1|]. intros k. rewrite H2. split.
  - intros (a & Ha & Hc).
    destruct (map_eq_lookup f l' l k a (eq_sym E) Ha) as (a' & Ha' & F).
    exists a'. split; [exact Ha'|]. rewrite (Hf _ _ F). exact Hc.
  - intros (a' & Ha' & Hc).
    destruct (map_eq_lookup f l l' k a' E Ha') as (a & Ha & F).
    exists a. split; [exact Ha|]. rewrite (Hf _ _ F). exact Hc.
Qed.

Lemma QueueOf_push {A} (isC : A -> bool) (l : list A) q i a a' :
  QueueOf isC l q -> l !! i = Some a -> isC a = false -> isC a' = true ->
  QueueOf isC (<[i := a']> l) (q ++ [i]).
Proof.
  intros [H1 H2] Hi Ha Ha'.
  assert (Hlt : (i < List.length l)%nat) by (eapply lookup_lt_Some, Hi).
  split.
  - apply NoDup_app. split; [exact H1|]. split.
    + intros k Hk Hki. apply list_elem_of_singleton in Hki as ->.
      apply H2 in Hk as (a0 & Ha0 & Hc). congruence.
    + apply NoDup_singleton.
  - intros k. rewrite elem_of_app, list_elem_of_singleton, H2.
    destruct (decide (k = i)) as [->|Hne].
    + rewrite list_lookup_insert_eq by exact Hlt. split; [eauto|auto].
    + rewrite list_lookup_insert_ne by auto. split; [|auto].
      intros [H|H]; [exact H|contradiction].
Qed.

Lemma roomFlags_isCollapsed r r' :
  roomFlags r = roomFlags r' -> room_isCollapsed r = room_isCollapsed r'.
Proof. unfold roomFlags. intros E. injection E as _ E _. exact E. Qed.

Lemma corridorFlags_isCollapsed c c' :
  corridorFlags c = corridorFlags c' ->
  MainJs.corridor_isCollapsed c = MainJs.corridor_isCollapsed c'.
Proof. unfold corridorFlags. intros E. injection E as _ E _. exact E. Qed.

Lemma MainJs_Queued_ext g g' :
  MainJs_flags g' = MainJs_flags g -> MainJs_queues g' = MainJs_queues g ->
  MainJs_Queued g -> MainJs_Queued g'.
Proof.
  unfold MainJs_flags, MainJs_queues, MainJs_Queued.
  intros F Q [H1 H2]. injection F as F1 F2. injection Q as -> ->. split.
  - exact (QueueOf_ext roomFlags _ _ _ _ roomFlags_isCollapsed F1 H1).
  - exact (QueueOf_ext corridorFlags _ _ _ _ corridorFlags_isCollapsed F2 H2).
Qed.

Lemma MainJs_queues_structures g g' :
  MainJs_structures g' = MainJs_structures g -> MainJs_queues g' = MainJs_queues g.
Proof.
  unfold MainJs_structures, MainJs_queues. intros E.
  injection E as _ _ -> -> _. reflexivity.
Qed.

Lemma MainJs_createDebrisEffect_queues env position g :
  MainJs_queues (MainJs.createDebrisEffect env position g) = MainJs_queues g.
Proof.
  unfold MainJs.createDebrisEffect. cbn [MainJs.random].
  set (g0 := MainJs.set_randomDraws g _).
  change (MainJs_queues g) with (MainJs_queues g0).
  generalize (Z.to_nat (10 + Zfloor (Math_random env (MainJs.randomDraws g) * 6))).
  intros n. induction n as [|n IH]; [reflexivity|].
  cbn [Nat.iter]. rewrite <- IH. reflexivity.
Qed.

Lemma MainJs_collapseCorridorIfConnected_Queued env roomIndex j g g' :
  MainJs_Queued g ->
  MainJs.collapseCorridorIfConnected env roomIndex j g = Some g' ->
  MainJs_Queued g'.
Proof.
  intros [H1 H2]. unfold MainJs.collapseCorridorIfConnected.
  destruct (MainJs.corridors g !! j) as [c|] eqn:Ej;
    [|intros E; injection E as <-; split; assumption].
  destruct (MainJs.corridor_isCollapsed c) eqn:Ec;
    [intros E; injection E as <-; split; assumption|].
  destruct (MainJs.includes _ _);
    [|intros E; injection E as <-; split; assumption].
  destruct (MainJs.corridor_connectedRooms c) as [room1 room2].
  destruct (MainJs.rooms g !! room1) as [r1|]; [|discriminate].
  cbn [mbind option_bind].
  destruct (MainJs.rooms g !! room2) as [r2|]; [|discriminate].
  cbn [mbind option_bind].
  destruct (room_isCollapsed r1 || room_isCollapsed r2);
    [|intros E; injection E as <-; split; assumption].
  cbn [MainJs.now MainJs.random]. intros E. injection E as <-.
  split; [exact H1|].
  cbn [MainJs.corridors MainJs.collapsedCorridors MainJs.set_collapsedCorridors
       MainJs.set_corridors MainJs.set_randomDraws MainJs.set_clockReads].
  eapply QueueOf_push; eauto.
Qed.

Lemma MainJs_collapseRoomIfBehind_Queued env th i g g' :
  MainJs_Queued g -> MainJs.collapseRoomIfBehind env th i g = Some g' ->
  MainJs_Queued g'.
Proof.
  intros [H1 H2]. unfold MainJs.collapseRoomIfBehind.
  destruct (MainJs.rooms g !! i) as [room|] eqn:Ei;
    [|intros E; injection E as <-; split; assumption].
  destruct (room_isCollapsed room) eqn:Ec;
    [intros E; injection E as <-; split; assumption|].
  destruct (_ && _); [|intros E; injection E as <-; split; assumption].
  cbn [MainJs.now MainJs.random]. unfold MainJs.collapseConnectedCorridors.
  apply (MainJs_forEachM_ind MainJs_Queued).
  { intros j g1 g2 Hq E. eapply MainJs_collapseCorridorIfConnected_Queued; eauto. }
  match goal with
  | |- MainJs_Queued (MainJs.createDebrisEffect ?e ?p ?h) =>
      apply (MainJs_Queued_ext h);
        [apply MainJs_flags_level, MainJs_createDebrisEffect_level
        |apply MainJs_createDebrisEffect_queues|]
  end.
  split; [|exact H2].
  cbn [MainJs.rooms MainJs.collapsedRooms MainJs.set_collapsedRooms
       MainJs.set_rooms MainJs.set_randomDraws MainJs.set_clockReads].
  eapply QueueOf_push; eauto.
Qed.

Lemma MainJs_updateCollapsing_queues env g :
  MainJs_queues (MainJs.updateCollapsingCorridors env
                   (MainJs.updateCollapsingRooms env g)) = MainJs_queues g.
Proof.
  assert (H1 : MainJs_queues (MainJs.updateCollapsingRooms env g) = MainJs_queues g).
  { unfold MainJs.updateCollapsingRooms.
    apply (MainJs_forEach_ind (fun g' => MainJs_queues g' = MainJs_queues g));
      [|reflexivity].
    intros i g' H. unfold MainJs.updateCollapsingRoom.
    destruct (MainJs.rooms g' !! i); exact H. }
  rewrite <- H1. unfold MainJs.updateCollapsingCorridors.
  apply (MainJs_forEach_ind
           (fun g' => MainJs_queues g' =
                      MainJs_queues (MainJs.updateCollapsingRooms env g)));
    [|reflexivity].
  intros i g' H. unfold MainJs.updateCollapsingCorridor.
  destruct (MainJs.corridors g' !! i); exact H.
Qed.

Lemma MainJs_animate_Queued env f g g' :
  MainJs_Queued g -> MainJs.animate env f g = Some g' -> MainJs_Queued g'.
Proof.
  intros H E. destruct (MainJs.gameActive g) eqn:Ha.
  2:{ unfold MainJs.animate in E. rewrite Ha in E. injection E as <-. exact H. }
  destruct (MainJs_animate_split env f g g' Ha E) as (g1 & g2 & E1 & E2 & E3).
  assert (Q1 : MainJs_queues g1 = MainJs_queues g).
  { assert (Q0 : MainJs_queues (MainJs.updateMapMovement env (deltaTime f) g) =
                 MainJs_queues g)
      by (unfold MainJs.updateMapMovement; destruct (negb _); reflexivity).
    rewrite E1, <- Q0. apply MainJs_queues_structures.
    rewrite MainJs_animatePortal_structures.
    apply (MainJs_forEach_ind
             (fun g' => MainJs_structures g' =
                        MainJs_structures
                          (MainJs.updateMapMovement env (deltaTime f) g))).
    { intros i g0 H0. rewrite MainJs_animateCore_structures. exact H0. }
    rewrite MainJs_updateHUD_structures. apply MainJs_updatePlayer_structures. }
  assert (H1 : MainJs_Queued g1).
  { apply (MainJs_Queued_ext g); [|exact Q1|exact H].
    rewrite E1. apply MainJs_before_collapse_flags. }
  assert (H2 : MainJs_Queued g2).
  { unfold MainJs.collapseRoomsBehindPlayer in E2.
    revert E2. apply (MainJs_forEachM_ind MainJs_Queued); [|exact H1].
    intros i ga gb Hq Eq. eapply MainJs_collapseRoomIfBehind_Queued; eauto. }
  apply (MainJs_Queued_ext g2); [| |exact H2].
  - rewrite E3.
    rewrite (MainJs_flags_level _ _ (MainJs_updateDebrisParticles_level _ _ _)).
    rewrite MainJs_updateCollapsingCorridors_flags.
    apply MainJs_updateCollapsingRooms_flags.
  - rewrite E3.
    change (MainJs_queues (MainJs.updateDebrisParticles env (deltaTime f) ?h))
      with (MainJs_queues h).
    apply MainJs_updateCollapsing_queues.
Qed.

Lemma Part000_checkCollisions_structures env g :
  Part000_structures (Part000.checkCollisions env g) = Part000_structures g.
Proof.
  unfold Part000.checkCollisions.
  destruct (Part000_checkCores env g) as (k & _ & ->).
  cbn [Part000_withCores Part000.exitPortal Part000.set_clockReads
       Part000.set_player Part000.set_dataCores Part000.set_collapseInterval].
  destruct (Part000.exitPortal g); [|reflexivity].
  destruct (ltb _ 3); [|reflexivity].
  destruct (2 <=? _)%nat; reflexivity.
Qed.

Lemma Part000_updatePlayer_structures env f g :
  Part000_structures (Part000.updatePlayer env f g) = Part000_structures g.
Proof.
  unfold Part000.updatePlayer. destruct (negb _); [reflexivity|].
  unfold Part000.voidCheck, Part000.moveAndCollide.
  destruct (ltb _ _).
  - change (Part000_structures (Part000.endGame ?w ?m ?h))
      with (Part000_structures h).
    rewrite Part000_checkCollisions_structures. reflexivity.
  - rewrite Part000_checkCollisions_structures. reflexivity.
Qed.

Lemma Part000_before_collapse_structures env f g :
  Part000_structures
    (Part000.animatePortal env (deltaTime f)
       (Part000.forEach (Part000.animateCore env (deltaTime f))
          (seq 0 (List.length (Part000.dataCores
             (Part000.updateHUD env (Part000.updatePlayer env f g)))))
          (Part000.updateHUD env (Part000.updatePlayer env f g)))) =
  Part000_structures g.
Proof.
  assert (Hp : forall h, Part000_structures
                           (Part000.animatePortal env (deltaTime f) h) =
                         Part000_structures h)
    by (intros h; unfold Part000.animatePortal;
        destruct (Part000.exitPortal h); reflexivity).
  rewrite Hp.
  apply (Part000_forEach_ind
           (fun g' => Part000_structures g' = Part000_structures g)).
  - intros i g' H. unfold Part000.animateCore.
    destruct (Part000.dataCores g' !! i) as [core|]; [|exact H].
    destruct (negb _); exact H.
  - rewrite <- (Part000_updatePlayer_structures env f g).
    unfold Part000.updateHUD.
    destruct (Part000.gameActive _); reflexivity.
Qed.

Lemma Part000_updateCollapsingRooms_queue env g :
  map roomFlags (Part000.rooms (Part000.updateCollapsingRooms env g)) =
    map roomFlags (Part000.rooms g) /\
  Part000.collapsedRooms (Part000.updateCollapsingRooms env g) =
    Part000.collapsedRooms g.
Proof.
  unfold Part000.updateCollapsingRooms.
  apply (Part000_forEach_ind
           (fun g' => map roomFlags (Part000.rooms g') =
                        map roomFlags (Part000.rooms g) /\
                      Part000.collapsedRooms g' = Part000.collapsedRooms g));
    [|split; reflexivity].
  intros i g' [H1 H2]. unfold Part000.updateCollapsingRoom.
  destruct (Part000.rooms g' !! i) as [room|] eqn:E; [|auto].
  split; [|exact H2]. rewrite <- H1.
  cbn [Part000.now Part000.rooms Part000.set_rooms Part000.set_clockReads].
  apply (map_insert_same roomFlags _ _ room); [exact E|].
  apply collapseStepRoom_flags.
Qed.

Lemma Part000_collapseOnCountdown_Queued env g g' :
  Part000_Queued g -> Part000.collapseOnCountdown env g = Some g' ->
  Part000_Queued g'.
Proof.
  intros H. unfold Part000.collapseOnCountdown. cbn [Part000.now].
  destruct (_ >? _)%Z; [|intros E; injection E as <-; exact H].
  set (g1 := Part000.set_clockReads g _).
  unfold Part000.collapseRandomRoom.
  destruct (_ =? 0)%nat.
  { cbn [mbind option_bind Part000.now]. intros E. injection E as <-. exact H. }
  cbn [Part000.random].
  destruct (Part000.at_ _ _) as [i|] eqn:Ei; [|discriminate].
  cbn [mbind option_bind].
  apply at_In, In_availableFrom in Ei as (r & Er & _ & Hc & _).
  rewrite Nat.sub_0_r in Er.
  change (Part000.rooms (Part000.set_randomDraws g1 _)) with (Part000.rooms g).
  change (Part000.rooms g1) with (Part000.rooms g) in Er.
  rewrite Er. cbn [mbind option_bind Part000.now].
  intros E. injection E as <-. unfold Part000_Queued.
  cbn [Part000.rooms Part000.collapsedRooms Part000.set_lastCollapseTime
       Part000.set_collapsedRooms Part000.set_rooms Part000.set_clockReads
       Part000.set_randomDraws].
  eapply QueueOf_push; eauto.
Qed.

Lemma Part000_animate_Queued env f g g' :
  Part000_Queued g -> Part000.animate env f g = Some g' -> Part000_Queued g'.
Proof.
  intros H. unfold Part000.animate.
  destruct (Part000.gameActive g); [|intros E; injection E as <-; exact H].
  cbv zeta.
  pose proof (Part000_before_collapse_structures env f g) as Hs.
  set (g1 := Part000.animatePortal _ _ _) in *.
  assert (H1 : Part000_Queued g1).
  { unfold Part000_structures in Hs. injection Hs as Hr _ Hq.
    unfold Part000_Queued. rewrite Hr, Hq. exact H. }
  destruct (Part000.collapseOnCountdown env g1) as [g2|] eqn:E2; [|discriminate].
  cbn [mbind option_bind]. intros E. injection E as <-.
  pose proof (Part000_collapseOnCountdown_Queued env g1 g2 H1 E2) as H2.
  destruct (Part000_updateCollapsingRooms_queue env g2) as [F Q].
  unfold Part000_Queued. rewrite Q.
  exact (QueueOf_ext roomFlags _ _ _ _ roomFlags_isCollapsed F H2).
Qed.

Lemma MainJs_reachable_Queued env g : MainJs_reachable env g -> MainJs_Queued g.
Proof.
  induction 1 as [|g Hg IH|f g g' Hg IH Hstep].
  - split; (split; [apply NoDup_nil_2|]); intros k; split.
    + intros Hk. inversion Hk.
    + intros (r & Hr & Hc). exfalso.
      cbn [MainJs.rooms MainJs.init] in Hr. rewrite lookup_map in Hr.
      destruct (seq 0 MainJs.numRooms !! k); [|discriminate].
      injection Hr as <-. discriminate.
    + intros Hk. inversion Hk.
    + intros (c & Hr & Hc). exfalso.
      cbn [MainJs.corridors MainJs.init] in Hr. rewrite lookup_map in Hr.
      destruct (seq 0 (MainJs.numRooms - 1) !! k); [|discriminate].
      injection Hr as <-. discriminate.
  - apply (MainJs_Queued_ext g); [| |exact IH].
    + apply MainJs_flags_level, MainJs_onClick_level.
    + apply MainJs_queues_structures, MainJs_onClick_structures.
  - eapply MainJs_animate_Queued; eauto.
Qed.

Lemma Part000_reachable_Queued env g :
  Part000_reachable env g -> Part000_Queued g.
Proof.
  induction 1 as [|g Hg IH|f g g' Hg IH Hstep].
  - split; [apply NoDup_nil_2|]. intros k; split.
    + intros Hk. inversion Hk.
    + intros (r & Hr & Hc). exfalso. cbn in Hr.
      do 12 (destruct k as [|k]; [injection Hr as <-; discriminate|]).
      discriminate.
  - unfold Part000.onClick. destruct (negb _); exact IH.
  - eapply Part000_animate_Queued; eauto.
Qed.



(** ** The player always runs forward *)








(** ** Mouse look *)

Lemma onMouseMove_pitch b e m :
  - PI / 2 <= mouse_y m <= PI / 2 ->
  - PI / 2 <= mouse_y (onMouseMove b e m) <= PI / 2.
Proof.
  intros H. unfold onMouseMove. destruct (negb b); [exact H|].
  cbn [mouse_y]. pose proof PI_RGT_0 as Hpi.
  unfold Rmax, Rmin.
  destruct (Rle_dec (PI / 2) _); destruct (Rle_dec (- PI / 2) _); lra.
Qed.

(** X13.  The vertical mouse look is clamped and the horizontal one is
    not.  Starting within [-pi/2, pi/2], the vertical angle stays within
    it after any run of mouse events, and the horizontal angle is the
    start angle plus 0.002 times the horizontal movement of the events
    that arrived while the game was active; events that arrive while the
    game is not active change nothing.  An active event whose vertical
    movement keeps the angle within the range simply adds 0.002 times the
    movement; one that would leave the range puts the angle on the
    boundary. *)
Theorem X13_vertical_look_is_clamped :
  (forall es m,
     - PI / 2 <= mouse_y m <= PI / 2 ->
     - PI / 2 <= mouse_y (mouseEvents es m) <= PI / 2 /\
     mouse_x (mouseEvents es m) = mouse_x m + movedX es) /\
  (forall e m, onMouseMove false e m = m) /\
  (forall e m,
     let my := mouse_y m + movementY e * 0.002 in
     (- PI / 2 <= my <= PI / 2 -> mouse_y (onMouseMove true e m) = my) /\
     (PI / 2 <= my -> mouse_y (onMouseMove true e m) = PI / 2) /\
     (my <= - PI / 2 -> mouse_y (onMouseMove true e m) = - PI / 2)).
Proof.
  split; [|split].
  - unfold mouseEvents. induction es as [|e es IH]; intros m H.
    + cbn. split; [exact H|lra].
    + cbn [fold_left movedX].
      destruct (IH (onMouseMove (fst e) (snd e) m)
                  (onMouseMove_pitch _ _ _ H)) as [I1 I2].
      split; [exact I1|]. rewrite I2. unfold onMouseMove.
      destruct (fst e); cbn [negb mouse_x]; lra.
  - reflexivity.
  - intros e m my. subst my. unfold onMouseMove. cbn [negb mouse_y].
    pose proof PI_RGT_0 as Hpi. unfold Rmax, Rmin.
    repeat split; intros H;
      destruct (Rle_dec (PI / 2) _); destruct (Rle_dec (- PI / 2) _); lra.
Qed.

(** Two large upward movements from the rest position: the second one is
    cut off at the boundary. *)
Lemma X13_look_up_twice :
  - PI / 2 <= mouse_y (mkMouse 0 0) <= PI / 2 /\
  - PI / 2 <= mouse_y (mouseEvents [(true, mkMouseEvent 10 1000);
                                    (true, mkMouseEvent 10 1000)]
                         (mkMouse 0 0)) <= PI / 2.
Proof.
  assert (H : - PI / 2 <= mouse_y (mkMouse 0 0) <= PI / 2)
    by (pose proof PI_RGT_0; cbn; lra).
  split; [exact H|].
  exact (proj1 (proj1 X13_vertical_look_is_clamped _ _ H)).
Defined.

(** ** How a frame moves a core *)

Lemma MainJs_animateCore_at env dt i g :
  MainJs.mapDrift (MainJs.animateCore env dt i g) = MainJs.mapDrift g /\
  (forall k, k <> i ->
     MainJs.dataCores (MainJs.animateCore env dt i g) !! k =
     MainJs.dataCores g !! k) /\
  (forall c, MainJs.dataCores g !! i = Some c ->
     exists c', MainJs.dataCores (MainJs.animateCore env dt i g) !! i = Some c' /\
                MainJs_Bobbed dt (MainJs.offset (MainJs.mapDrift g)) c c').
Proof.
  unfold MainJs.animateCore.
  destruct (MainJs.dataCores g !! i) as [core|] eqn:Ei.
  2:{ repeat split; auto. intros c Hc. discriminate. }
  destruct (core_collected core) eqn:Ec; cbn [negb].
  - repeat split; auto. intros c Hc. injection Hc as <-.
    exists core. split; [exact Ei|]. unfold MainJs_Bobbed. rewrite Ec. reflexivity.
  - cbn [MainJs.now MainJs.mapDrift MainJs.dataCores MainJs.set_dataCores
         MainJs.set_clockReads].
    split; [reflexivity|]. split.
    + intros k Hk. apply list_lookup_insert_ne. auto.
    + intros c Hc. injection Hc as <-. eexists. split.
      * apply list_lookup_insert_eq. eapply lookup_lt_Some, Ei.
      * unfold MainJs_Bobbed. rewrite Ec. eexists. reflexivity.
Qed.

Lemma MainJs_animateCores_loop env dt : forall n k g,
  let g' := MainJs.forEach (MainJs.animateCore env dt) (seq k n) g in
  MainJs.mapDrift g' = MainJs.mapDrift g /\
  (forall i, (i < k \/ k + n <= i)%nat ->
     MainJs.dataCores g' !! i = MainJs.dataCores g !! i) /\
  (forall i c, (k <= i < k + n)%nat -> MainJs.dataCores g !! i = Some c ->
     exists c', MainJs.dataCores g' !! i = Some c' /\
                MainJs_Bobbed dt (MainJs.offset (MainJs.mapDrift g)) c c').
Proof.
  induction n as [|n IH]; intros k g; cbn [seq MainJs.forEach].
  - repeat split; auto. intros i c Hi. lia.
  - destruct (MainJs_animateCore_at env dt k g) as (M1 & S1 & S2).
    destruct (IH (S k) (MainJs.animateCore env dt k g)) as (M2 & L1 & L2).
    cbv zeta. split; [congruence|]. split.
    + intros i Hi. rewrite L1 by lia. apply S1. lia.
    + intros i c Hi Hc. destruct (decide (i = k)) as [->|Hne].
      * destruct (S2 c Hc) as (c' & Hc' & B).
        exists c'. split; [|exact B]. rewrite L1 by lia. exact Hc'.
      * rewrite <- M1. apply L2; [lia|]. rewrite S1 by exact Hne. exact Hc.
Qed.

Lemma Part000_animateCore_at env dt i g :
  (forall k, k <> i ->
     Part000.dataCores (Part000.animateCore env dt i g) !! k =
     Part000.dataCores g !! k) /\
  (forall c, Part000.dataCores g !! i = Some c ->
     exists c', Part000.dataCores (Part000.animateCore env dt i g) !! i = Some c' /\
                Part000_Bobbed dt c c').
Proof.
  unfold Part000.animateCore.
  destruct (Part000.dataCores g !! i) as [core|] eqn:Ei.
  2:{ repeat split; auto. intros c Hc. discriminate. }
  destruct (core_collected core) eqn:Ec; cbn [negb].
  - repeat split; auto. intros c Hc. injection Hc as <-.
    exists core. split; [exact Ei|]. unfold Part000_Bobbed. rewrite Ec. reflexivity.
  - cbn [Part000.now Part000.dataCores Part000.set_dataCores
         Part000.set_clockReads].
    split.
    + intros k Hk. apply list_lookup_insert_ne. auto.
    + intros c Hc. injection Hc as <-. eexists. split.
      * apply list_lookup_insert_eq. eapply lookup_lt_Some, Ei.
      * unfold Part000_Bobbed. rewrite Ec. eexists. reflexivity.
Qed.

Lemma Part000_animateCores_loop env dt : forall n k g,
  let g' := Part000.forEach (Part000.animateCore env dt) (seq k n) g in
  (forall i, (i < k \/ k + n <= i)%nat ->
     Part000.dataCores g' !! i = Part000.dataCores g !! i) /\
  (forall i c, (k <= i < k + n)%nat -> Part000.dataCores g !! i = Some c ->
     exists c', Part000.dataCores g' !! i = Some c' /\ Part000_Bobbed dt c c').
Proof.
  induction n as [|n IH]; intros k g; cbn [seq Part000.forEach].
  - repeat split; auto. intros i c Hi. lia.
  - destruct (Part000_animateCore_at env dt k g) as (S1 & S2).
    destruct (IH (S k) (Part000.animateCore env dt k g)) as (L1 & L2).
    cbv zeta. split.
    + intros i Hi. rewrite L1 by lia. apply S1. lia.
    + intros i c Hi Hc. destruct (decide (i = k)) as [->|Hne].
      * destruct (S2 c Hc) as (c' & Hc' & B).
        exists c'. split; [|exact B]. rewrite L1 by lia. exact Hc'.
      * apply L2; [lia|]. rewrite S1 by exact Hne. exact Hc.
Qed.

Lemma MainJs_updatePlayer_cores env f g :
  MainJs.mapDrift (MainJs.updatePlayer env f g) = MainJs.mapDrift g /\
  (MainJs.dataCores (MainJs.updatePlayer env f g) = MainJs.dataCores g \/
   exists pos, MainJs.dataCores (MainJs.updatePlayer env f g) =
               map (pickUp pos) (MainJs.dataCores g)).
Proof.
  unfold MainJs.updatePlayer. destruct (negb _); [auto|].
  set (g1 := MainJs.moveAndCollide env f g).
  assert (H1 : MainJs.mapDrift g1 = MainJs.mapDrift g /\
               exists pos, MainJs.dataCores g1 =
                           map (pickUp pos) (MainJs.dataCores g)).
  { subst g1. unfold MainJs.moveAndCollide. cbv zeta.
    match goal with
    | |- context [MainJs.checkCollisions env ?h] =>
        destruct (MainJs_checkCollisions_cores env h) as [E1 _];
        set (g0 := h) in *
    end.
    split; [|eexists; exact E1].
    unfold MainJs.checkCollisions.
    destruct (MainJs_checkCores env g0) as (k & _ & ->).
    cbn [MainJs_withCores MainJs.exitPortal MainJs.set_clockReads
         MainJs.set_player MainJs.set_dataCores].
    destruct (MainJs.exitPortal g0); [|reflexivity].
    destruct (ltb _ 3); reflexivity. }
  unfold MainJs.voidCheck. destruct (ltb _ _); destruct H1 as [M D]; auto.
Qed.

Lemma Part000_updatePlayer_cores env f g :
  Part000.dataCores (Part000.updatePlayer env f g) = Part000.dataCores g \/
  exists pos, Part000.dataCores (Part000.updatePlayer env f g) =
              map (pickUp pos) (Part000.dataCores g).
Proof.
  unfold Part000.updatePlayer. destruct (negb _); [auto|].
  set (g1 := Part000.moveAndCollide env f g).
  assert (H1 : exists pos, Part000.dataCores g1 =
                           map (pickUp pos) (Part000.dataCores g)).
  { subst g1. unfold Part000.moveAndCollide. cbv zeta.
    match goal with
    | |- context [Part000.checkCollisions env ?h] =>
        destruct (Part000_checkCollisions_cores env h) as [E1 _]
    end.
    eexists; exact E1. }
  unfold Part000.voidCheck. destruct (ltb _ _); auto.
Qed.

Lemma pickUp_cases pos c :
  (pickUp pos c = c) \/
  (core_collected c = false /\ pickUp pos c = collected c).
Proof.
  unfold pickUp, inReach. destruct (core_collected c); cbn [negb andb]; [auto|].
  destruct (ltb _ 2); auto.
Qed.

Lemma sin_scaled_bound a m : 0 <= m -> Rabs (sin a * m) <= m.
Proof.
  intros Hm. pose proof (SIN_bound a) as [H1 H2].
  unfold Rabs. destruct (Rcase_abs _); nra.
Qed.

Lemma MainJs_frame_core env f g g' :
  MainJs.gameActive g = true -> MainJs.animate env f g = Some g' ->
  forall i c, MainJs.dataCores g !! i = Some c ->
    exists c', MainJs.dataCores g' !! i = Some c' /\
      (core_collected c = true -> c' = c) /\
      (core_collected c = false ->
         MainJs_CoreFrame (deltaTime f) (MainJs.offset (MainJs.mapDrift g')) c c').
Proof.
  intros Ha E i c Hi.
  destruct (MainJs_animate_split env f g g' Ha E) as (g1 & g2 & E1 & E2 & E3).
  assert (A : MainJs_actors g' = MainJs_actors g1).
  { rewrite <- (MainJs_collapseRoomsBehindPlayer_actors env g1 g2 E2), E3.
    change (MainJs_actors (MainJs.updateDebrisParticles env (deltaTime f) ?h))
      with (MainJs_actors h).
    rewrite MainJs_updateCollapsingCorridors_actors.
    apply MainJs_updateCollapsingRooms_actors. }
  unfold MainJs_actors in A. injection A as _ Ad _ Am _ _ _ _.
  rewrite Ad, Am. clear Ad Am E2 E3 g2 E.
  destruct (updateMapMovement_fields env (deltaTime f) g Ha)
    as (_ & _ & D0 & _ & O0 & _).
  cbv zeta in D0, O0.
  set (off := MainJs.driftOffset _ _) in *.
  set (g0 := MainJs.updateMapMovement env (deltaTime f) g) in *.
  destruct (MainJs_updatePlayer_cores env f g0) as [Mp Dp].
  set (gp := MainJs.updatePlayer env f g0) in *.
  assert (Hh : MainJs.mapDrift (MainJs.updateHUD env gp) = MainJs.mapDrift gp /\
               MainJs.dataCores (MainJs.updateHUD env gp) = MainJs.dataCores gp)
    by (unfold MainJs.updateHUD; destruct (MainJs.gameActive gp);
        split; reflexivity).
  destruct Hh as [Mh Dh].
  set (gh := MainJs.updateHUD env gp) in *.
  destruct (MainJs_animateCores_loop env (deltaTime f)
              (List.length (MainJs.dataCores gh)) 0 gh) as (Ml & _ & Ll).
  cbv zeta in Ml, Ll.
  set (gl := MainJs.forEach _ _ gh) in *.
  assert (Hq : MainJs.mapDrift (MainJs.animatePortal env (deltaTime f) gl) =
                 MainJs.mapDrift gl /\
               MainJs.dataCores (MainJs.animatePortal env (deltaTime f) gl) =
                 MainJs.dataCores gl)
    by (unfold MainJs.animatePortal; destruct (MainJs.exitPortal gl);
        split; reflexivity).
  destruct Hq as [Mq Dq]. rewrite E1, Mq, Dq, Ml, Mh, Mp, O0.
  set (c1 := MainJs.driftCore off c).
  assert (H1 : MainJs.dataCores g0 !! i = Some c1)
    by (rewrite D0, lookup_map, Hi; reflexivity).
  assert (H2 : exists c2, MainJs.dataCores gh !! i = Some c2 /\
                 (c2 = c1 \/ (core_collected c1 = false /\ c2 = collected c1))).
  { rewrite Dh. destruct Dp as [->|[pos ->]].
    - exists c1. auto.
    - rewrite lookup_map, H1. exists (pickUp pos c1). split; [reflexivity|].
      apply pickUp_cases. }
  destruct H2 as (c2 & H2 & C2).
  destruct (Ll i c2) as (c3 & H3 & B); [|exact H2|].
  { apply lookup_lt_Some in H2. lia. }
  rewrite Mh, Mp, O0 in B.
  exists c3. split; [exact H3|]. split.
  - intros Ec. assert (E1' : c1 = c)
      by (subst c1; unfold MainJs.driftCore; rewrite Ec; reflexivity).
    rewrite E1' in C2. destruct C2 as [->|[N _]]; [|congruence].
    unfold MainJs_Bobbed in B. rewrite Ec in B. exact B.
  - intros Ec. unfold MainJs_CoreFrame. cbv zeta.
    assert (E1' : c1 = core_set_pose c
                    (add (baseOr (core_basePosition c) (core_position c)) off)
                    (core_rotation_y c)
                    (Some (baseOr (core_basePosition c) (core_position c))))
      by (subst c1; unfold MainJs.driftCore; rewrite Ec; reflexivity).
    destruct C2 as [->|[_ ->]].
    + right. unfold MainJs_Bobbed in B. rewrite E1' in B.
      cbn [core_set_pose core_collected] in B. rewrite Ec in B.
      destruct B as [t ->].
      cbn [core_set_pose core_collected core_position core_basePosition
           core_light_position core_rotation_y baseY setY add x y z].
      split; [exact Ec|]. split; [reflexivity|]. split; [reflexivity|].
      split; [|auto].
      match goal with
      | |- Rabs (?a + ?b + ?s - (?a + ?b)) <= _ =>
          replace (a + b + s - (a + b)) with s by lra
      end.
      apply sin_scaled_bound. lra.
    + left. unfold MainJs_Bobbed in B. cbn [collected core_collected] in B.
      exact B.
Qed.

Lemma Part000_frame_core env f g g' :
  Part000.gameActive g = true -> Part000.animate env f g = Some g' ->
  forall i c, Part000.dataCores g !! i = Some c ->
    exists c', Part000.dataCores g' !! i = Some c' /\
      (core_collected c = true -> c' = c) /\
      (core_collected c = false -> Part000_CoreFrame (deltaTime f) c c').
Proof.
  intros Ha. unfold Part000.animate. rewrite Ha. cbv zeta.
  pose proof (Part000_updatePlayer_cores env f g) as Dp.
  set (gp := Part000.updatePlayer env f g) in *.
  assert (Dh : Part000.dataCores (Part000.updateHUD env gp) = Part000.dataCores gp)
    by (unfold Part000.updateHUD; destruct (Part000.gameActive gp); reflexivity).
  set (gh := Part000.updateHUD env gp) in *.
  destruct (Part000_animateCores_loop env (deltaTime f)
              (List.length (Part000.dataCores gh)) 0 gh) as (_ & Ll).
  cbv zeta in Ll.
  set (gl := Part000.forEach _ _ gh) in *.
  assert (Dq : Part000.dataCores (Part000.animatePortal env (deltaTime f) gl) =
               Part000.dataCores gl)
    by (unfold Part000.animatePortal; destruct (Part000.exitPortal gl);
        reflexivity).
  set (gq := Part000.animatePortal env (deltaTime f) gl) in *.
  destruct (Part000.collapseOnCountdown env gq) as [gc|] eqn:Ec; [|discriminate].
  cbn [mbind option_bind]. intros E. injection E as <-.
  assert (A : Part000_actors (Part000.updateCollapsingRooms env gc) =
              Part000_actors gq).
  { rewrite Part000_updateCollapsingRooms_actors.
    apply (Part000_collapseOnCountdown_actors env gq gc Ec). }
  unfold Part000_actors in A. injection A as _ Ad _ _ _ _ _.
  rewrite Ad, Dq. intros i c Hi.
  assert (H2 : exists c2, Part000.dataCores gh !! i = Some c2 /\
                 (c2 = c \/ (core_collected c = false /\ c2 = collected c))).
  { rewrite Dh. destruct Dp as [->|[pos ->]].
    - exists c. auto.
    - rewrite lookup_map, Hi. exists (pickUp pos c). split; [reflexivity|].
      apply pickUp_cases. }
  destruct H2 as (c2 & H2 & C2).
  destruct (Ll i c2) as (c3 & H3 & B); [|exact H2|].
  { apply lookup_lt_Some in H2. lia. }
  exists c3. split; [exact H3|]. split.
  - intros Ecc. destruct C2 as [->|[N _]]; [|congruence].
    unfold Part000_Bobbed in B. rewrite Ecc in B. exact B.
  - intros Ecc. unfold Part000_CoreFrame.
    destruct C2 as [->|[_ ->]].
    + right. unfold Part000_Bobbed in B. rewrite Ecc in B.
      destruct B as [t ->].
      cbn [core_collected core_position core_light_position core_rotation_y
           setY x y z].
      split; [reflexivity|]. split; [reflexivity|]. split; [reflexivity|].
      split; [|auto].
      match goal with
      | |- Rabs (?a + ?s - ?a) <= _ => replace (a + s - a) with s by lra
      end.
      apply sin_scaled_bound. lra.
    + left. unfold Part000_Bobbed in B. cbn [collected core_collected] in B.
      exact B.
Qed.

(** X14.  What a frame of an active game does to a core, in place [i] of
    the list.  A collected core is left exactly as it is.  A core that was
    not collected is either picked up in this frame or animated: in
    [main.js] it is then at its base position plus the drift offset of the
    frame, with the height at most 0.1 off, so the bobbing does not add up
    over the frames; its light is where the core is; and it has turned by
    2 * dt.  In the grid variant the animated core moves up or down by at
    most 0.01 from where it was in the frame before, and its light does
    not follow it. *)
Theorem X14_how_a_frame_moves_a_core :
  (forall env f g g',
     MainJs.gameActive g = true -> MainJs.animate env f g = Some g' ->
     forall i c, MainJs.dataCores g !! i = Some c ->
       exists c', MainJs.dataCores g' !! i = Some c' /\
         (core_collected c = true -> c' = c) /\
         (core_collected c = false ->
            MainJs_CoreFrame (deltaTime f)
              (MainJs.offset (MainJs.mapDrift g')) c c')) /\
  (forall env f g g',
     Part000.gameActive g = true -> Part000.animate env f g = Some g' ->
     forall i c, Part000.dataCores g !! i = Some c ->
       exists c', Part000.dataCores g' !! i = Some c' /\
         (core_collected c = true -> c' = c) /\
         (core_collected c = false -> Part000_CoreFrame (deltaTime f) c c')).
Proof.
  split.
  - exact MainJs_frame_core.
  - exact Part000_frame_core.
Qed.


(** The first core of [main.js] in the first frame after the click. *)
Lemma X14_first_core_in_the_first_frame :
  MainJs.gameActive mainStarted = true /\
  exists g', MainJs.animate env0 frame0 mainStarted = Some g' /\
    exists c', MainJs.dataCores g' !! 0%nat = Some c' /\
      MainJs_CoreFrame (deltaTime frame0) (MainJs.offset (MainJs.mapDrift g'))
        (MainJs.levelCore 5) c'.
Proof.
  split; [reflexivity|].
  assert (R : MainJs_reachable env0 mainStarted)
    by (apply MainJs_reach_click, MainJs_reach_init).
  destruct (MainJs_animate_step env0 frame0 mainStarted
              (MainJs_reachable_Inv env0 mainStarted R)) as (g' & E & _).
  exists g'. split; [exact E|].
  destruct (proj1 X14_how_a_frame_moves_a_core env0 frame0 mainStarted g'
              eq_refl E 0%nat (MainJs.levelCore 5) eq_refl)
    as (c' & H1 & _ & H3).
  exists c'. split; [exact H1|]. apply H3. reflexivity.
Defined.

(** ** How a session ends *)

Lemma atPortal_position pos o o' :
  option_map portal_position o' = option_map portal_position o ->
  atPortal pos o' = atPortal pos o.
Proof.
  destruct o as [p|], o' as [p'|]; cbn; intros E; try discriminate;
    [|reflexivity].
  injection E as ->. reflexivity.
Qed.

Lemma MainJs_updatePlayer_end env f g :
  MainJs.gameActive g = true ->
  let g' := MainJs.updatePlayer env f g in
  let pos := player_position (MainJs.player g') in
  MainJs.exitPortal g' = MainJs.exitPortal g /\
  (MainJs.gameActive g', MainJs.panel g') =
    frameResult (ltb (y pos) (-50)) (atPortal pos (MainJs.exitPortal g))
      MainJs_winPanel (MainJs.panel g).
Proof.
  intros Ha g' pos. subst g' pos. unfold MainJs.updatePlayer. rewrite Ha.
  cbn [negb]. unfold MainJs.moveAndCollide. cbv zeta.
  match goal with
  | |- context [MainJs.checkCollisions env ?h] => set (g0 := h)
  end.
  assert (Hc : MainJs.exitPortal (MainJs.checkCollisions env g0) =
                 MainJs.exitPortal g /\
               player_position (MainJs.player (MainJs.checkCollisions env g0)) =
                 player_position (MainJs.player g0) /\
               (MainJs.gameActive (MainJs.checkCollisions env g0),
                MainJs.panel (MainJs.checkCollisions env g0)) =
               if atPortal (player_position (MainJs.player g0))
                    (MainJs.exitPortal g)
               then (false, MainJs_winPanel) else (true, MainJs.panel g)).
  { unfold MainJs.checkCollisions.
    destruct (MainJs_checkCores env g0) as (k & _ & ->).
    destruct (rewardPlayer_iter
                (picked (player_position (MainJs.player g0)) (MainJs.dataCores g0))
                (MainJs.player g0)) as (_ & _ & I3 & _).
    cbn [MainJs_withCores MainJs.exitPortal MainJs.set_clockReads
         MainJs.set_player MainJs.set_dataCores MainJs.player].
    change (MainJs.exitPortal g0) with (MainJs.exitPortal g).
    unfold atPortal.
    destruct (MainJs.exitPortal g) as [portal|] eqn:Ep.
    - rewrite I3. destruct (ltb _ 3).
      + split; [exact Ep|]. split; [exact I3|]. reflexivity.
      + split; [exact Ep|]. split; [exact I3|]. cbn. rewrite Ha. reflexivity.
    - split; [exact Ep|]. split; [exact I3|]. cbn. rewrite Ha. reflexivity. }
  destruct Hc as (C1 & C2 & C3).
  set (gc := MainJs.checkCollisions env g0) in *.
  unfold MainJs.voidCheck, frameResult.
  destruct (ltb (y (player_position (MainJs.player gc))) (-50)) eqn:Ev.
  - cbn [MainJs.endGame MainJs.player MainJs.set_panel MainJs.set_gameActive
         MainJs.exitPortal MainJs.gameActive MainJs.panel].
    rewrite Ev. split; [exact C1|reflexivity].
  - rewrite Ev, C2. split; [exact C1|exact C3].
Qed.

Lemma Part000_updatePlayer_end env f g :
  Part000.gameActive g = true ->
  let g' := Part000.updatePlayer env f g in
  let pos := player_position (Part000.player g') in
  Part000.exitPortal g' = Part000.exitPortal g /\
  (Part000.gameActive g', Part000.panel g') =
    frameResult (ltb (y pos) (-50))
      (atPortal pos (Part000.exitPortal g)
       && (2 <=? coresCollected (Part000.player g'))%nat)
      Part000_winPanel (Part000.panel g).
Proof.
  intros Ha g' pos. subst g' pos. unfold Part000.updatePlayer. rewrite Ha.
  cbn [negb]. unfold Part000.moveAndCollide. cbv zeta.
  match goal with
  | |- context [Part000.checkCollisions env ?h] => set (g0 := h)
  end.
  assert (Hc : Part000.exitPortal (Part000.checkCollisions env g0) =
                 Part000.exitPortal g /\
               (Part000.gameActive (Part000.checkCollisions env g0),
                Part000.panel (Part000.checkCollisions env g0)) =
               if atPortal
                    (player_position
                       (Part000.player (Part000.checkCollisions env g0)))
                    (Part000.exitPortal g)
                  && (2 <=? coresCollected
                              (Part000.player (Part000.checkCollisions env g0)))%nat
               then (false, Part000_winPanel) else (true, Part000.panel g)).
  { unfold Part000.checkCollisions.
    destruct (Part000_checkCores env g0) as (k & _ & ->).
    set (W := Part000_withCores _ _ _ _ _).
    change (Part000.exitPortal W) with (Part000.exitPortal g).
    assert (Hw : Part000.gameActive W = true) by exact Ha.
    assert (Hp : Part000.panel W = Part000.panel g) by reflexivity.
    assert (He : forall won message,
              Part000.player (Part000.endGame won message W) = Part000.player W)
      by reflexivity.
    unfold atPortal.
    destruct (Part000.exitPortal g) as [portal|] eqn:Ep.
    - destruct (ltb (distanceTo (player_position (Part000.player W))
                       (portal_position portal)) 3) eqn:El;
        [destruct (2 <=? coresCollected (Part000.player W))%nat eqn:E2|].
      + rewrite He, El, E2. split; [exact Ep|reflexivity].
      + rewrite El, E2, Hw, Hp. split; [exact Ep|reflexivity].
      + rewrite El, Hw, Hp. split; [exact Ep|reflexivity].
    - rewrite Hw, Hp. split; [exact Ep|reflexivity]. }
  destruct Hc as (C1 & C3).
  set (gc := Part000.checkCollisions env g0) in *.
  unfold Part000.voidCheck, frameResult.
  destruct (ltb (y (player_position (Part000.player gc))) (-50)) eqn:Ev.
  - cbn [Part000.endGame Part000.player Part000.set_panel Part000.set_gameActive
         Part000.exitPortal Part000.gameActive Part000.panel].
    rewrite Ev. split; [exact C1|reflexivity].
  - rewrite Ev. split; [exact C1|exact C3].
Qed.

Lemma MainJs_outcome_tail env dt l gp :
  MainJs_outcome
    (MainJs.animatePortal env dt
       (MainJs.forEach (MainJs.animateCore env dt) l (MainJs.updateHUD env gp))) =
  MainJs_outcome gp.
Proof.
  assert (Hq : forall h, MainJs_outcome (MainJs.animatePortal env dt h) =
                         MainJs_outcome h).
  { intros h. unfold MainJs.animatePortal, MainJs_outcome.
    destruct (MainJs.exitPortal h) as [portal|] eqn:Ep; rewrite ?Ep; reflexivity. }
  rewrite Hq.
  apply (MainJs_forEach_ind (fun g' => MainJs_outcome g' = MainJs_outcome gp)).
  - intros i g' H. unfold MainJs.animateCore.
    destruct (MainJs.dataCores g' !! i) as [core|]; [|exact H].
    destruct (negb _); exact H.
  - unfold MainJs.updateHUD. destruct (MainJs.gameActive gp); reflexivity.
Qed.

Lemma Part000_outcome_tail env dt l gp :
  Part000_outcome
    (Part000.animatePortal env dt
       (Part000.forEach (Part000.animateCore env dt) l (Part000.updateHUD env gp))) =
  Part000_outcome gp.
Proof.
  assert (Hq : forall h, Part000_outcome (Part000.animatePortal env dt h) =
                         Part000_outcome h).
  { intros h. unfold Part000.animatePortal, Part000_outcome.
    destruct (Part000.exitPortal h) as [portal|] eqn:Ep; rewrite ?Ep; reflexivity. }
  rewrite Hq.
  apply (Part000_forEach_ind (fun g' => Part000_outcome g' = Part000_outcome gp)).
  - intros i g' H. unfold Part000.animateCore.
    destruct (Part000.dataCores g' !! i) as [core|]; [|exact H].
    destruct (negb _); exact H.
  - unfold Part000.updateHUD. destruct (Part000.gameActive gp); reflexivity.
Qed.

Lemma frameResult_active below won winPanel panel0 :
  fst (frameResult below won winPanel panel0) = negb (below || won).
Proof. unfold frameResult. destruct below, won; reflexivity. Qed.

Lemma MainJs_frame_end env f g g' :
  MainJs.gameActive g = true -> MainJs.animate env f g = Some g' ->
  let pos := player_position (MainJs.player g') in
  (MainJs.gameActive g', MainJs.panel g') =
    frameResult (ltb (y pos) (-50)) (atPortal pos (MainJs.exitPortal g'))
      MainJs_winPanel (MainJs.panel g).
Proof.
  intros Ha E pos. subst pos.
  destruct (MainJs_animate_split env f g g' Ha E) as (g1 & g2 & E1 & E2 & E3).
  assert (A : MainJs_actors g' = MainJs_actors g1).
  { rewrite <- (MainJs_collapseRoomsBehindPlayer_actors env g1 g2 E2), E3.
    change (MainJs_actors (MainJs.updateDebrisParticles env (deltaTime f) ?h))
      with (MainJs_actors h).
    rewrite MainJs_updateCollapsingCorridors_actors.
    apply MainJs_updateCollapsingRooms_actors. }
  unfold MainJs_actors in A. injection A as Ap _ Ae _ Aa _ _ An.
  rewrite Ap, Ae, Aa, An. clear Ap Ae Aa An E2 E3 g2 E.
  set (g0 := MainJs.updateMapMovement env (deltaTime f) g) in *.
  assert (H0 : MainJs.gameActive g0 = true /\ MainJs.panel g0 = MainJs.panel g).
  { subst g0. unfold MainJs.updateMapMovement. rewrite Ha. cbn.
    split; [exact Ha|reflexivity]. }
  destruct H0 as [Ha0 Hp0].
  destruct (MainJs_updatePlayer_end env f g0 Ha0) as [Pe Pr].
  cbv zeta in Pr. set (gp := MainJs.updatePlayer env f g0) in *.
  pose proof (MainJs_outcome_tail env (deltaTime f)
                (seq 0 (List.length (MainJs.dataCores (MainJs.updateHUD env gp))))
                gp) as T.
  rewrite <- E1 in T. unfold MainJs_outcome in T.
  injection T as Tp Te Ta Tn. rewrite Tp, Ta, Tn, Pr, Hp0.
  rewrite (atPortal_position _ (MainJs.exitPortal gp) (MainJs.exitPortal g1) Te).
  rewrite Pe. reflexivity.
Qed.

Lemma Part000_frame_end env f g g' :
  Part000.gameActive g = true -> Part000.animate env f g = Some g' ->
  let pos := player_position (Part000.player g') in
  (Part000.gameActive g', Part000.panel g') =
    frameResult (ltb (y pos) (-50))
      (atPortal pos (Part000.exitPortal g')
       && (2 <=? coresCollected (Part000.player g'))%nat)
      Part000_winPanel (Part000.panel g).
Proof.
  intros Ha. unfold Part000.animate. rewrite Ha. cbv zeta.
  destruct (Part000_updatePlayer_end env f g Ha) as [Pe Pr].
  cbv zeta in Pr. set (gp := Part000.updatePlayer env f g) in *.
  pose proof (Part000_outcome_tail env (deltaTime f)
                (seq 0 (List.length (Part000.dataCores (Part000.updateHUD env gp))))
                gp) as T.
  set (gq := Part000.animatePortal _ _ _) in *.
  destruct (Part000.collapseOnCountdown env gq) as [gc|] eqn:Ec; [|discriminate].
  cbn [mbind option_bind]. intros E. injection E as <-.
  assert (A : Part000_actors (Part000.updateCollapsingRooms env gc) =
              Part000_actors gq).
  { rewrite Part000_updateCollapsingRooms_actors.
    apply (Part000_collapseOnCountdown_actors env gq gc Ec). }
  unfold Part000_actors in A. injection A as Ap _ Ae _ Aa _ An.
  rewrite Ap, Ae, Aa, An.
  unfold Part000_outcome in T. injection T as Tp Te Ta Tn.
  rewrite Tp, Ta, Tn, Pr.
  rewrite (atPortal_position _ (Part000.exitPortal gp) (Part000.exitPortal gq) Te).
  rewrite Pe. reflexivity.
Qed.

(** X15.  How a session ends.  After a frame that started active, the
    game is over exactly when the player is below -50 or at the portal
    (less than 3 units from where the portal is after the frame; in the
    grid variant also with at least 2 cores collected): nothing else in a
    frame ends a game, neither a collapsing room nor the debris.  Below
    -50 the panel is the void-death panel, also when the portal was reached
    in the same frame; at the portal otherwise it is the variant's escape
    panel; and when the game goes on the panel is as it was. *)
Theorem X15_how_a_session_ends :
  (forall env f g g',
     MainJs.gameActive g = true -> MainJs.animate env f g = Some g' ->
     let pos := player_position (MainJs.player g') in
     let below := ltb (y pos) (-50) in
     let won := atPortal pos (MainJs.exitPortal g') in
     (MainJs.gameActive g', MainJs.panel g') =
       frameResult below won MainJs_winPanel (MainJs.panel g) /\
     (MainJs.gameActive g' = false <-> below = true \/ won = true)) /\
  (forall env f g g',
     Part000.gameActive g = true -> Part000.animate env f g = Some g' ->
     let pos := player_position (Part000.player g') in
     let below := ltb (y pos) (-50) in
     let won := atPortal pos (Part000.exitPortal g')
                && (2 <=? coresCollected (Part000.player g'))%nat in
     (Part000.gameActive g', Part000.panel g') =
       frameResult below won Part000_winPanel (Part000.panel g) /\
     (Part000.gameActive g' = false <-> below = true \/ won = true)).
Proof.
  split.
  - intros env f g g' Ha E pos below won.
    pose proof (MainJs_frame_end env f g g' Ha E) as H. cbv zeta in H.
    fold pos in H. fold below won in H. split; [exact H|].
    apply (f_equal fst) in H. cbn [fst] in H.
    rewrite frameResult_active in H. rewrite H.
    destruct below, won; cbn; split; auto; intros [N|N]; discriminate.
  - intros env f g g' Ha E pos below won.
    pose proof (Part000_frame_end env f g g' Ha E) as H. cbv zeta in H.
    fold pos in H. fold below won in H. split; [exact H|].
    apply (f_equal fst) in H. cbn [fst] in H.
    rewrite frameResult_active in H. rewrite H.
    destruct below, won; cbn; split; auto; intros [N|N]; discriminate.
Qed.

(** The first frame after the click of [main.js]: the game goes on. *)
Lemma X15_first_frame_goes_on :
  MainJs.gameActive mainStarted = true /\
  exists g', MainJs.animate env0 frame0 mainStarted = Some g' /\
    (MainJs.gameActive g' = false <->
     ltb (y (player_position (MainJs.player g'))) (-50) = true \/
     atPortal (player_position (MainJs.player g')) (MainJs.exitPortal g') = true).
Proof.
  split; [reflexivity|].
  assert (R : MainJs_reachable env0 mainStarted)
    by (apply MainJs_reach_click, MainJs_reach_init).
  destruct (MainJs_animate_step env0 frame0 mainStarted
              (MainJs_reachable_Inv env0 mainStarted R)) as (g' & E & _).
  exists g'. split; [exact E|].
  exact (proj2 (proj1 X15_how_a_session_ends env0 frame0 mainStarted g'
                  eq_refl E)).
Defined.

(** ** What a frame does to a room *)

Lemma MainJs_updateCollapsingRooms_each env : forall q g,
  NoDup q ->
  let g' := MainJs.forEach (MainJs.updateCollapsingRoom env) q g in
  (forall k, k ∉ q -> MainJs.rooms g' !! k = MainJs.rooms g !! k) /\
  (forall k r, k ∈ q -> MainJs.rooms g !! k = Some r ->
     exists t, MainJs.rooms g' !! k =
               Some (collapseStepRoom MainJs.spinRoom
                       (t - room_collapseStartTime r) r)).
Proof.
  induction q as [|i q IH]; intros g Hq; cbn [MainJs.forEach]; cbv zeta.
  - split; [auto|]. intros k r Hk. inversion Hk.
  - apply NoDup_cons in Hq as [Hi Hq].
    destruct (IH (MainJs.updateCollapsingRoom env i g) Hq) as [I1 I2].
    cbv zeta in I1, I2.
    assert (S1 : forall k, k <> i ->
              MainJs.rooms (MainJs.updateCollapsingRoom env i g) !! k =
              MainJs.rooms g !! k).
    { intros k Hk. unfold MainJs.updateCollapsingRoom.
      destruct (MainJs.rooms g !! i); [|reflexivity].
      apply list_lookup_insert_ne. auto. }
    split.
    + intros k Hk. apply not_elem_of_cons in Hk as [Hne Hk].
      rewrite I1 by exact Hk. apply S1, Hne.
    + intros k r Hk Hr. apply elem_of_cons in Hk as [->|Hk].
      * exists (Date_now env (MainJs.clockReads g)).
        rewrite I1 by exact Hi. unfold MainJs.updateCollapsingRoom. rewrite Hr.
        apply list_lookup_insert_eq. eapply lookup_lt_Some, Hr.
      * apply I2; [exact Hk|]. rewrite S1; [exact Hr|].
        intros ->. contradiction.
Qed.

Lemma Part000_updateCollapsingRooms_each env : forall q g,
  NoDup q ->
  let g' := Part000.forEach (Part000.updateCollapsingRoom env) q g in
  (forall k, k ∉ q -> Part000.rooms g' !! k = Part000.rooms g !! k) /\
  (forall k r, k ∈ q -> Part000.rooms g !! k = Some r ->
     exists t, Part000.rooms g' !! k =
               Some (collapseStepRoom Part000.spinRoom
                       (t - room_collapseStartTime r) r)).
Proof.
  induction q as [|i q IH]; intros g Hq; cbn [Part000.forEach]; cbv zeta.
  - split; [auto|]. intros k r Hk. inversion Hk.
  - apply NoDup_cons in Hq as [Hi Hq].
    destruct (IH (Part000.updateCollapsingRoom env i g) Hq) as [I1 I2].
    cbv zeta in I1, I2.
    assert (S1 : forall k, k <> i ->
              Part000.rooms (Part000.updateCollapsingRoom env i g) !! k =
              Part000.rooms g !! k).
    { intros k Hk. unfold Part000.updateCollapsingRoom.
      destruct (Part000.rooms g !! i); [|reflexivity].
      apply list_lookup_insert_ne. auto. }
    split.
    + intros k Hk. apply not_elem_of_cons in Hk as [Hne Hk].
      rewrite I1 by exact Hk. apply S1, Hne.
    + intros k r Hk Hr. apply elem_of_cons in Hk as [->|Hk].
      * exists (Date_now env (Part000.clockReads g)).
        rewrite I1 by exact Hi. unfold Part000.updateCollapsingRoom. rewrite Hr.
        apply list_lookup_insert_eq. eapply lookup_lt_Some, Hr.
      * apply I2; [exact Hk|]. rewrite S1; [exact Hr|].
        intros ->. contradiction.
Qed.

Lemma MainJs_before_collapse_level env f g :
  MainJs_level
    (MainJs.animatePortal env (deltaTime f)
       (MainJs.forEach (MainJs.animateCore env (deltaTime f))
          (seq 0 (List.length (MainJs.dataCores
             (MainJs.updateHUD env
                (MainJs.updatePlayer env f
                   (MainJs.updateMapMovement env (deltaTime f) g))))))
          (MainJs.updateHUD env
             (MainJs.updatePlayer env f
                (MainJs.updateMapMovement env (deltaTime f) g))))) =
  MainJs_level (MainJs.updateMapMovement env (deltaTime f) g).
Proof.
  rewrite MainJs_animatePortal_level.
  apply (MainJs_forEach_ind
           (fun g' => MainJs_level g' =
                      MainJs_level (MainJs.updateMapMovement env (deltaTime f) g))).
  { intros i g' H. rewrite MainJs_animateCore_level. exact H. }
  rewrite MainJs_updateHUD_level. apply MainJs_updatePlayer_level.
Qed.

Lemma MainJs_before_collapse_mapDrift env f g :
  MainJs.mapDrift
    (MainJs.animatePortal env (deltaTime f)
       (MainJs.forEach (MainJs.animateCore env (deltaTime f))
          (seq 0 (List.length (MainJs.dataCores
             (MainJs.updateHUD env
                (MainJs.updatePlayer env f
                   (MainJs.updateMapMovement env (deltaTime f) g))))))
          (MainJs.updateHUD env
             (MainJs.updatePlayer env f
                (MainJs.updateMapMovement env (deltaTime f) g))))) =
  MainJs.mapDrift (MainJs.updateMapMovement env (deltaTime f) g).
Proof.
  set (g0 := MainJs.updateMapMovement env (deltaTime f) g).
  destruct (MainJs_updatePlayer_cores env f g0) as [Mp _].
  set (gp := MainJs.updatePlayer env f g0) in *.
  assert (Mh : MainJs.mapDrift (MainJs.updateHUD env gp) = MainJs.mapDrift gp)
    by (unfold MainJs.updateHUD; destruct (MainJs.gameActive gp); reflexivity).
  set (gh := MainJs.updateHUD env gp) in *.
  destruct (MainJs_animateCores_loop env (deltaTime f)
              (List.length (MainJs.dataCores gh)) 0 gh) as (Ml & _).
  cbv zeta in Ml. set (gl := MainJs.forEach _ _ gh) in *.
  assert (Mq : MainJs.mapDrift (MainJs.animatePortal env (deltaTime f) gl) =
               MainJs.mapDrift gl)
    by (unfold MainJs.animatePortal; destruct (MainJs.exitPortal gl); reflexivity).
  congruence.
Qed.

Lemma MainJs_after_collapse_rooms env dt g :
  MainJs.rooms (MainJs.updateDebrisParticles env dt
                  (MainJs.updateCollapsingCorridors env g)) = MainJs.rooms g.
Proof.
  change (MainJs.rooms (MainJs.updateDebrisParticles env dt ?h))
    with (MainJs.rooms h).
  unfold MainJs.updateCollapsingCorridors.
  apply (MainJs_forEach_ind (fun g' => MainJs.rooms g' = MainJs.rooms g));
    [|reflexivity].
  intros i g' H. unfold MainJs.updateCollapsingCorridor.
  destruct (MainJs.corridors g' !! i); exact H.
Qed.

Lemma collapseStepRoom_isCollapsed spin elapsed r :
  room_isCollapsed (collapseStepRoom spin elapsed r) = room_isCollapsed r.
Proof.
  pose proof (collapseStepRoom_flags spin elapsed r) as F.
  apply roomFlags_isCollapsed, F.
Qed.

Lemma MainJs_frame_room env f g g' :
  MainJs_reachable env g ->
  MainJs.gameActive g = true -> MainJs.animate env f g = Some g' ->
  forall k r, MainJs.rooms g !! k = Some r ->
    exists r', MainJs.rooms g' !! k = Some r' /\
      (room_isCollapsed r = true ->
         exists t, r' = collapseStepRoom MainJs.spinRoom
                          (t - room_collapseStartTime r) r) /\
      (room_isCollapsed r' = false ->
         r' = MainJs.driftRoom (MainJs.offset (MainJs.mapDrift g')) r).
Proof.
  intros Hreach Ha E k r Hk.
  pose proof (MainJs_reachable_Queued env g Hreach) as HQ.
  destruct (MainJs_animate_split env f g g' Ha E) as (g1 & g2 & E1 & E2 & E3).
  (* the drift *)
  destruct (updateMapMovement_fields env (deltaTime f) g Ha)
    as (R0 & _ & _ & _ & O0 & _).
  cbv zeta in R0, O0. set (off := MainJs.driftOffset _ _) in *.
  assert (Hoff : MainJs.offset (MainJs.mapDrift g') = off).
  { assert (A : MainJs_actors g' = MainJs_actors g1).
    { rewrite <- (MainJs_collapseRoomsBehindPlayer_actors env g1 g2 E2), E3.
      change (MainJs_actors (MainJs.updateDebrisParticles env (deltaTime f) ?h))
        with (MainJs_actors h).
      rewrite MainJs_updateCollapsingCorridors_actors.
      apply MainJs_updateCollapsingRooms_actors. }
    unfold MainJs_actors in A. injection A as _ _ _ Am _ _ _ _.
    rewrite Am, E1, MainJs_before_collapse_mapDrift. exact O0. }
  rewrite Hoff.
  assert (R1 : MainJs.rooms g1 = map (MainJs.driftRoom off) (MainJs.rooms g)).
  { pose proof (MainJs_before_collapse_level env f g) as L.
    rewrite <- E1 in L. unfold MainJs_level in L. injection L as L _.
    rewrite L. exact R0. }
  (* the queue before the collapse animation *)
  assert (Q1 : MainJs_Queued g1).
  { apply (MainJs_Queued_ext g); [| |exact HQ].
    - rewrite E1. apply MainJs_before_collapse_flags.
    - assert (Q0 : MainJs_queues (MainJs.updateMapMovement env (deltaTime f) g) =
                   MainJs_queues g)
        by (unfold MainJs.updateMapMovement; destruct (negb _); reflexivity).
      rewrite E1, <- Q0. apply MainJs_queues_structures.
      rewrite MainJs_animatePortal_structures.
      apply (MainJs_forEach_ind
               (fun g' => MainJs_structures g' =
                          MainJs_structures
                            (MainJs.updateMapMovement env (deltaTime f) g))).
      { intros i h H0. rewrite MainJs_animateCore_structures. exact H0. }
      rewrite MainJs_updateHUD_structures. apply MainJs_updatePlayer_structures. }
  assert (Q2 : MainJs_Queued g2).
  { pose proof E2 as E2'. unfold MainJs.collapseRoomsBehindPlayer in E2'.
    revert E2'. apply (MainJs_forEachM_ind MainJs_Queued); [|exact Q1].
    intros i ga gb Hq Eq. eapply MainJs_collapseRoomIfBehind_Queued; eauto. }
  destruct Q2 as [[Qn Qm] _].
  (* the rooms after collapseRoomsBehindPlayer *)
  pose proof E2 as E2'. unfold MainJs.collapseRoomsBehindPlayer in E2'.
  fold (collapseThresholdOf g1) in E2'.
  destruct (MainJs_collapseRooms_loop env _ _ _ _ _ E2') as [_ L2].
  set (r0 := MainJs.driftRoom off r).
  assert (H1 : MainJs.rooms g1 !! k = Some r0)
    by (rewrite R1, lookup_map, Hk; reflexivity).
  destruct (L2 k r0) as (r2 & H2 & (_ & _ & T3 & T4 & _)); [|exact H1|].
  { apply lookup_lt_Some in H1. lia. }
  (* the collapse animation *)
  destruct (MainJs_updateCollapsingRooms_each env (MainJs.collapsedRooms g2) g2 Qn)
    as [U1 U2].
  cbv zeta in U1, U2. fold (MainJs.updateCollapsingRooms env g2) in U1, U2.
  rewrite E3, MainJs_after_collapse_rooms.
  destruct (decide (k ∈ MainJs.collapsedRooms g2)) as [Hin|Hout].
  - destruct (U2 k r2 Hin H2) as [t Ht].
    eexists. split; [exact Ht|]. split.
    + intros Ec. assert (E0 : r0 = r)
        by (subst r0; unfold MainJs.driftRoom; rewrite Ec; reflexivity).
      rewrite (T4 (or_introl (eq_trans (f_equal room_isCollapsed E0) Ec))), E0.
      eauto.
    + rewrite collapseStepRoom_isCollapsed. intros N.
      apply Qm in Hin as (r2' & H2' & C2). congruence.
  - exists r2. split; [rewrite U1 by exact Hout; exact H2|]. split.
    + intros Ec. exfalso. apply Hout, Qm. exists r2. split; [exact H2|].
      rewrite T3. assert (E0 : r0 = r)
        by (subst r0; unfold MainJs.driftRoom; rewrite Ec; reflexivity).
      rewrite E0, Ec. reflexivity.
    + intros N. rewrite T3 in N. apply orb_false_iff in N as [_ N].
      apply T4. right. exact N.
Qed.

Lemma Part000_collapseOnCountdown_rooms env g g' :
  Part000.collapseOnCountdown env g = Some g' ->
  Part000.rooms g' = Part000.rooms g \/
  exists i room t,
    Part000.rooms g !! i = Some room /\ room_isCollapsed room = false /\
    Part000.rooms g' = <[i := Part000.room_collapse room t]> (Part000.rooms g).
Proof.
  unfold Part000.collapseOnCountdown. cbn [Part000.now].
  destruct (_ >? _)%Z; [|intros E; injection E as <-; left; reflexivity].
  set (g1 := Part000.set_clockReads g _).
  unfold Part000.collapseRandomRoom.
  destruct (_ =? 0)%nat.
  { cbn [mbind option_bind Part000.now]. intros E. injection E as <-.
    left. reflexivity. }
  cbn [Part000.random].
  destruct (Part000.at_ _ _) as [i|] eqn:Ei; [|discriminate].
  cbn [mbind option_bind].
  apply at_In, In_availableFrom in Ei as (r & Er & _ & Hc & _).
  rewrite Nat.sub_0_r in Er.
  change (Part000.rooms (Part000.set_randomDraws g1 _)) with (Part000.rooms g).
  change (Part000.rooms g1) with (Part000.rooms g) in Er.
  rewrite Er. cbn [mbind option_bind Part000.now].
  intros E. injection E as <-. right.
  exists i, r. eexists. split; [exact Er|]. split; [exact Hc|]. reflexivity.
Qed.

Lemma Part000_frame_room env f g g' :
  Part000_reachable env g ->
  Part000.gameActive g = true -> Part000.animate env f g = Some g' ->
  forall k r, Part000.rooms g !! k = Some r ->
    exists r', Part000.rooms g' !! k = Some r' /\
      (room_isCollapsed r = true ->
         exists t, r' = collapseStepRoom Part000.spinRoom
                          (t - room_collapseStartTime r) r) /\
      (room_isCollapsed r' = false -> r' = r).
Proof.
  intros Hreach Ha E k r Hk.
  pose proof (Part000_reachable_Queued env g Hreach) as HQ.
  unfold Part000.animate in E. rewrite Ha in E. cbv zeta in E.
  pose proof (Part000_before_collapse_structures env f g) as Hs.
  set (gq := Part000.animatePortal _ _ _) in *.
  unfold Part000_structures in Hs. injection Hs as Hr _ Hq.
  assert (Q1 : Part000_Queued gq)
    by (unfold Part000_Queued; rewrite Hr, Hq; exact HQ).
  destruct (Part000.collapseOnCountdown env gq) as [gc|] eqn:Ec; [|discriminate].
  cbn [mbind option_bind] in E. injection E as <-.
  destruct (Part000_collapseOnCountdown_Queued env gq gc Q1 Ec) as [Qn Qm].
  assert (H2 : exists r2, Part000.rooms gc !! k = Some r2 /\
                 (r2 = r \/ (room_isCollapsed r = false /\
                             room_isCollapsed r2 = true))).
  { destruct (Part000_collapseOnCountdown_rooms env gq gc Ec)
      as [->|(i & room & t & Hi & Hc & ->)].
    - rewrite Hr. exists r. auto.
    - rewrite Hr in Hi |- *. destruct (decide (k = i)) as [->|Hne].
      + rewrite list_lookup_insert_eq by (eapply lookup_lt_Some, Hi).
        rewrite Hk in Hi. injection Hi as <-. eexists. split; [reflexivity|].
        right. split; [exact Hc|reflexivity].
      + rewrite list_lookup_insert_ne by auto. exists r. auto. }
  destruct H2 as (r2 & H2 & C2).
  destruct (Part000_updateCollapsingRooms_each env (Part000.collapsedRooms gc)
              gc Qn) as [U1 U2].
  cbv zeta in U1, U2. fold (Part000.updateCollapsingRooms env gc) in U1, U2.
  destruct (decide (k ∈ Part000.collapsedRooms gc)) as [Hin|Hout].
  - destruct (U2 k r2 Hin H2) as [t Ht].
    eexists. split; [exact Ht|]. split.
    + intros Ecc. destruct C2 as [->|[N _]]; [eauto|congruence].
    + rewrite collapseStepRoom_isCollapsed. intros N.
      apply Qm in Hin as (r2' & H2' & C2'). congruence.
  - exists r2. split; [rewrite U1 by exact Hout; exact H2|].
    assert (N2 : room_isCollapsed r2 = false).
    { destruct (room_isCollapsed r2) eqn:E2; [|reflexivity].
      exfalso. apply Hout, Qm. eauto. }
    split.
    + intros Ecc. destruct C2 as [->|[N _]]; congruence.
    + intros _. destruct C2 as [->|[_ N]]; [reflexivity|congruence].
Qed.

(** X16.  What a frame of an active game does to a room, in every state
    a session can reach.  A room that was collapsed when the frame
    started is not moved by the drift and advances by exactly one step of
    the collapse animation, with the time some clock reading of the frame
    gives; it is never stepped twice.  A room that still stands after the
    frame was not touched by the collapse animation: in [main.js] it is
    the room of the start of the frame moved to its base position plus the
    drift offset of the frame, in the grid variant it is exactly the room
    it was. *)
Theorem X16_what_a_frame_does_to_a_room :
  (forall env f g g',
     MainJs_reachable env g ->
     MainJs.gameActive g = true -> MainJs.animate env f g = Some g' ->
     forall k r, MainJs.rooms g !! k = Some r ->
       exists r', MainJs.rooms g' !! k = Some r' /\
         (room_isCollapsed r = true ->
            exists t, r' = collapseStepRoom MainJs.spinRoom
                             (t - room_collapseStartTime r) r) /\
         (room_isCollapsed r' = false ->
            r' = MainJs.driftRoom (MainJs.offset (MainJs.mapDrift g')) r)) /\
  (forall env f g g',
     Part000_reachable env g ->
     Part000.gameActive g = true -> Part000.animate env f g = Some g' ->
     forall k r, Part000.rooms g !! k = Some r ->
       exists r', Part000.rooms g' !! k = Some r' /\
         (room_isCollapsed r = true ->
            exists t, r' = collapseStepRoom Part000.spinRoom
                             (t - room_collapseStartTime r) r) /\
         (room_isCollapsed r' = false -> r' = r)).
Proof.
  split.
  - exact MainJs_frame_room.
  - exact Part000_frame_room.
Qed.

(** The start room of [main.js] in the first frame after the click. *)
Lemma X16_start_room_in_the_first_frame :
  MainJs_reachable env0 mainStarted /\
  MainJs.gameActive mainStarted = true /\
  exists g', MainJs.animate env0 frame0 mainStarted = Some g' /\
    exists r', MainJs.rooms g' !! 0%nat = Some r' /\
      (room_isCollapsed r' = false ->
       r' = MainJs.driftRoom (MainJs.offset (MainJs.mapDrift g'))
              (MainJs.levelRoom 0)).
Proof.
  assert (R : MainJs_reachable env0 mainStarted)
    by (apply MainJs_reach_click, MainJs_reach_init).
  split; [exact R|]. split; [reflexivity|].
  destruct (MainJs_animate_step env0 frame0 mainStarted
              (MainJs_reachable_Inv env0 mainStarted R)) as (g' & E & _).
  exists g'. split; [exact E|].
  destruct (proj1 X16_what_a_frame_does_to_a_room env0 frame0 mainStarted g'
              R eq_refl E 0%nat (MainJs.levelRoom 0) eq_refl)
    as (r' & H1 & _ & H3).
  exists r'. split; [exact H1|exact H3].
Defined.

(** ** The debris over a session *)













(** ** The strength of gravity *)

Lemma gravity_strength n :
  x n * x n + y n * y n + z n * z n = 1 ->
  THREE.length (multiplyScalar n (-20)) = 20.
Proof.
  intros U. unfold THREE.length, multiplyScalar. cbn [x y z].
  replace (x n * -20 * (x n * -20) + y n * -20 * (y n * -20) +
           z n * -20 * (z n * -20))
    with (20 * 20 * (x n * x n + y n * y n + z n * z n)) by ring.
  rewrite U, Rmult_1_r. apply sqrt_square. lra.
Qed.

Lemma snapTo_gravity n p :
  gravity (snapTo n p) = gravity p \/
  exists c, nearestSurface n = Some c /\
            gravity (snapTo n p) = multiplyScalar (mesh_normal (child_mesh c)) (-20).
Proof.
  unfold snapTo. destruct (nearestSurface n) as [c|]; [|left; reflexivity].
  destruct (match nearestDistance n with Some d => ltb d 3 | None => false end);
    [|left; reflexivity].
  right. exists c. split; [reflexivity|].
  cbn [set_gravity set_position set_currentSurface isJumping velocity].
  destruct (isJumping p && ltb (y (velocity p)) 0); reflexivity.
Qed.

Lemma MainJs_gravity_advance f p :
  gravity (MainJs.advancePlayer f p) = gravity p.
Proof.
  unfold MainJs.advancePlayer, movePlayer, applyGravity, MainJs.jump,
    MainJs.locomotion, MainJs.steer, constantForward. cbv zeta.
  repeat match goal with
         | |- context [if ?b then _ else _] => destruct b
         end; reflexivity.
Qed.

Lemma Part000_gravity_advance f p :
  gravity (Part000.advancePlayer f p) = gravity p.
Proof.
  unfold Part000.advancePlayer, movePlayer, applyGravity, Part000.jump,
    Part000.locomotion, Part000.steer, constantForward. cbv zeta.
  repeat match goal with
         | |- context [if ?b then _ else _] => destruct b
         end; reflexivity.
Qed.

Lemma UnitNormals_lookup {A} (children : A -> list Mesh) (l : list A) k a j m :
  Forall (Forall UnitNormal) (map children l) ->
  l !! k = Some a -> children a !! j = Some m -> UnitNormal m.
Proof.
  intros H Hk Hj.
  assert (Hl : map children l !! k = Some (children a))
    by (rewrite lookup_map, Hk; reflexivity).
  pose proof (proj1 (Forall_lookup _ _) H k _ Hl) as Hc.
  exact (proj1 (Forall_lookup _ _) Hc j m Hj).
Qed.

Lemma MainJs_findNearestSurface_strength rs cs p :
  UnitNormals (map room_children rs, map MainJs.corridor_children cs) ->
  THREE.length (gravity p) = 20 ->
  THREE.length (gravity (MainJs.findNearestSurface rs cs p)) = 20.
Proof.
  intros [U1 U2] Hp. cbn [fst snd] in U1, U2. unfold MainJs.findNearestSurface.
  destruct (snapTo_gravity (MainJs.searchNearest rs cs (player_position p)) p)
    as [->|(c & Hc & ->)]; [exact Hp|].
  pose proof (MainJs_searchNearest_spec rs cs (player_position p)) as S.
  unfold NearestQualifying in S. rewrite Hc in S.
  destruct S as ((Hres & _) & _).
  apply MainJs_visited_resolve, in_app_iff in Hres.
  apply gravity_strength.
  destruct Hres as [Hin|Hin].
  - apply In_visitedRooms in Hin as (k & room & j & m & H1 & _ & H3 & ->).
    exact (UnitNormals_lookup room_children rs k room j m U1 H1 H3).
  - apply MainJs_In_visitedCorridors in Hin
      as (k & corridor & j & m & H1 & _ & H3 & ->).
    exact (UnitNormals_lookup MainJs.corridor_children cs k corridor j m U2 H1 H3).
Qed.

Lemma Part000_findNearestSurface_strength rs cs p :
  UnitNormals (map room_children rs, map Part000.corridor_children cs) ->
  THREE.length (gravity p) = 20 ->
  THREE.length (gravity (Part000.findNearestSurface rs cs p)) = 20.
Proof.
  intros [U1 U2] Hp. cbn [fst snd] in U1, U2. unfold Part000.findNearestSurface.
  destruct (snapTo_gravity (Part000.searchNearest rs cs (player_position p)) p)
    as [->|(c & Hc & ->)]; [exact Hp|].
  pose proof (Part000_searchNearest_spec rs cs (player_position p)) as S.
  unfold NearestQualifying in S. rewrite Hc in S.
  destruct S as ((Hres & _) & _).
  apply Part000_visited_resolve, in_app_iff in Hres.
  apply gravity_strength.
  destruct Hres as [Hin|Hin].
  - apply In_visitedRooms in Hin as (k & room & j & m & H1 & _ & H3 & ->).
    exact (UnitNormals_lookup room_children rs k room j m U1 H1 H3).
  - apply Part000_In_visitedCorridors in Hin
      as (k & corridor & j & m & H1 & H3 & ->).
    exact (UnitNormals_lookup Part000.corridor_children cs k corridor j m U2 H1 H3).
Qed.

Lemma MainJs_updatePlayer_strength env f g :
  UnitNormals (MainJs_meshes g) ->
  THREE.length (gravity (MainJs.player g)) = 20 ->
  THREE.length (gravity (MainJs.player (MainJs.updatePlayer env f g))) = 20.
Proof.
  intros U H. unfold MainJs.updatePlayer. destruct (negb _); [exact H|].
  set (g1 := MainJs.moveAndCollide env f g).
  assert (H1 : THREE.length (gravity (MainJs.player g1)) = 20).
  { subst g1. unfold MainJs.moveAndCollide. cbv zeta.
    match goal with
    | |- context [MainJs.checkCollisions env ?h] =>
        destruct (MainJs_checkCollisions_cores env h) as [_ E2];
        set (g0 := h) in *
    end.
    rewrite E2.
    destruct (rewardPlayer_iter
                (picked (player_position (MainJs.player g0)) (MainJs.dataCores g0))
                (MainJs.player g0)) as (_ & _ & _ & _ & _ & _ & I7 & _).
    rewrite I7. subst g0. cbn [MainJs.player MainJs.set_player].
    apply MainJs_findNearestSurface_strength; [exact U|].
    rewrite MainJs_gravity_advance. exact H. }
  unfold MainJs.voidCheck. destruct (ltb _ _); exact H1.
Qed.

Lemma Part000_updatePlayer_strength env f g :
  UnitNormals (Part000_meshes g) ->
  THREE.length (gravity (Part000.player g)) = 20 ->
  THREE.length (gravity (Part000.player (Part000.updatePlayer env f g))) = 20.
Proof.
  intros U H. unfold Part000.updatePlayer. destruct (negb _); [exact H|].
  set (g1 := Part000.moveAndCollide env f g).
  assert (H1 : THREE.length (gravity (Part000.player g1)) = 20).
  { subst g1. unfold Part000.moveAndCollide. cbv zeta.
    match goal with
    | |- context [Part000.checkCollisions env ?h] =>
        destruct (Part000_checkCollisions_cores env h) as (_ & E2 & _);
        set (g0 := h) in *
    end.
    rewrite E2.
    destruct (rewardPlayer_iter
                (picked (player_position (Part000.player g0)) (Part000.dataCores g0))
                (Part000.player g0)) as (_ & _ & _ & _ & _ & _ & I7 & _).
    rewrite I7. subst g0. cbn [Part000.player Part000.set_player].
    apply Part000_findNearestSurface_strength; [exact U|].
    rewrite Part000_gravity_advance. exact H. }
  unfold Part000.voidCheck. destruct (ltb _ _); exact H1.
Qed.

Lemma collapseStepRoom_children spin elapsed r :
  room_children (collapseStepRoom spin elapsed r) = room_children r.
Proof.
  unfold collapseStepRoom.
  destruct (room_collapsePhase r) as [[|]|]; [|reflexivity|reflexivity].
  destruct (elapsed <? 1000)%Z; reflexivity.
Qed.

Lemma collapseStepCorridor_children elapsed c :
  MainJs.corridor_children (MainJs.collapseStepCorridor elapsed c) =
  MainJs.corridor_children c.
Proof.
  unfold MainJs.collapseStepCorridor.
  destruct (MainJs.corridor_collapsePhase c) as [[|]|]; [|reflexivity|reflexivity].
  destruct (elapsed <? 500)%Z; reflexivity.
Qed.

Lemma MainJs_meshes_level g g' :
  MainJs_level g' = MainJs_level g -> MainJs_meshes g' = MainJs_meshes g.
Proof.
  unfold MainJs_level, MainJs_meshes. intros E. injection E as -> ->. reflexivity.
Qed.

Lemma MainJs_updateMapMovement_meshes env dt g :
  MainJs_meshes (MainJs.updateMapMovement env dt g) = MainJs_meshes g.
Proof.
  unfold MainJs_meshes, MainJs.updateMapMovement.
  destruct (negb _); [reflexivity|]. cbn. rewrite !map_map. f_equal.
  - apply map_ext. intros r. unfold MainJs.driftRoom.
    destruct (negb _); reflexivity.
  - apply map_ext. intros c. unfold MainJs.driftCorridor.
    destruct (negb _); reflexivity.
Qed.

Lemma MainJs_collapseConnectedCorridors_meshes env roomIndex g g' :
  MainJs.collapseConnectedCorridors env roomIndex g = Some g' ->
  MainJs_meshes g' = MainJs_meshes g.
Proof.
  unfold MainJs.collapseConnectedCorridors.
  apply (MainJs_forEachM_ind (fun g1 => MainJs_meshes g1 = MainJs_meshes g));
    [|reflexivity].
  intros j g1 g2 H. unfold MainJs.collapseCorridorIfConnected.
  destruct (MainJs.corridors g1 !! j) as [c|] eqn:Ej;
    [|intros E; injection E as <-; exact H].
  destruct (MainJs.corridor_isCollapsed c);
    [intros E; injection E as <-; exact H|].
  destruct (MainJs.includes _ _); [|intros E; injection E as <-; exact H].
  destruct (MainJs.corridor_connectedRooms c) as [room1 room2].
  destruct (MainJs.rooms g1 !! room1) as [r1|]; [|discriminate].
  cbn [mbind option_bind].
  destruct (MainJs.rooms g1 !! room2) as [r2|]; [|discriminate].
  cbn [mbind option_bind].
  destruct (room_isCollapsed r1 || room_isCollapsed r2);
    [|intros E; injection E as <-; exact H].
  cbn [MainJs.now MainJs.random]. intros E. injection E as <-.
  rewrite <- H. unfold MainJs_meshes.
  cbn [MainJs.rooms MainJs.corridors MainJs.set_collapsedCorridors
       MainJs.set_corridors MainJs.set_randomDraws MainJs.set_clockReads].
  f_equal. apply (map_insert_same MainJs.corridor_children _ _ c);
    [exact Ej|reflexivity].
Qed.

Lemma MainJs_collapseRoomsBehindPlayer_meshes env g g' :
  MainJs.collapseRoomsBehindPlayer env g = Some g' ->
  MainJs_meshes g' = MainJs_meshes g.
Proof.
  unfold MainJs.collapseRoomsBehindPlayer.
  apply (MainJs_forEachM_ind (fun g1 => MainJs_meshes g1 = MainJs_meshes g));
    [|reflexivity].
  intros i g1 g2 H. unfold MainJs.collapseRoomIfBehind.
  destruct (MainJs.rooms g1 !! i) as [room|] eqn:Ei;
    [|intros E; injection E as <-; exact H].
  destruct (room_isCollapsed room); [intros E; injection E as <-; exact H|].
  destruct (_ && _); [|intros E; injection E as <-; exact H].
  cbn [MainJs.now MainJs.random]. intros E.
  rewrite (MainJs_collapseConnectedCorridors_meshes _ _ _ _ E).
  rewrite (MainJs_meshes_level _ _ (MainJs_createDebrisEffect_level _ _ _)).
  rewrite <- H. unfold MainJs_meshes.
  cbn [MainJs.rooms MainJs.corridors MainJs.set_collapsedRooms
       MainJs.set_rooms MainJs.set_randomDraws MainJs.set_clockReads].
  f_equal. apply (map_insert_same room_children _ _ room);
    [exact Ei|reflexivity].
Qed.

Lemma MainJs_updateCollapsing_meshes env g :
  MainJs_meshes (MainJs.updateCollapsingCorridors env
                   (MainJs.updateCollapsingRooms env g)) = MainJs_meshes g.
Proof.
  assert (H1 : MainJs_meshes (MainJs.updateCollapsingRooms env g) = MainJs_meshes g).
  { unfold MainJs.updateCollapsingRooms.
    apply (MainJs_forEach_ind (fun g' => MainJs_meshes g' = MainJs_meshes g));
      [|reflexivity].
    intros i g' H. unfold MainJs.updateCollapsingRoom.
    destruct (MainJs.rooms g' !! i) as [room|] eqn:E; [|exact H].
    rewrite <- H. unfold MainJs_meshes. cbn. f_equal.
    apply (map_insert_same room_children _ _ room); [exact E|].
    apply collapseStepRoom_children. }
  rewrite <- H1. unfold MainJs.updateCollapsingCorridors.
  apply (MainJs_forEach_ind
           (fun g' => MainJs_meshes g' =
                      MainJs_meshes (MainJs.updateCollapsingRooms env g)));
    [|reflexivity].
  intros i g' H. unfold MainJs.updateCollapsingCorridor.
  destruct (MainJs.corridors g' !! i) as [c|] eqn:E; [|exact H].
  rewrite <- H. unfold MainJs_meshes. cbn. f_equal.
  apply (map_insert_same MainJs.corridor_children _ _ c); [exact E|].
  apply collapseStepCorridor_children.
Qed.

Lemma MainJs_animate_strength env f g g' :
  UnitNormals (MainJs_meshes g) ->
  THREE.length (gravity (MainJs.player g)) = 20 ->
  MainJs.animate env f g = Some g' ->
  MainJs_meshes g' = MainJs_meshes g /\
  THREE.length (gravity (MainJs.player g')) = 20.
Proof.
  intros U H E. destruct (MainJs.gameActive g) eqn:Ha.
  2:{ unfold MainJs.animate in E. rewrite Ha in E. injection E as <-. auto. }
  destruct (MainJs_animate_split env f g g' Ha E) as (g1 & g2 & E1 & E2 & E3).
  set (g0 := MainJs.updateMapMovement env (deltaTime f) g) in *.
  assert (M0 : MainJs_meshes g0 = MainJs_meshes g)
    by apply MainJs_updateMapMovement_meshes.
  assert (M1 : MainJs_meshes g1 = MainJs_meshes g0).
  { rewrite E1. apply MainJs_meshes_level, MainJs_before_collapse_level. }
  split.
  - rewrite E3.
    rewrite (MainJs_meshes_level _ _ (MainJs_updateDebrisParticles_level _ _ _)).
    rewrite MainJs_updateCollapsing_meshes.
    rewrite (MainJs_collapseRoomsBehindPlayer_meshes env g1 g2 E2).
    congruence.
  - assert (A : MainJs_actors g' = MainJs_actors g1).
    { rewrite <- (MainJs_collapseRoomsBehindPlayer_actors env g1 g2 E2), E3.
      change (MainJs_actors (MainJs.updateDebrisParticles env (deltaTime f) ?h))
        with (MainJs_actors h).
      rewrite MainJs_updateCollapsingCorridors_actors.
      apply MainJs_updateCollapsingRooms_actors. }
    unfold MainJs_actors in A. injection A as Ap _ _ _ _ _ _ _. rewrite Ap.
    pose proof (MainJs_outcome_tail env (deltaTime f)
                  (seq 0 (List.length (MainJs.dataCores
                     (MainJs.updateHUD env (MainJs.updatePlayer env f g0)))))
                  (MainJs.updatePlayer env f g0)) as T.
    rewrite <- E1 in T. unfold MainJs_outcome in T. injection T as Tp _ _ _.
    rewrite Tp. apply MainJs_updatePlayer_strength.
    + rewrite M0. exact U.
    + assert (P0 : MainJs.player g0 = MainJs.player g)
        by (subst g0; unfold MainJs.updateMapMovement;
            destruct (negb _); reflexivity).
      rewrite P0. exact H.
Qed.

Lemma Part000_collapseOnCountdown_meshes env g g' :
  Part000.collapseOnCountdown env g = Some g' ->
  Part000_meshes g' = Part000_meshes g.
Proof.
  intros E.
  assert (Hc : Part000.corridors g' = Part000.corridors g).
  { revert E. unfold Part000.collapseOnCountdown. cbn [Part000.now].
    destruct (_ >? _)%Z; [|intros E; injection E as <-; reflexivity].
    unfold Part000.collapseRandomRoom.
    destruct (_ =? 0)%nat.
    { cbn [mbind option_bind Part000.now]. intros E. injection E as <-.
      reflexivity. }
    cbn [Part000.random].
    destruct (Part000.at_ _ _) as [i|]; [|discriminate].
    cbn [mbind option_bind].
    destruct (_ !! i) as [room|]; [|discriminate].
    cbn [mbind option_bind Part000.now]. intros E. injection E as <-.
    reflexivity. }
  unfold Part000_meshes. rewrite Hc. f_equal.
  destruct (Part000_collapseOnCountdown_rooms env g g' E)
    as [->|(i & room & t & Hi & _ & ->)]; [reflexivity|].
  apply (map_insert_same room_children _ _ room); [exact Hi|reflexivity].
Qed.

Lemma Part000_updateCollapsingRooms_meshes env g :
  Part000_meshes (Part000.updateCollapsingRooms env g) = Part000_meshes g.
Proof.
  unfold Part000.updateCollapsingRooms.
  apply (Part000_forEach_ind (fun g' => Part000_meshes g' = Part000_meshes g));
    [|reflexivity].
  intros i g' H. unfold Part000.updateCollapsingRoom.
  destruct (Part000.rooms g' !! i) as [room|] eqn:E; [|exact H].
  rewrite <- H. unfold Part000_meshes. cbn. f_equal.
  apply (map_insert_same room_children _ _ room); [exact E|].
  apply collapseStepRoom_children.
Qed.

Lemma Part000_animate_strength env f g g' :
  UnitNormals (Part000_meshes g) ->
  THREE.length (gravity (Part000.player g)) = 20 ->
  Part000.animate env f g = Some g' ->
  Part000_meshes g' = Part000_meshes g /\
  THREE.length (gravity (Part000.player g')) = 20.
Proof.
  intros U H. unfold Part000.animate.
  destruct (Part000.gameActive g); [|intros E; injection E as <-; auto].
  cbv zeta.
  pose proof (Part000_before_collapse_structures env f g) as Hs.
  pose proof (Part000_outcome_tail env (deltaTime f)
                (seq 0 (List.length (Part000.dataCores
                   (Part000.updateHUD env (Part000.updatePlayer env f g)))))
                (Part000.updatePlayer env f g)) as T.
  set (gq := Part000.animatePortal _ _ _) in *.
  destruct (Part000.collapseOnCountdown env gq) as [gc|] eqn:Ec; [|discriminate].
  cbn [mbind option_bind]. intros E. injection E as <-.
  split.
  - rewrite Part000_updateCollapsingRooms_meshes.
    rewrite (Part000_collapseOnCountdown_meshes env gq gc Ec).
    unfold Part000_structures in Hs. injection Hs as Hr Hc _.
    unfold Part000_meshes. rewrite Hr, Hc. reflexivity.
  - assert (A : Part000_actors (Part000.updateCollapsingRooms env gc) =
                Part000_actors gq).
    { rewrite Part000_updateCollapsingRooms_actors.
      apply (Part000_collapseOnCountdown_actors env gq gc Ec). }
    unfold Part000_actors in A. injection A as Ap _ _ _ _ _ _. rewrite Ap.
    unfold Part000_outcome in T. injection T as Tp _ _ _. rewrite Tp.
    apply Part000_updatePlayer_strength; assumption.
Qed.

Lemma createRoom_normals px py pz size :
  Forall UnitNormal (room_children (createRoom px py pz size)).
Proof.
  unfold createRoom. cbn [room_children].
  repeat constructor; unfold UnitNormal; cbn; lra.
Qed.

Lemma initial_gravity_strength : THREE.length (gravity initialPlayer) = 20.
Proof.
  unfold THREE.length. cbn [gravity initialPlayer x y z].
  replace (0 * 0 + -20 * -20 + 0 * 0) with (20 * 20) by lra.
  apply sqrt_square. lra.
Qed.

Lemma MainJs_init_normals : UnitNormals (MainJs_meshes MainJs.init).
Proof.
  unfold UnitNormals, MainJs_meshes, MainJs.init.
  cbn [MainJs.rooms MainJs.corridors fst snd]. rewrite !map_map. split.
  - apply Forall_forall. intros ms Hms. apply list_elem_of_In, in_map_iff in Hms
      as (i & <- & _).
    apply createRoom_normals.
  - apply Forall_forall. intros ms Hms. apply list_elem_of_In, in_map_iff in Hms
      as (i & <- & _).
    cbn. repeat constructor. unfold UnitNormal. cbn. lra.
Qed.

Lemma Part000_init_normals : UnitNormals (Part000_meshes Part000.init).
Proof.
  unfold UnitNormals, Part000_meshes. split.
  - cbn [fst]. apply Forall_forall. intros ms Hms.
    apply list_elem_of_In, in_map_iff in Hms as (r & <- & Hr).
    cbn in Hr.
    repeat (destruct Hr as [<-|Hr]; [apply createRoom_normals|]).
    destruct Hr.
  - cbn [snd]. apply Forall_forall. intros ms Hms.
    apply list_elem_of_In, in_map_iff in Hms as (c & <- & Hc).
    cbn [Part000.corridors Part000.init] in Hc.
    apply in_map_iff in Hc as (cr & <- & _).
    cbn. repeat constructor. unfold UnitNormal. cbn. lra.
Qed.

Lemma MainJs_reachable_strength env g :
  MainJs_reachable env g ->
  MainJs_meshes g = MainJs_meshes MainJs.init /\
  THREE.length (gravity (MainJs.player g)) = 20.
Proof.
  induction 1 as [|g Hg [IH1 IH2]|f g g' Hg [IH1 IH2] Hstep].
  - split; [reflexivity|apply initial_gravity_strength].
  - split.
    + rewrite (MainJs_meshes_level _ _ (MainJs_onClick_level env g)). exact IH1.
    + unfold MainJs.onClick. destruct (negb _); exact IH2.
  - destruct (MainJs_animate_strength env f g g') as [M S]; auto.
    + rewrite IH1. apply MainJs_init_normals.
    + split; [congruence|exact S].
Qed.

Lemma Part000_reachable_strength env g :
  Part000_reachable env g ->
  Part000_meshes g = Part000_meshes Part000.init /\
  THREE.length (gravity (Part000.player g)) = 20.
Proof.
  induction 1 as [|g Hg [IH1 IH2]|f g g' Hg [IH1 IH2] Hstep].
  - split; [reflexivity|apply initial_gravity_strength].
  - unfold Part000.onClick. destruct (negb _); auto.
  - destruct (Part000_animate_strength env f g g') as [M S]; auto.
    + rewrite IH1. apply Part000_init_normals.
    + split; [congruence|exact S].
Qed.

(** X18.  Gravity keeps its strength.  In every state a session of either
    variant can reach, the child meshes of the rooms and corridors are
    the ones the level was generated with, each with a normal of length 1,
    and the player's gravity vector has length 20: a snap to whatever floor,
    wall or ceiling turns gravity against that surface's normal and never
    changes how strong it is.  The snap itself either leaves gravity as it
    was or sets it to -20 times the normal of the nearest surface. *)
Theorem X18_gravity_keeps_its_strength :
  (forall env g, MainJs_reachable env g ->
     MainJs_meshes g = MainJs_meshes MainJs.init /\
     UnitNormals (MainJs_meshes g) /\
     THREE.length (gravity (MainJs.player g)) = 20) /\
  (forall env g, Part000_reachable env g ->
     Part000_meshes g = Part000_meshes Part000.init /\
     UnitNormals (Part000_meshes g) /\
     THREE.length (gravity (Part000.player g)) = 20) /\
  (forall n p,
     gravity (snapTo n p) = gravity p \/
     exists c, nearestSurface n = Some c /\
       gravity (snapTo n p) = multiplyScalar (mesh_normal (child_mesh c)) (-20)).
Proof.
  split; [|split].
  - intros env g Hg. destruct (MainJs_reachable_strength env g Hg) as [M S].
    split; [exact M|]. split; [|exact S]. rewrite M. apply MainJs_init_normals.
  - intros env g Hg. destruct (Part000_reachable_strength env g Hg) as [M S].
    split; [exact M|]. split; [|exact S]. rewrite M. apply Part000_init_normals.
  - exact snapTo_gravity.
Qed.

(** Right after the click of [main.js]. *)
Lemma X18_gravity_after_the_click :
  MainJs_reachable env0 mainStarted /\
  THREE.length (gravity (MainJs.player mainStarted)) = 20.
Proof.
  assert (R : MainJs_reachable env0 mainStarted)
    by (apply MainJs_reach_click, MainJs_reach_init).
  split; [exact R|].
  exact (proj2 (proj2 (proj1 X18_gravity_keeps_its_strength env0 mainStarted R))).
Defined.
